(** * HTMLBuilder: a shallow embedding of the template engine of ContextMenu

    The development follows the class [HTMLBuilder] of the repository: the
    string helpers it calls, the regular expression it parses a line with,
    the event registry, [indentTemplate], [_extractLinesFrom],
    [_createElementFromLine], the tree-reconstruction loop and [generate].

    Modelling choices.
    - A JavaScript string is a list of UTF-16 code units ([N]).
    - The DOM is modelled by what the builder does to it: an element records
      the tag it was created with, the tokens added to its class list, its
      id, the attribute list built by [setAttribute], the listeners added
      and its child nodes. [createElement] and [setAttribute] raise
      [InvalidCharacterError] on a name that is no name for the DOM. The
      reflection of [classList] and [id] into the attribute list and the
      messages sent to [console.error] are not part of the model.
    - A function that can throw returns a [completion]; a method that
      changes the builder returns the new builder next to it. *)

From Stdlib Require Import NArith ZArith String Ascii Lia.
From Stdlib Require Import DecimalString DecimalN DecimalFacts.
From stdpp Require Import base list sorting.

Local Open Scope N_scope.
Local Open Scope list_scope.

(** ** Strings *)

Abbreviation char := N.
Abbreviation jsstring := (list char).

(** A literal of the source, as code units. *)
Definition lit (s : string) : jsstring :=
  List.map N_of_ascii (list_ascii_of_string s).

Definition LF : char := 10.
Definition QUOTE : char := 34.
Definition GT : char := 62.

(** White space and line terminators, as [String.prototype.trim] strips them. *)
Definition is_whitespace (c : char) : bool :=
  (9 <=? c) && (c <=? 13)
  || (c =? 32) || (c =? 160) || (c =? 5760)
  || (8192 <=? c) && (c <=? 8202)
  || (c =? 8232) || (c =? 8233) || (c =? 8239) || (c =? 8287)
  || (c =? 12288) || (c =? 65279).

(** [\d], [\w] and [.] of a regular expression without flags. *)
Definition is_digit (c : char) : bool := (48 <=? c) && (c <=? 57).

Definition is_word (c : char) : bool :=
  is_digit c || (65 <=? c) && (c <=? 90) || (c =? 95)
  || (97 <=? c) && (c <=? 122).

Definition is_dot (c : char) : bool :=
  negb ((c =? 10) || (c =? 13) || (c =? 8232) || (c =? 8233)).

Fixpoint dropWhile {A} (p : A -> bool) (l : list A) : list A :=
  match l with
  | [] => []
  | x :: l' => if p x then dropWhile p l' else l
  end.

Fixpoint takeWhile {A} (p : A -> bool) (l : list A) : list A :=
  match l with
  | [] => []
  | x :: l' => if p x then x :: takeWhile p l' else []
  end.

Definition trimStart (s : jsstring) : jsstring := dropWhile is_whitespace s.
Definition trimEnd (s : jsstring) : jsstring :=
  rev (dropWhile is_whitespace (rev s)).
Definition trim (s : jsstring) : jsstring := trimEnd (trimStart s).

Fixpoint startsWith (s p : jsstring) : bool :=
  match p, s with
  | [], _ => true
  | a :: p', b :: s' => (a =? b) && startsWith s' p'
  | _ :: _, [] => false
  end.

(** [s.split(sep)]: [skip] counts the code units of a separator that has
    just been recognised and is being stepped over, [cur] is the piece
    being collected. *)
Fixpoint split_from (sep : jsstring) (skip : nat) (cur s : jsstring)
  : list jsstring :=
  match s with
  | [] => [cur]
  | c :: s' =>
      match skip with
      | S n => split_from sep n cur s'
      | O =>
          if startsWith s sep
          then cur :: split_from sep (length sep - 1) [] s'
          else split_from sep 0 (cur ++ [c]) s'
      end
  end.

Definition split (sep s : jsstring) : list jsstring :=
  match sep with
  | [] => List.map (fun c => [c]) s
  | _ :: _ => split_from sep 0 [] s
  end.

(** [s.indexOf(p) !== -1] *)
Fixpoint includes (s p : jsstring) : bool :=
  startsWith s p ||
  match s with
  | [] => false
  | _ :: s' => includes s' p
  end.

(** [s.replace(p, "")] with a string pattern: the first occurrence goes. *)
Fixpoint remove_first (p s : jsstring) : jsstring :=
  if startsWith s p then drop (length p) s
  else match s with
       | [] => []
       | c :: s' => c :: remove_first p s'
       end.

Definition nonempty (s : jsstring) : bool :=
  match s with [] => false | _ :: _ => true end.

(** [x || null] on a value that is a string or [undefined]: an empty
    string is falsy. *)
Definition truthy (x : option jsstring) : option jsstring :=
  match x with
  | Some (c :: s) => Some (c :: s)
  | _ => None
  end.

(** ** Regular expressions

    A backtracking matcher in continuation-passing style, after the
    semantics of ECMAScript: a quantifier is greedy, the captures of the
    groups inside a quantified atom are cleared when an iteration starts,
    and an iteration that consumes no input is rejected. *)

Inductive regex :=
| Chr (p : char -> bool)
| Seq (r1 r2 : regex)
| Star (r : regex)
| Opt (r : regex)
| Group (i : nat) (r : regex).

Definition Plus (r : regex) : regex := Seq r (Star r).
Definition Lit (s : string) : char -> bool :=
  fun c => bool_decide (c ∈ lit s).

Abbreviation captures := (list (option jsstring)).
Abbreviation continuation := (jsstring -> captures -> option captures).

Fixpoint groups (r : regex) : list nat :=
  match r with
  | Chr _ => []
  | Seq r1 r2 => groups r1 ++ groups r2
  | Star r1 | Opt r1 => groups r1
  | Group i r1 => i :: groups r1
  end.

Definition clear (gs : list nat) (caps : captures) : captures :=
  foldr (fun i acc => <[i := None]> acc) caps gs.

(** The text consumed between the input [s] and its remainder [s']. *)
Definition consumed (s s' : jsstring) : jsstring :=
  take (length s - length s') s.

(** [progress s k] is [k] guarded by the empty check of a quantifier. *)
Definition progress (s : jsstring) (k : continuation) : continuation :=
  fun s' caps' => if (length s' <? length s)%nat then k s' caps' else None.

(** A greedy quantifier without upper bound over the matcher [body] of
    its atom, whose groups are [gs]. An iteration consumes at least one
    code unit, so that [length s] iterations are as good as any number:
    [n] counts the iterations still allowed, from [length s] on. *)
Fixpoint RepeatMatcher
  (body : continuation -> jsstring -> captures -> option captures)
  (gs : list nat) (k : continuation) (n : nat) (s : jsstring)
  (caps : captures) : option captures :=
  match n with
  | O => k s caps
  | S n' =>
      match body (progress s (RepeatMatcher body gs k n')) s (clear gs caps)
      with
      | Some res => Some res
      | None => k s caps
      end
  end.

Fixpoint matcher (r : regex) (k : continuation) (s : jsstring)
  (caps : captures) {struct r} : option captures :=
  match r with
  | Chr p =>
      match s with
      | c :: s' => if p c then k s' caps else None
      | [] => None
      end
  | Seq r1 r2 => matcher r1 (matcher r2 k) s caps
  | Opt r1 =>
      match matcher r1 (progress s k) s (clear (groups r1) caps) with
      | Some res => Some res
      | None => k s caps
      end
  | Star r1 => RepeatMatcher (matcher r1) (groups r1) k (length s) s caps
  | Group i r1 =>
      matcher r1 (fun s' caps' => k s' (<[i := Some (consumed s s')]> caps'))
        s caps
  end.

(** [r.exec(s)] for a regular expression without the global flag: the
    first position at which [r] matches, group 0 being the whole match.
    [n] is the length of the array of captures. *)
Fixpoint exec_from (n : nat) (r : regex) (s : jsstring) : option captures :=
  match matcher (Group 0 r) (fun _ caps => Some caps) s (replicate n None) with
  | Some res => Some res
  | None =>
      match s with
      | [] => None
      | _ :: s' => exec_from n r s'
      end
  end.

Definition exec (r : regex) (s : jsstring) : option captures :=
  exec_from (S (foldr Nat.max 0%nat (groups r))) r s.

(** [/\d/.test(s[0])]: of an empty string [s[0]] is [undefined], in which
    no digit is found. *)
Definition starts_with_digit (s : jsstring) : bool :=
  match s with
  | c :: _ => is_digit c
  | [] => false
  end.

(** [matches[i]] when it is a string. *)
Definition group (matches : captures) (i : nat) : option jsstring :=
  match matches !! i with
  | Some (Some s) => Some s
  | _ => None
  end.

(** ** Completions *)

Inductive exception :=
| Error (message : jsstring)
| TypeError
| InvalidCharacterError.

(** [OutOfFuel] is the outcome of a loop of the model that was given too
    few iterations; no function below returns it (see
    [generate_never_OutOfFuel]). *)
Inductive completion (A : Type) :=
| Normal (v : A)
| Throw (e : exception)
| OutOfFuel.
Arguments Normal {A} v.
Arguments Throw {A} e.
Arguments OutOfFuel {A}.

(** ** The regular expression of the builder

    The pattern of the source, its atoms spaced out:
    [( \w+ )  ( (?: \. [\w-]* )* )*  ( # [\w-]* )?  (?: \( ( .* ) \) )?
     (?: \[ ( .* ) \] )?  (?: @ ( [\w;-]* ) )*],
    one constructor for each construct, in the order of the source. *)

Definition word_or (s : string) : char -> bool :=
  fun c => is_word c || Lit s c.

Definition REGEX : regex :=
  Seq (Group 1 (Plus (Chr is_word)))
 (Seq (Star (Group 2 (Star (Seq (Chr (Lit ".")) (Star (Chr (word_or "-")))))))
 (Seq (Opt (Group 3 (Seq (Chr (Lit "#")) (Star (Chr (word_or "-"))))))
 (Seq (Opt (Seq (Chr (Lit "(")) (Seq (Group 4 (Star (Chr is_dot)))
                                     (Chr (Lit ")")))))
 (Seq (Opt (Seq (Chr (Lit "[")) (Seq (Group 5 (Star (Chr is_dot)))
                                     (Chr (Lit "]")))))
      (Star (Seq (Chr (Lit "@")) (Group 6 (Star (Chr (word_or ";-")))))))))).

(** The part of [REGEX] after the tag. *)
Definition after_tag (r : regex) : regex :=
  match r with
  | Seq _ rest => rest
  | _ => r
  end.

(** A continuation that cannot fail. *)
Definition total (k : continuation) : Prop :=
  forall s caps, is_Some (k s caps).

(** The tag that [REGEX] finds in a line: the first run of word
    characters. *)
Definition first_word (line : jsstring) : jsstring :=
  takeWhile is_word (dropWhile (fun c => negb (is_word c)) line).

(** ** Lines of a template *)

(** [_level]: the number of leading [>]. *)
Fixpoint _level (line : jsstring) : Z :=
  match line with
  | c :: line' => if c =? GT then (1 + _level line')%Z else 0%Z
  | [] => 0%Z
  end.

(** The loop of [_extractLinesFrom]: [lines[i]] is trimmed and, when it
    is then empty, spliced out, after which [i] is incremented all the
    same. [fuel] bounds the iterations; the loop is entered with
    [lines.length] of it, which is enough since [i] grows and the array
    does not. A position past the end reads as [undefined], which cannot
    happen under the loop condition. *)
Fixpoint extract_loop (fuel i : nat) (lines : list jsstring)
  : list jsstring :=
  match fuel with
  | O => lines
  | S fuel' =>
      if (i <? length lines)%nat then
        let lines1 := alter trim i lines in
        let lines2 :=
          match lines1 !! i with
          | Some [] => delete i lines1
          | _ => lines1
          end in
        extract_loop fuel' (i + 1) lines2
      else lines
  end.

Definition _extractLinesFrom (template : jsstring) : list jsstring :=
  let lines := split [LF] (trim template) in
  extract_loop (length lines) 0 lines.

(** What the loop of [_extractLinesFrom] comes to, by recursion on the
    lines not yet visited: after a line that is blank once trimmed, the
    next line is passed over as it stands (see [extractLinesFrom_extracted]). *)
Fixpoint extracted (lines : list jsstring) : list jsstring :=
  match lines with
  | [] => []
  | line :: rest =>
      match trim line with
      | [] =>
          match rest with
          | [] => []
          | next :: rest' => next :: extracted rest'
          end
      | c :: s => (c :: s) :: extracted rest
      end
  end.

(** [indentTemplate]; [indentation] is 1 when the caller gives none. *)
Definition indentTemplate (template : jsstring) (indentation : nat)
  : jsstring :=
  let lines := _extractLinesFrom template in
  let newTemplate :=
    foldl (fun acc line => acc ++ (replicate indentation GT ++ trim line ++ [LF]))
      [] lines in
  trim newTemplate.

(** [lines.join("\n")], which is what [indentTemplate] builds when it
    trims the line feed after the last line. *)
Fixpoint join_lines (lines : list jsstring) : jsstring :=
  match lines with
  | [] => []
  | [line] => line
  | line :: rest => line ++ [LF] ++ join_lines rest
  end.

(** ** The tree-reconstruction loop

    The loop only looks at the levels and calls [prepend] on the elements,
    so it is written over any type of elements with that method:
    [prepend p c] is the element [p] after [p.prepend(c)]. [None] stands
    for the [TypeError] of reading a property of [undefined]. *)

Section Reconstruction.
Context {E : Type}.
Variable prepend : E -> E -> E.

(** [for (var child of children) { if (child[1] > max) max = child[1] }] *)
Definition _maxLevel (children : list (E * Z)) : option Z :=
  first ← children !! 0%nat;
  Some (foldl (fun max child => if (child.2 >? max)%Z then child.2 else max)
              first.2 children).

(** [for (i = from; ...) if (children[i][1] === level) lastIndex = i],
    on the part of the array that starts at index [i]. *)
Fixpoint last_index_at {I} (level : Z) (inj : nat -> I) (i : nat)
  (children : list (E * Z)) (lastIndex : I) : I :=
  match children with
  | [] => lastIndex
  | child :: rest =>
      last_index_at level inj (S i) rest
        (if (child.2 =? level)%Z then inj i else lastIndex)
  end.

Definition _getIndexOfDeepestElement (children : list (E * Z))
  : option nat :=
  max ← _maxLevel children;
  if (max =? 1)%Z then Some (length children - 1)%nat
  else Some (last_index_at max (fun i => i) 0 children 1%nat).

(** The result is [Some None] for the [null] of the source. *)
Definition _getIndexOfNearestParentElementOf (indexOfDeepest : nat)
  (children : list (E * Z)) : option (option nat) :=
  deepest ← children !! indexOfDeepest;
  Some (last_index_at (deepest.2 - 1)%Z Some 0
          (take indexOfDeepest children) None).

(** One iteration of [while (childrenElements.length > 0)]. *)
Definition reconstruct_step (mainElement : E) (childrenElements : list (E * Z))
  : option (E * list (E * Z)) :=
  indexOfDeepest ← _getIndexOfDeepestElement childrenElements;
  indexOfNearestParent ←
    _getIndexOfNearestParentElementOf indexOfDeepest childrenElements;
  deepest ← childrenElements !! indexOfDeepest;
  match indexOfNearestParent with
  | Some p =>
      nearest ← childrenElements !! p;
      Some (mainElement,
            delete indexOfDeepest
              (<[p := (prepend nearest.1 deepest.1, nearest.2)]>
                 childrenElements))
  | None =>
      Some (prepend mainElement deepest.1,
            delete indexOfDeepest childrenElements)
  end.

(** The loop, which returns the main element once the list is empty. *)
Fixpoint reconstruct (fuel : nat) (mainElement : E)
  (childrenElements : list (E * Z)) : completion E :=
  match childrenElements with
  | [] => Normal mainElement
  | _ :: _ =>
      match fuel with
      | O => OutOfFuel
      | S fuel' =>
          match reconstruct_step mainElement childrenElements with
          | Some (mainElement', childrenElements') =>
              reconstruct fuel' mainElement' childrenElements'
          | None => Throw TypeError
          end
      end
  end.
End Reconstruction.

#[export] Instance completion_bind : MBind completion :=
  fun A B f c =>
    match c with
    | Normal v => f v
    | Throw e => Throw e
    | OutOfFuel => OutOfFuel
    end.

(** ** Names

    The DOM takes a string for the name of an element or of an attribute
    when it matches the [Name] production of XML, which is the check of
    the DOM Standard for [createElement] and [setAttribute] in the years
    of the repository: a name start character, then name characters. A
    character outside the Basic Multilingual Plane is a pair of
    surrogates in a string; those of the production are the pairs whose
    first half is from D800 to DB7F. A name that passes this check also
    passes the looser one that later editions of the standard have. *)

Definition between (lo hi : N) (c : char) : bool := (lo <=? c) && (c <=? hi).

Definition is_name_start_char (c : char) : bool :=
  (c =? 58) || between 65 90 c || (c =? 95) || between 97 122 c
  || between 192 214 c || between 216 246 c || between 248 767 c
  || between 880 893 c || between 895 8191 c || between 8204 8205 c
  || between 8304 8591 c || between 11264 12271 c || between 12289 55295 c
  || between 63744 64975 c || between 65008 65533 c.

Definition is_name_char (c : char) : bool :=
  is_name_start_char c || (c =? 45) || (c =? 46) || is_digit c
  || (c =? 183) || between 768 879 c || between 8255 8256 c.

(** A pair of surrogates for a character from 10000 to EFFFF. *)
Definition is_name_pair (c d : char) : bool :=
  between 55296 56191 c && between 56320 57343 d.

Fixpoint name_chars (s : jsstring) : bool :=
  match s with
  | [] => true
  | c :: s' =>
      if is_name_char c then name_chars s'
      else
        match s' with
        | d :: s'' => is_name_pair c d && name_chars s''
        | [] => false
        end
  end.

Definition valid_name (s : jsstring) : bool :=
  match s with
  | [] => false
  | c :: s' =>
      if is_name_start_char c then name_chars s'
      else
        match s' with
        | d :: s'' => is_name_pair c d && name_chars s''
        | [] => false
        end
  end.

(** [A] to [Z] become [a] to [z]. *)
Definition ascii_lowercase (s : jsstring) : jsstring :=
  (fun c => if between 65 90 c then c + 32 else c) <$> s.

(** ** The builder *)

Section Builder.
Context {Callback Options : Type}.

(** The decoding of HTML entities is left to the platform (the source
    reads it back from a [textarea]). *)
Variable _decodeHTMLEntities : jsstring -> jsstring.

(** The argument of [bindEvent]; a property that is absent is [None]. *)
Record Event := mkEvent {
  name : option jsstring;
  type : option jsstring;
  callback : option Callback;
  options : option Options
}.

(** The arguments of one call of [addEventListener]. *)
Definition Listener : Type :=
  option jsstring * option Callback * option Options.

Inductive Element :=
  mkElement (tagName : jsstring) (classList : list jsstring) (id : jsstring)
    (attributes : list (jsstring * jsstring)) (listeners : list Listener)
    (childNodes : list Node)
with Node :=
| TextNode (data : jsstring)
| ElementNode (element : Element).

Definition tagName (e : Element) := let (t, _, _, _, _, _) := e in t.
Definition classList (e : Element) := let (_, c, _, _, _, _) := e in c.
Definition id (e : Element) := let (_, _, i, _, _, _) := e in i.
Definition attributes (e : Element) := let (_, _, _, a, _, _) := e in a.
Definition listeners (e : Element) := let (_, _, _, _, l, _) := e in l.
Definition childNodes (e : Element) := let (_, _, _, _, _, n) := e in n.

(** [element.children]: the child nodes that are elements. *)
Definition children (e : Element) : list Element :=
  omap (fun n => match n with ElementNode c => Some c | TextNode _ => None end)
    (childNodes e).

(** The data of the text nodes among the children. *)
Definition texts (e : Element) : list jsstring :=
  omap (fun n => match n with TextNode d => Some d | ElementNode _ => None end)
    (childNodes e).

(** An element that has just been created. *)
Definition new_element (tag : jsstring) : Element :=
  mkElement tag [] [] [] [] [].

(** [element.localName] in an HTML document: the tag that was given to
    [createElement], in ASCII lower case. *)
Definition localName (e : Element) : jsstring :=
  ascii_lowercase (tagName e).

(** [document.createElement(tag)]: the DOM raises [InvalidCharacterError]
    when the tag is no name. [tagName] is the tag as it is given; the
    name that an HTML document gives the element is [localName], which
    nothing in the builder reads back. *)
Definition createElement (tag : jsstring) : completion Element :=
  if valid_name tag then Normal (new_element tag)
  else Throw InvalidCharacterError.

Definition classList_add (c : jsstring) (e : Element) : Element :=
  let (t, cl, i, a, l, n) := e in
  mkElement t (if bool_decide (c ∈ cl) then cl else cl ++ [c]) i a l n.

Fixpoint set_attribute (name value : jsstring)
  (attrs : list (jsstring * jsstring)) : list (jsstring * jsstring) :=
  match attrs with
  | [] => [(name, value)]
  | (n, v) :: rest =>
      if bool_decide (n = name) then (n, value) :: rest
      else (n, v) :: set_attribute name value rest
  end.

(** [element.setAttribute(name, value)] on an HTML element: the DOM
    raises [InvalidCharacterError] when the name is no name, and sets
    the attribute of that name in ASCII lower case. *)
Definition setAttribute (name value : jsstring) (e : Element)
  : completion Element :=
  if valid_name name then
    let (t, cl, i, a, l, n) := e in
    Normal (mkElement t cl i (set_attribute (ascii_lowercase name) value a)
              l n)
  else Throw InvalidCharacterError.

Definition set_id (v : jsstring) (e : Element) : Element :=
  let (t, cl, _, a, l, n) := e in mkElement t cl v a l n.

Definition addEventListener (x : Listener) (e : Element) : Element :=
  let (t, cl, i, a, l, n) := e in mkElement t cl i a (l ++ [x]) n.

Definition appendChild (c : Node) (e : Element) : Element :=
  let (t, cl, i, a, l, n) := e in mkElement t cl i a l (n ++ [c]).

Definition prepend (e c : Element) : Element :=
  let (t, cl, i, a, l, n) := e in mkElement t cl i a l (ElementNode c :: n).

Record HTMLBuilder := mkHTMLBuilder {
  SYMBOL_BETWEEN_ATTRIBUTES : jsstring;
  EVENTS : list Event;
  parent : Element
}.

(** [new HTMLBuilder(parent)] *)
Definition new_HTMLBuilder (parent : Element) : HTMLBuilder :=
  mkHTMLBuilder (lit ";") [] parent.

Definition setParent (this : HTMLBuilder) (parent : Element) : HTMLBuilder :=
  mkHTMLBuilder (SYMBOL_BETWEEN_ATTRIBUTES this) (EVENTS this) parent.

Definition changeSymbolBetweenAttributes (this : HTMLBuilder)
  (symbol : jsstring) : HTMLBuilder :=
  mkHTMLBuilder symbol (EVENTS this) (parent this).

(** *** The event registry *)

(** [!x] for a property that holds a string when it is present. *)
Definition missing (x : option jsstring) : bool :=
  match truthy x with
  | Some _ => false
  | None => true
  end.

(** [bindEvent(event)], with the event taken by value. The code writes
    the stripped name into the object that it is given and pushes that
    object; this is the same as pushing a stripped copy when the
    object is not one that the registry holds already, as with the
    object literals that [ContextMenu] binds. The registry with the
    objects shared is [bindEvent_object], further down. *)
Definition bindEvent (this : HTMLBuilder) (event : Event)
  : completion unit * HTMLBuilder :=
  if missing (name event) then
    (Throw (Error (lit "bindEvent(): cannot bind an event without a name.")),
     this)
  else if missing (type event) then
    (Throw (Error
              (lit "bindEvent(): cannot bind an event without a precise type.")),
     this)
  else
    match callback event with
    | None =>
        (Throw (Error
                  (lit "bindEvent(): cannot bind an event without a callback function.")),
         this)
    | Some _ =>
        let event :=
          match name event with
          | Some n =>
              if startsWith n (lit "on")
              then mkEvent (Some (remove_first (lit "on") n)) (type event)
                     (callback event) (options event)
              else event
          | None => event
          end in
        (Normal (),
         mkHTMLBuilder (SYMBOL_BETWEEN_ATTRIBUTES this)
           (EVENTS this ++ [event]) (parent this))
    end.

Definition clearEvents (this : HTMLBuilder) : HTMLBuilder :=
  mkHTMLBuilder (SYMBOL_BETWEEN_ATTRIBUTES this) [] (parent this).

(** [for (var event of this.EVENTS) if (name === event.name) return event] *)
Fixpoint search_events (key : jsstring) (events : list Event)
  : option Event :=
  match events with
  | [] => None
  | event :: rest =>
      if bool_decide (name event = Some key) then Some event
      else search_events key rest
  end.

Definition _searchForEvent (this : HTMLBuilder) (key : jsstring)
  : option Event :=
  search_events key (EVENTS this).

(** *** From a line to an element *)

(** [classList.add] raises on an empty token and on one with white
    space in it; the tokens it is given here are the pieces of a run
    of word characters, [-] and [.] cut at [.], the empty ones left
    out, so that it never does. *)
Definition add_classes (classes : list jsstring) (element : Element)
  : Element :=
  foldl (fun element c =>
           if starts_with_digit c then element else classList_add c element)
    element classes.

(** The body of [for (var attr of attributes)]. Where the source reads a
    piece of [attr.split("=")] that does not exist, [setAttribute] is
    given [undefined], which it turns into a string. *)
Definition set_attribute_entry (element : Element) (attr : jsstring)
  : completion Element :=
  if starts_with_digit attr then Normal element
  else
    let attr := trim attr in
    if includes attr (lit "=") then
      let name := default (lit "undefined") (split (lit "=") attr !! 0%nat) in
      let value := default (lit "undefined") (split (lit "=") attr !! 1%nat) in
      setAttribute name value element
    else setAttribute attr [] element.

(** [for (var attr of attributes)]: the loop ends at the first entry
    on which [setAttribute] raises. *)
Fixpoint set_attributes (attributes : list jsstring) (element : Element)
  : completion Element :=
  match attributes with
  | [] => Normal element
  | attr :: rest =>
      element ← set_attribute_entry element attr;
      set_attributes rest element
  end.

Definition add_events (this : HTMLBuilder) (events : list jsstring)
  (element : Element) : Element :=
  foldl (fun element name =>
           if starts_with_digit name then element
           else match _searchForEvent this name with
                | Some event =>
                    addEventListener
                      (type event, callback event, options event) element
                | None => element
                end)
    element events.

(** [c ? f(c) : element], for the optional parts of a line. *)
Definition when {A} (x : option A) (f : A -> Element -> Element)
  (element : Element) : Element :=
  match x with
  | Some v => f v element
  | None => element
  end.

Definition parse_error (line : jsstring) : exception :=
  Error (lit "HTMLBuilder: unable to parse a line: " ++ [QUOTE] ++ line
           ++ [QUOTE]).

Definition _createElementFromLine (this : HTMLBuilder) (line : jsstring)
  : completion Element :=
  let matches := default [] (exec REGEX line) in
  let tagname := truthy (group matches 1) in
  let classes :=
    (fun m => List.filter nonempty (split (lit ".") m))
      <$> truthy (group matches 2) in
  let id := remove_first (lit "#") <$> truthy (group matches 3) in
  let content := truthy (group matches 4) in
  let attributes :=
    split (SYMBOL_BETWEEN_ATTRIBUTES this) <$> truthy (group matches 5) in
  let events :=
    (fun m => List.filter nonempty (split (lit ";") m))
      <$> truthy (group matches 6) in
  match tagname with
  | None => Throw (parse_error line)
  | Some tagname =>
      element ← createElement tagname;
      let element := when classes add_classes element in
      element ←
        match attributes with
        | Some attributes => set_attributes attributes element
        | None => Normal element
        end;
      let element := when (truthy id) set_id element in
      let element :=
        when content
          (fun c => appendChild (TextNode (_decodeHTMLEntities c)))
          element in
      let element := when events (add_events this) element in
      Normal element
  end.

(** *** [generate] *)

(** [for (i = 0; ...) if (this._level(lines[i]) === 0) mainLines.push([lines[i], i])],
    on the part of [lines] that starts at index [i]. *)
Fixpoint main_lines (i : nat) (lines : list jsstring)
  : list (jsstring * nat) :=
  match lines with
  | [] => []
  | line :: rest =>
      if (_level line =? 0)%Z then (line, i) :: main_lines (S i) rest
      else main_lines (S i) rest
  end.

(** [for (k = ...) childrenElements.push([this._createElementFromLine(lines[k]), this._level(lines[k])])],
    on the lines [block] that [k] runs over. *)
Fixpoint create_children (this : HTMLBuilder) (block : list jsstring)
  : completion (list (Element * Z)) :=
  match block with
  | [] => Normal []
  | line :: rest =>
      child ← _createElementFromLine this line;
      others ← create_children this rest;
      Normal ((child, _level line) :: others)
  end.

(** The lines of index [from] to [to - 1]. *)
Definition slice (from to : nat) (lines : list jsstring) : list jsstring :=
  take (to - from) (drop from lines).

Definition parent_appendChild (this : HTMLBuilder) (e : Element)
  : HTMLBuilder :=
  mkHTMLBuilder (SYMBOL_BETWEEN_ATTRIBUTES this) (EVENTS this)
    (appendChild (ElementNode e) (parent this)).

(** [for (i = 0; i < mainLines.length; i++)], on the part of [mainLines]
    that starts at index [i]. *)
Fixpoint generate_mains (this : HTMLBuilder) (lines : list jsstring)
  (mainLines : list (jsstring * nat)) : completion unit * HTMLBuilder :=
  match mainLines with
  | [] => (Normal (), this)
  | (mainLine, mainLevel) :: rest =>
      let nextMainLevel :=
        match rest with
        | next :: _ => next.2
        | [] => length lines
        end in
      let built :=
        mainElement ← _createElementFromLine this mainLine;
        childrenElements ←
          create_children this (slice (mainLevel + 1) nextMainLevel lines);
        reconstruct prepend (length childrenElements) mainElement
          childrenElements in
      match built with
      | Normal mainElement =>
          generate_mains (parent_appendChild this mainElement) lines rest
      | Throw e => (Throw e, this)
      | OutOfFuel => (OutOfFuel, this)
      end
  end.

Definition generate (this : HTMLBuilder) (template : jsstring)
  : completion unit * HTMLBuilder :=
  if (length (trim template) =? 0)%nat then (Normal (), this)
  else
    let lines := _extractLinesFrom template in
    generate_mains this lines (main_lines 0 lines).

End Builder.

(** ** Line trees

    The shape of a reconstructed tree: a node is named by the index of
    its line, 0 for the main line of a block and [k + 1] for the line of
    index [k] among its descendants. The loop is run on line trees to
    follow where each line goes. *)

#[warnings="-register-all"] Inductive LineTree :=
  LineNode (line : nat) (kids : list LineTree).

Definition line (t : LineTree) : nat := let (i, _) := t in i.
Definition kids (t : LineTree) : list LineTree := let (_, ks) := t in ks.

Definition prepend_line (p c : LineTree) : LineTree :=
  LineNode (line p) (c :: kids p).

(** A map between two types of elements, on the pairs of the list. *)
Definition on_elements {E E'} (h : E -> E') : E * Z -> E' * Z :=
  fun c => (h c.1, c.2).

(** The pending list a block starts with: one leaf for each line. *)
Definition line_leaves {E} (childrenElements : list (E * Z))
  : list (LineTree * Z) :=
  imap (fun k c => (LineNode (S k) [], c.2)) childrenElements.

(** Document order among siblings at every depth: the children of every
    node are in the order of their lines. *)
Fixpoint in_document_order (t : LineTree) : Prop :=
  match t with
  | LineNode _ ks =>
      StronglySorted lt (List.map line ks)
      /\ foldr (fun k acc => in_document_order k /\ acc) True ks
  end.

(** The lines of a tree, the root first, and the lines of a main tree
    and a pending list. *)
Fixpoint lines_of (t : LineTree) : list nat :=
  match t with
  | LineNode i ks => i :: concat (List.map lines_of ks)
  end.

Definition pending_lines (M : LineTree) (L : list (LineTree * Z))
  : list nat :=
  lines_of M ++ concat ((fun c => lines_of c.1) <$> L).

(** No line of a block skips a level: a line is at level 1, or some line
    before it in the block is one level above it. [seen] holds the levels
    of the lines already passed. *)
Fixpoint no_skipped_level_from (seen levels : list Z) : bool :=
  match levels with
  | [] => true
  | k :: rest =>
      ((k =? 1)%Z || bool_decide ((k - 1)%Z ∈ seen))
      && no_skipped_level_from (k :: seen) rest
  end.

Definition no_skipped_level (levels : list Z) : Prop :=
  no_skipped_level_from [] levels = true.

(** The same, on every prefix of the list of levels. *)
Definition wf_levels (levels : list Z) : Prop :=
  forall l1 k l2, levels = l1 ++ k :: l2 -> k = 1%Z \/ (k - 1)%Z ∈ l1.

Definition roots (L : list (LineTree * Z)) : list nat :=
  (fun c => line c.1) <$> L.

(** What the loop keeps true of the main tree [M] and the pending list
    [L] when no line skips a level: the pending lines are in the order of
    the document, what has been attached is in document order, and a
    pending line that will go under a node comes before the children the
    node already has. *)
Record order_invariant (M : LineTree) (L : list (LineTree * Z)) : Prop := {
  inv_levels : wf_levels (L.*2);
  inv_roots : StronglySorted lt (roots L);
  inv_pending : Forall (fun c => in_document_order c.1) L;
  inv_kids : forall c k e,
    c ∈ L -> k ∈ kids c.1 -> e ∈ L -> e.2 = (c.2 + 1)%Z ->
    (line e.1 < line k)%nat;
  inv_main : in_document_order M;
  inv_main_kids : forall k e,
    k ∈ kids M -> e ∈ L -> (line e.1 < line k)%nat
}.

Section Materialize.
Context {Callback Options : Type}.
Abbreviation DOMElement := (@Element Callback Options).

Definition with_childNodes (e : DOMElement) (nodes : list Node)
  : DOMElement :=
  let (t, cl, i, a, l, _) := e in mkElement t cl i a l nodes.

(** The element a line tree stands for, [element_of i] being the element
    created from line [i]: the subtrees of its children, in their
    order, come before the child nodes the element was created with. *)
Fixpoint materialize (element_of : nat -> DOMElement) (t : LineTree)
  : DOMElement :=
  match t with
  | LineNode i ks =>
      with_childNodes (element_of i)
        (List.map (fun k => ElementNode (materialize element_of k)) ks
           ++ childNodes (element_of i))
  end.

Definition element_of_line (mainElement : DOMElement)
  (childrenElements : list (DOMElement * Z)) (i : nat) : DOMElement :=
  match i with
  | O => mainElement
  | S k => default mainElement (fst <$> childrenElements !! k)
  end.
End Materialize.

(** ** A builder for the examples

    Callbacks are named by numbers, there are no options, and the texts
    of the examples have no entity to decode. *)

Definition no_entities (content : jsstring) : jsstring := content.

Definition body : @Element nat unit := new_element (lit "body").

Definition builder0 : @HTMLBuilder nat unit := new_HTMLBuilder body.

(** [lines.join("\n")] of literals. *)
Definition template_of (lines : list string) : jsstring :=
  join_lines (lit <$> lines).

(** An element with a tag and child nodes, and nothing else. *)
Definition plain (tag : string) (inner : list Node) : @Element nat unit :=
  mkElement (lit tag) [] [] [] [] inner.

(** An element with one text in it, after the child elements [inner]. *)
Definition with_text (tag text : string) (inner : list (@Element nat unit))
  : @Element nat unit :=
  plain tag ((ElementNode <$> inner) ++ [TextNode (lit text)]).

(** A binding with a name, a type and a callback. *)
Definition binding (name type : string) : @Event nat unit :=
  mkEvent (Some (lit name)) (Some (lit type)) (Some 0%nat) None.

(** A binding without a callback. *)
Definition binding_without_callback (name type : string) : @Event nat unit :=
  mkEvent (Some (lit name)) (Some (lit type)) None None.

(** ** Nesting

    The level of a line of a block, by the index that the line trees give
    it: 0 is the main line, which is at level 0, and [k + 1] is the line
    of index [k] of the block. *)

Definition level_of (levels : list Z) (i : nat) : Z :=
  match i with
  | O => 0%Z
  | S k => default 0%Z (levels !! k)
  end.

(** Line [j] is where line [k] belongs: [j] comes before [k], no line
    between the two is one level above [k], and [j] is one level above
    [k], or else is the main line. *)
Definition nearest_parent (levels : list Z) (j k : nat) : Prop :=
  (j < k)%nat
  /\ (level_of levels j = (level_of levels k - 1)%Z \/ j = 0%nat)
  /\ forall i, (j < i < k)%nat ->
               level_of levels i ≠ (level_of levels k - 1)%Z.

(** Every node of the tree is under the line where it belongs. *)
Fixpoint attached_to_nearest (levels : list Z) (t : LineTree) : Prop :=
  match t with
  | LineNode j ks =>
      foldr (fun k acc =>
               (nearest_parent levels j (line k)
                /\ attached_to_nearest levels k) /\ acc)
        True ks
  end.

(** The line and the level of each pending element. *)
Definition signature (L : list (LineTree * Z)) : list (nat * Z) :=
  (fun c => (line c.1, c.2)) <$> L.

(** What the loop keeps true of the lines and levels [T] of the pending
    list: they are in the order of the block, the level of each is the
    level of its line, and a line that is no longer pending is at least
    as deep as every pending one. *)
Definition tracked (levels : list Z) (T : list (nat * Z)) : Prop :=
  StronglySorted lt (T.*1)
  /\ Forall (fun s => (1 <= s.1 <= length levels)%nat
                      /\ s.2 = level_of levels s.1) T
  /\ forall i, (1 <= i <= length levels)%nat ->
               i ∈ T.*1 \/ Forall (fun s => (s.2 <= level_of levels i)%Z) T.

Record nesting_invariant (levels : list Z) (M : LineTree)
  (L : list (LineTree * Z)) : Prop := {
  nest_tracked : tracked levels (signature L);
  nest_pending : Forall (fun c => attached_to_nearest levels c.1) L;
  nest_main_line : line M = 0%nat;
  nest_main : attached_to_nearest levels M
}.

(** ** Blocks

    What [generate] works on, said without indices: a main line and the
    lines under it, up to the next main line. [blocks lines] is the lines
    that come before the first main line, which [generate] never reads,
    and the blocks, in their order. *)

Fixpoint blocks (lines : list jsstring)
  : list jsstring * list (jsstring * list jsstring) :=
  match lines with
  | [] => ([], [])
  | line :: rest =>
      let (under, others) := blocks rest in
      if (_level line =? 0)%Z then ([], (line, under) :: others)
      else (line :: under, others)
  end.

(** How a loop over [outcomes] ends when it stops at the first one that
    is not normal. *)
Fixpoint first_failure {A} (outcomes : list (completion A))
  : completion unit :=
  match outcomes with
  | [] => Normal ()
  | Normal _ :: rest => first_failure rest
  | Throw e :: _ => Throw e
  | OutOfFuel :: _ => OutOfFuel
  end.

Section Blocks.
Context {Callback Options : Type}.
Variable _decodeHTMLEntities : jsstring -> jsstring.

(** The body of the loop of [generate] over the main lines, up to the
    call of [appendChild]: the main element, the elements of the lines
    under it and the tree-reconstruction loop. *)
Definition build (this : @HTMLBuilder Callback Options)
  (mainLine : jsstring) (block : list jsstring)
  : completion (@Element Callback Options) :=
  mainElement ← _createElementFromLine _decodeHTMLEntities this mainLine;
  childrenElements ← create_children _decodeHTMLEntities this block;
  reconstruct prepend (length childrenElements) mainElement
    childrenElements.

(** The loop of [generate] over the main lines, block by block. *)
Fixpoint generate_blocks (this : @HTMLBuilder Callback Options)
  (bs : list (jsstring * list jsstring))
  : completion unit * @HTMLBuilder Callback Options :=
  match bs with
  | [] => (Normal (), this)
  | (mainLine, block) :: rest =>
      match build this mainLine block with
      | Normal mainElement =>
          generate_blocks (parent_appendChild this mainElement) rest
      | Throw e => (Throw e, this)
      | OutOfFuel => (OutOfFuel, this)
      end
  end.
End Blocks.

(** ** Line descriptors

    A line written as the syntax of the builder has it,
    [tag.class.class#id(content)[attributes]@events], from its parts. A
    part that is absent is [None], or an empty list; the attributes are
    the text between the brackets, and there is one entry of [d_events]
    for every [@]. *)

Definition DOT : char := 46.
Definition HASH : char := 35.
Definition LPAREN : char := 40.
Definition RPAREN : char := 41.
Definition LBRACKET : char := 91.
Definition RBRACKET : char := 93.
Definition AT : char := 64.

Record Descriptor := mkDescriptor {
  d_tag : jsstring;
  d_classes : list jsstring;
  d_id : option jsstring;
  d_content : option jsstring;
  d_attributes : option jsstring;
  d_events : list jsstring
}.

Definition print (d : Descriptor) : jsstring :=
  d_tag d
    ++ concat (cons DOT <$> d_classes d)
    ++ from_option (cons HASH) [] (d_id d)
    ++ from_option (fun c => LPAREN :: c ++ [RPAREN]) [] (d_content d)
    ++ from_option (fun a => LBRACKET :: a ++ [RBRACKET]) [] (d_attributes d)
    ++ concat (cons AT <$> d_events d).

(** The parts are made of the characters that the regular expression
    allows in them: word characters in the tag; word characters and [-]
    in a class and in the id; anything but a line terminator in the
    content and in the attributes, the attributes having no [)] when
    there is a content before them; word characters, [;] and [-] in the
    events. *)
Definition well_formed (d : Descriptor) : bool :=
  nonempty (d_tag d) && forallb is_word (d_tag d)
  && forallb (forallb (word_or "-")) (d_classes d)
  && from_option (forallb (word_or "-")) true (d_id d)
  && from_option (forallb is_dot) true (d_content d)
  && from_option
       (fun a =>
          forallb is_dot a
          && match d_content d with
             | Some _ => forallb (fun c => negb (c =? RPAREN)) a
             | None => true
             end)
       true (d_attributes d)
  && forallb (forallb (word_or ";-")) (d_events d).

(** A line with every part, [li.a.b#x(t(1))[k=v]@c@d], for the examples. *)
Definition full_line : Descriptor :=
  mkDescriptor (lit "li") [lit "a"; lit "b"] (Some (lit "x"))
    (Some (lit "t(1)")) (Some (lit "k=v")) [lit "c"; lit "d"].

(** ** Captures *)

(** The captures after a group that has taken part in the match, or has
    not. *)
Definition capture (i : nat) (v : option jsstring) (caps : captures)
  : captures :=
  match v with
  | Some s => <[i := Some s]> caps
  | None => caps
  end.

(** The input does not go on with a code unit of the class [p]. *)
Definition stops (p : char -> bool) (s : jsstring) : bool :=
  match s with
  | c :: _ => negb (p c)
  | [] => true
  end.

(** * ContextMenu: the templates of a menu

    The class [ContextMenu] of the repository, as far as it builds the
    menu: [_rand], [_buildItem] and [_build] up to the call of
    [clearEvents].

    Modelling choices.
    - [Math.random] is outside the model: the integers that the calls of
      [_rand] draw are given, call after call, by [random].
    - The callbacks that [_buildItem] binds are closures over the menu;
      they are named by what they do, [ItemClick onclick] for the one
      that calls [onclick] and closes the menu and [OpenChildren] for the
      one that calls [_openChildren].
    - What [_build] does after [clearEvents], reading the menu back from
      the document and placing it by the geometry of the window, and the
      methods that only query or change the document ([_getMenu],
      [closeCurrentMenu], [_closeAllMenus], [_openChildren]) are not
      modelled.
    - A template literal that runs over several lines of the source is
      written as these lines, joined by line feeds.
    - An item is a value. [child.children = undefined], which the loop
      over the children does before it builds a child, is the flag [cut]
      of [_buildItem]; what the assignment does to an object that is
      listed twice is not covered. *)

(** A text with no white space at its ends. *)
Definition clean (text : jsstring) : Prop := trim text = text /\ text ≠ [].

Module ContextMenu.
Section ContextMenu.
Context {UserCallback Options : Type}.
Variable _decodeHTMLEntities : jsstring -> jsstring.
Variable random : nat -> N.

Inductive Callback :=
| ItemClick (onclick : UserCallback)
| OpenChildren.

(** An item as the caller gives it; a property that is absent is
    [None], and [separator] is its truth value. *)
#[warnings="-register-all"] Inductive Item :=
  mkItem (title shortcut icon : option jsstring)
    (onclick : option UserCallback) (separator : bool)
    (children : option (list Item)).

Definition title (item : Item) := let (t, _, _, _, _, _) := item in t.
Definition shortcut (item : Item) := let (_, s, _, _, _, _) := item in s.
Definition icon (item : Item) := let (_, _, i, _, _, _) := item in i.
Definition onclick (item : Item) := let (_, _, _, o, _, _) := item in o.
Definition separator (item : Item) := let (_, _, _, _, s, _) := item in s.
Definition children (item : Item) := let (_, _, _, _, _, c) := item in c.

(** The menu: its builder, the number of calls of [_rand] so far and
    [menuid]. *)
Record Menu := mkMenu {
  builder : @HTMLBuilder Callback Options;
  calls : nat;
  menuid : option jsstring
}.

Definition arrow_down : jsstring := [9660].
Definition arrow_up : jsstring := [9650].

(** [string + number], for a number that is a natural number. *)
Definition toString (n : N) : jsstring :=
  lit (NilZero.string_of_uint (N.to_uint n)).

Definition spaces (n : nat) : jsstring := replicate n 32.
Definition tabs (n : nat) : jsstring := replicate n 9.

(** [this._rand(min, max)] for integers [min < max]; the call number
    [calls] of [Math.random] gives the integer [random calls], which
    is cut down to the range. *)
Definition _rand (this : Menu) (min max : N) : N * Menu :=
  (min + random (calls this) mod (max - min),
   mkMenu (builder this) (S (calls this)) (menuid this)).

(** [this.builder.bindEvent({name, type: "click", callback})] *)
Definition bind (this : Menu) (name : jsstring) (callback : Callback)
  : completion unit * Menu :=
  let (outcome, builder') :=
    bindEvent (builder this)
      (mkEvent (Some name) (Some (lit "click")) (Some callback) None) in
  (outcome, mkMenu builder' (calls this) (menuid this)).

(** The loop over the items in [_build], with an indentation of 2, and
    the loop over the children in [_buildItem], with an indentation of
    3: [build] is [_buildItem], called on a child once its children are
    set to [undefined]. *)
Definition append_items
  (build : Menu -> Item -> completion jsstring * Menu) (indentation : nat)
  : list Item -> Menu -> jsstring -> completion jsstring * Menu :=
  fix loop items this template :=
    match items with
    | [] => (Normal template, this)
    | item :: rest =>
        if separator item then
          loop rest this
            (template
               ++ indentTemplate (lit "div.contextmenu-separator")
                    indentation
               ++ [LF])
        else
          match build this item with
          | (Normal item_template, this) =>
              loop rest this
                (template ++ indentTemplate item_template indentation
                   ++ [LF])
          | (Throw e, this) => (Throw e, this)
          | (OutOfFuel, this) => (OutOfFuel, this)
          end
    end.

Definition icon_line (icon : option jsstring) : jsstring :=
  from_option (fun i => lit ">>>img[src=" ++ i ++ lit "]") [] icon.

Definition shortcut_line (shortcut : option jsstring) : jsstring :=
  from_option (fun s => lit ">>span.contextmenu-shortcut(" ++ s ++ lit ")")
    [] shortcut.

(** The template of an item with children, before the children. *)
Definition complex_template (event_name : jsstring)
  (icon : option jsstring) (title : jsstring) : jsstring :=
  join_lines
    [ [];
      spaces 16 ++ lit "li" ++ (lit "@" ++ event_name);
      spaces 20 ++ lit ">div.contextmenu-item";
      tabs 6 ++ lit ">>div.contextmenu-container-title";
      tabs 7 ++ icon_line icon;
      tabs 7 ++ lit ">>>span.contextmenu-title(" ++ title ++ lit ")";
      tabs 6 ++ lit ">>span.contextmenu-arrow(" ++ arrow_down ++ lit ")";
      tabs 5
        ++ lit ">div.contextmenu-container-children.contextmenu-hidden";
      tabs 6 ++ lit ">>ul";
      spaces 12 ].

(** The template of an item without children. *)
Definition simple_template (event_name : jsstring)
  (icon : option jsstring) (title : jsstring) (shortcut : option jsstring)
  : jsstring :=
  join_lines
    [ [];
      spaces 16 ++ lit "li" ++ (lit "@" ++ event_name);
      spaces 20 ++ lit ">div.contextmenu-item";
      tabs 6 ++ lit ">>div.contextmenu-container-title";
      tabs 7 ++ icon_line icon;
      tabs 7 ++ lit ">>>span.contextmenu-title(" ++ title ++ lit ")";
      tabs 6 ++ shortcut_line shortcut ++ [LF];
      spaces 12 ].

(** The lines of the template of an item without children, as they are
    written in the template. *)
Definition leaf_lines (event_name : jsstring) (icon : option jsstring)
  (title : jsstring) (shortcut : option jsstring) : list jsstring :=
  [ lit "li@" ++ event_name;
    lit ">div.contextmenu-item";
    lit ">>div.contextmenu-container-title" ]
    ++ from_option (fun i => [lit ">>>img[src=" ++ i ++ lit "]"]) [] icon
    ++ [ lit ">>>span.contextmenu-title(" ++ title ++ lit ")" ]
    ++ from_option
         (fun s => [lit ">>span.contextmenu-shortcut(" ++ s ++ lit ")"])
         [] shortcut.

(** The name under which [_buildItem] binds the click on an item
    without children, when its call of [_rand] is the call number
    [calls]. *)
Definition item_event_name (calls : nat) (item : Item) : jsstring :=
  match onclick item with
  | Some _ => lit "eventitem-" ++ toString (random calls mod 1000000)
  | None => []
  end.

(** The lines of the template of an item with children, before the
    lines of the children. *)
Definition parent_lines (event_name : jsstring) (icon : option jsstring)
  (title : jsstring) : list jsstring :=
  [ lit "li@" ++ event_name;
    lit ">div.contextmenu-item";
    lit ">>div.contextmenu-container-title" ]
    ++ from_option (fun i => [lit ">>>img[src=" ++ i ++ lit "]"]) [] icon
    ++ [ lit ">>>span.contextmenu-title(" ++ title ++ lit ")";
         lit ">>span.contextmenu-arrow(" ++ arrow_down ++ lit ")";
         lit ">div.contextmenu-container-children.contextmenu-hidden";
         lit ">>ul" ].

(** The lines of the children of an item, one child after the other:
    the line of a separator, or the lines of an item without children,
    whatever children the child has. [calls] is the number of calls of
    [_rand] before the child. *)
Fixpoint children_lines (calls : nat) (children : list Item)
  : list jsstring :=
  match children with
  | [] => []
  | child :: rest =>
      if separator child then
        lit "div.contextmenu-separator" :: children_lines calls rest
      else
        leaf_lines (item_event_name calls child) (truthy (icon child))
          (default [] (title child)) (truthy (shortcut child))
          ++ children_lines
               match onclick child with
               | Some _ => S calls
               | None => calls
               end
               rest
  end.

(** [_buildItem(item)] is [_buildItem false this item]; with [cut],
    the item is one whose [children] have been set to [undefined] by
    the loop over the children of its parent. *)
Fixpoint _buildItem (cut : bool) (this : Menu) (item : Item) {struct item}
  : completion jsstring * Menu :=
  match item with
  | mkItem title0 shortcut0 icon0 onclick0 _ children0 =>
      let icon := truthy icon0 in
      let title := default [] title0 in
      let shortcut := truthy shortcut0 in
      let has_children :=
        match cut, children0 with
        | false, Some _ => true
        | _, _ => false
        end in
      let '(outcome, event_name, this) :=
        match has_children, onclick0 with
        | false, Some onclick =>
            let (n, this) := _rand this 0 1000000 in
            let event_name := lit "eventitem-" ++ toString n in
            let (outcome, this) :=
              bind this event_name (ItemClick onclick) in
            (outcome, event_name, this)
        | true, _ =>
            let (n, this) := _rand this 0 1000000 in
            let event_name := lit "openchildren-" ++ toString n in
            let (outcome, this) := bind this event_name OpenChildren in
            (outcome, event_name, this)
        | false, None => (Normal (), [], this)
        end in
      match outcome with
      | Normal _ =>
          match cut, children0 with
          | false, Some children =>
              append_items (_buildItem true) 3%nat children this
                (complex_template event_name icon title)
          | _, _ =>
              (Normal (simple_template event_name icon title shortcut),
               this)
          end
      | Throw e => (Throw e, this)
      | OutOfFuel => (OutOfFuel, this)
      end
  end.

(** The template that [_build] gives to [generate]. *)
Definition menu_header (id : jsstring) : jsstring :=
  join_lines
    [ [];
      spaces 12 ++ lit "div.contextmenu#" ++ id;
      spaces 16 ++ lit ">ul";
      spaces 8 ].

(** [_build(event, items)], up to [this.menuid = id]; the event is
    used after that only. When [generate] throws, [clearEvents] is not
    reached. *)
Definition _build (this : Menu) (items : list Item)
  : completion unit * Menu :=
  let (n, this) := _rand this 0 1000000 in
  let id := lit "contextmenu-" ++ toString n in
  match append_items (_buildItem false) 2%nat items this (menu_header id) with
  | (Normal template, this) =>
      match generate _decodeHTMLEntities (builder this) template with
      | (Normal _, builder') =>
          (Normal (), mkMenu (clearEvents builder') (calls this) (Some id))
      | (Throw e, builder') =>
          (Throw e, mkMenu builder' (calls this) (menuid this))
      | (OutOfFuel, builder') =>
          (OutOfFuel, mkMenu builder' (calls this) (menuid this))
      end
  | (Throw e, this) => (Throw e, this)
  | (OutOfFuel, this) => (OutOfFuel, this)
  end.

(** [new ContextMenu(event, items)], as far as the builder goes: a new
    builder on [document.body], and [_build]. [body] is the body once
    [_closeAllMenus] has removed the menus that were open; the handler
    that the constructor then sets on [document.onclick] is not
    modelled. *)
Definition new_ContextMenu (body : @Element Callback Options)
  (items : list Item) : completion unit * Menu :=
  _build (mkMenu (new_HTMLBuilder body) 0 None) items.

(** *** What the templates are rendered as *)

(** The listeners that a line with the event name gets from the
    builder; an empty name is not looked up. *)
Definition listeners_of (this : @HTMLBuilder Callback Options)
  (event_name : jsstring) : list (@Listener Callback Options) :=
  match event_name with
  | [] => []
  | _ :: _ =>
      match _searchForEvent this event_name with
      | Some event => [(type event, callback event, options event)]
      | None => []
      end
  end.

Definition text_nodes (content : jsstring)
  : list (@Node Callback Options) :=
  match content with
  | [] => []
  | _ :: _ => [TextNode (_decodeHTMLEntities content)]
  end.

(** The [img] of an icon: its [src] is the icon without the white
    space at its end, which [_createElementFromLine] trims. *)
Definition image (src : jsstring) : @Element Callback Options :=
  mkElement (lit "img") [] [] [(lit "src", trimEnd src)] [] [].

Definition span (class : string) (content : jsstring)
  : @Element Callback Options :=
  mkElement (lit "span") [lit class] [] [] [] (text_nodes content).

(** The elements of the lines of an item without children, with their
    levels, under an indentation of [n]. *)
Definition leaf_elements (n : Z)
  (listeners : list (@Listener Callback Options))
  (icon : option jsstring) (title : jsstring) (shortcut : option jsstring)
  : list (@Element Callback Options * Z) :=
  [ (mkElement (lit "li") [] [] [] listeners [], n);
    (mkElement (lit "div") [lit "contextmenu-item"] [] [] [] [], n + 1);
    (mkElement (lit "div") [lit "contextmenu-container-title"] [] [] [] [],
     n + 2) ]%Z
    ++ from_option (fun i => [(image i, n + 3)%Z]) [] icon
    ++ [ (span "contextmenu-title" title, n + 3)%Z ]
    ++ from_option
         (fun s => [(span "contextmenu-shortcut" s, n + 2)%Z]) [] shortcut.

(** The [li] of an item without children. *)
Definition rendered_leaf (listeners : list (@Listener Callback Options))
  (icon : option jsstring) (title : jsstring) (shortcut : option jsstring)
  : @Element Callback Options :=
  mkElement (lit "li") [] [] [] listeners
    [ ElementNode
        (mkElement (lit "div") [lit "contextmenu-item"] [] [] []
           (ElementNode
              (mkElement (lit "div") [lit "contextmenu-container-title"]
                 [] [] []
                 (from_option (fun i => [ElementNode (image i)]) [] icon
                    ++ [ElementNode (span "contextmenu-title" title)]))
              :: from_option
                   (fun s =>
                      [ElementNode (span "contextmenu-shortcut" s)])
                   [] shortcut)) ].

(** The menu: [div.contextmenu#id > ul > items]. *)
Definition rendered_menu (id : jsstring)
  (items : list (@Element Callback Options)) : @Element Callback Options :=
  mkElement (lit "div") [lit "contextmenu"] id [] []
    [ ElementNode
        (mkElement (lit "ul") [] [] [] [] (ElementNode <$> items)) ].
End ContextMenu.
End ContextMenu.

(** Items and a menu for the examples: [Copy] with a shortcut, [Paste]
    with an icon, a separator, and [Edit] with the three as its
    children. Every call of [_rand] returns 7. *)
Definition copy_item : @ContextMenu.Item nat :=
  ContextMenu.mkItem (Some (lit "Copy")) (Some (lit "Ctrl+C")) None
    (Some 1%nat) false None.

Definition paste_item : @ContextMenu.Item nat :=
  ContextMenu.mkItem (Some (lit "Paste")) None (Some (lit "paste.png"))
    (Some 2%nat) false None.

Definition separator_item : @ContextMenu.Item nat :=
  ContextMenu.mkItem None None None None true None.

Definition edit_item : @ContextMenu.Item nat :=
  ContextMenu.mkItem (Some (lit "Edit")) None None None false
    (Some [copy_item; separator_item; paste_item]).

Definition always_seven (call : nat) : N := 7.

Definition menu_body : @Element (@ContextMenu.Callback nat) unit :=
  new_element (lit "body").

Definition menu0 : @ContextMenu.Menu nat unit :=
  ContextMenu.mkMenu (new_HTMLBuilder menu_body) 0 None.
(** ** The registry, with the event objects shared

    [bindEvent] writes the stripped name into the object that it is
    given, [event.name = event.name.replace("on", "")], and pushes that
    same object: [EVENTS] holds references. [bindEvent] above takes the
    event by value; here the event objects live in a store, an object is
    named by its address in the store, and the registry is the list of
    the addresses that were pushed, so that an object that is bound
    twice is one object, listed twice. An address with no object stands
    for a value that is no object, on which [event.name] raises a
    [TypeError]. *)

Section SharedEvents.
Context {Callback Options : Type}.

Record SharedRegistry := mkSharedRegistry {
  objects : list (@Event Callback Options);
  addresses : list nat
}.

(** [event.name = name] *)
Definition rename (name : jsstring) (event : @Event Callback Options)
  : @Event Callback Options :=
  mkEvent (Some name) (type event) (callback event) (options event).

(** [this.bindEvent(event)], for the object [event] at [address]. *)
Definition bindEvent_object (this : SharedRegistry) (address : nat)
  : completion unit * SharedRegistry :=
  match objects this !! address with
  | None => (Throw TypeError, this)
  | Some event =>
      if missing (name event) then
        (Throw
           (Error (lit "bindEvent(): cannot bind an event without a name.")),
         this)
      else if missing (type event) then
        (Throw
           (Error
              (lit "bindEvent(): cannot bind an event without a precise type.")),
         this)
      else
        match callback event with
        | None =>
            (Throw
               (Error
                  (lit "bindEvent(): cannot bind an event without a callback function.")),
             this)
        | Some _ =>
            let objects' :=
              match name event with
              | Some n =>
                  if startsWith n (lit "on")
                  then <[address := rename (remove_first (lit "on") n) event]>
                         (objects this)
                  else objects this
              | None => objects this
              end in
            (Normal (), mkSharedRegistry objects' (addresses this ++ [address]))
        end
  end.

(** The events that a loop over [EVENTS] meets, as they are at the
    time of the loop. *)
Definition events_of (this : SharedRegistry)
  : list (@Event Callback Options) :=
  omap (fun address => objects this !! address) (addresses this).
End SharedEvents.

(** * Properties *)

(** ** Strings *)

Lemma startsWith_app (p s : jsstring) : startsWith (p ++ s) p = true.
Proof.
  induction p as [|a p IH]; simpl; [by destruct s|].
  by rewrite N.eqb_refl.
Qed.

Lemma remove_first_unfold (p s : jsstring) :
  remove_first p s
  = if startsWith s p then drop (length p) s
    else match s with
         | [] => []
         | c :: s' => c :: remove_first p s'
         end.
Proof. by destruct s. Qed.

Lemma remove_first_app (p s : jsstring) : remove_first p (p ++ s) = s.
Proof.
  rewrite remove_first_unfold, startsWith_app. by rewrite drop_app_length.
Qed.

Lemma split_from_single x cur s :
  split_from [x] 0 cur s
  = match s with
    | [] => [cur]
    | c :: s' =>
        if (x =? c)%N then cur :: split_from [x] 0 [] s'
        else split_from [x] 0 (cur ++ [c]) s'
    end.
Proof.
  destruct s as [|c s]; [done|]. simpl.
  destruct (x =? c)%N; simpl; [|done]. by destruct s.
Qed.

Lemma includes_single x s :
  includes s [x] = existsb (N.eqb x) s.
Proof.
  induction s as [|c s IH]; [done|]. simpl. rewrite IH.
  destruct (x =? c)%N; simpl; [by destruct s|done].
Qed.

Lemma split_from_no_sep x cur a s :
  includes a [x] = false ->
  split_from [x] 0 cur (a ++ s) = split_from [x] 0 (cur ++ a) s.
Proof.
  rewrite includes_single. revert cur.
  induction a as [|c a IH]; intros cur Ha; simpl app.
  - by rewrite app_nil_r.
  - simpl in Ha. apply orb_false_iff in Ha as [Hc Ha].
    rewrite split_from_single, Hc, IH by done.
    by rewrite <- app_assoc.
Qed.

Section Trim.
Context {A : Type} (p : A -> bool).

Lemma dropWhile_idemp (l : list A) :
  dropWhile p (dropWhile p l) = dropWhile p l.
Proof.
  induction l as [|x l IH]; [done|]. simpl.
  destruct (p x) eqn:Hx; [done|]. simpl. by rewrite Hx.
Qed.

Lemma elem_of_dropWhile (l : list A) x : x ∈ dropWhile p l -> x ∈ l.
Proof.
  induction l as [|y l IH]; [done|]. simpl.
  destruct (p y); [|done]. intros H. right. by apply IH.
Qed.

Lemma dropWhile_app (l1 l2 : list A) :
  dropWhile p l1 ≠ [] -> dropWhile p (l1 ++ l2) = dropWhile p l1 ++ l2.
Proof.
  induction l1 as [|x l1 IH]; [done|]. simpl.
  destruct (p x); [apply IH|done].
Qed.

Lemma dropWhile_all (l1 l2 : list A) :
  dropWhile p l1 = [] -> dropWhile p (l1 ++ l2) = dropWhile p l2.
Proof.
  induction l1 as [|x l1 IH]; [done|]. simpl.
  destruct (p x); [apply IH|done].
Qed.
End Trim.

Lemma trimEnd_cons c s :
  is_whitespace c = false -> trimEnd (c :: s) = c :: trimEnd s.
Proof.
  intros Hc. unfold trimEnd. simpl.
  destruct (dropWhile is_whitespace (rev s)) as [|y l] eqn:Hd.
  - rewrite dropWhile_all by done. simpl. by rewrite Hc.
  - rewrite dropWhile_app by (by rewrite Hd). rewrite Hd.
    by rewrite rev_app_distr.
Qed.

Lemma trimEnd_idemp s : trimEnd (trimEnd s) = trimEnd s.
Proof. unfold trimEnd. by rewrite rev_involutive, dropWhile_idemp. Qed.

Lemma trimEnd_app a b :
  trimEnd b ≠ [] -> trimEnd (a ++ b) = a ++ trimEnd b.
Proof.
  unfold trimEnd. intros Hb. rewrite rev_app_distr.
  rewrite dropWhile_app.
  - by rewrite rev_app_distr, rev_involutive.
  - intros Heq. by rewrite Heq in Hb.
Qed.

Lemma trimEnd_line_feed y :
  trimEnd y = y -> trimEnd (y ++ [LF]) = y.
Proof.
  unfold trimEnd. intros Hy. rewrite rev_app_distr. simpl.
  change (is_whitespace LF) with true. cbv iota. exact Hy.
Qed.

Lemma trim_unfold s :
  trim s = match trimStart s with
           | [] => []
           | c :: rest => c :: trimEnd rest
           end.
Proof.
  unfold trim, trimStart.
  induction s as [|c s IH]; [done|]. simpl.
  destruct (is_whitespace c) eqn:Hc; [done|]. by apply trimEnd_cons.
Qed.

Lemma trim_cons c s :
  is_whitespace c = false -> trim (c :: s) = c :: trimEnd s.
Proof. intros Hc. rewrite trim_unfold. unfold trimStart. simpl. by rewrite Hc. Qed.

Lemma trimStart_head c rest s :
  trimStart s = c :: rest -> is_whitespace c = false.
Proof.
  unfold trimStart. induction s as [|x s IH]; [done|]. simpl.
  destruct (is_whitespace x) eqn:Hx; [done|]. by intros [= <- _].
Qed.

Lemma trimEnd_trim s : trimEnd (trim s) = trim s.
Proof. unfold trim. apply trimEnd_idemp. Qed.

Lemma trim_idemp s : trim (trim s) = trim s.
Proof.
  rewrite (trim_unfold s).
  destruct (trimStart s) as [|c rest] eqn:Hs; [done|].
  apply trimStart_head in Hs. rewrite trim_cons by done.
  by rewrite trimEnd_idemp.
Qed.

Lemma elem_of_rev_iff {A} (l : list A) x : x ∈ rev l <-> x ∈ l.
Proof. rewrite !list_elem_of_In. symmetry. apply in_rev. Qed.

Lemma elem_of_trim s (x : N) : x ∈ trim s -> x ∈ s.
Proof.
  unfold trim, trimEnd, trimStart. intros Hx.
  rewrite elem_of_rev_iff in Hx. apply elem_of_dropWhile in Hx.
  rewrite elem_of_rev_iff in Hx. by apply elem_of_dropWhile in Hx.
Qed.

(** A line of [indentTemplate]: [>] before a trimmed line. *)
Lemma trim_indented (n : nat) a :
  trim (replicate (S n) GT ++ trim a) = replicate (S n) GT ++ trim a.
Proof.
  simpl. rewrite trim_cons by done. f_equal.
  induction n as [|n IH]; simpl; [apply trimEnd_trim|].
  rewrite trimEnd_cons by done. by rewrite IH.
Qed.

(** ** The matcher *)

Lemma RepeatMatcher_total body gs k n :
  total k -> total (RepeatMatcher body gs k n).
Proof.
  intros Hk s caps. destruct n as [|n]; simpl; [apply Hk|].
  destruct (body _ _ _); [done|apply Hk].
Qed.

Lemma matcher_Seq r1 r2 k :
  matcher (Seq r1 r2) k = matcher r1 (matcher r2 k).
Proof. done. Qed.

Lemma matcher_Group i r k s caps :
  matcher (Group i r) k s caps
  = matcher r (fun s' caps' => k s' (<[i := Some (consumed s s')]> caps'))
      s caps.
Proof. done. Qed.

Lemma matcher_Chr_cons p k c s caps :
  matcher (Chr p) k (c :: s) caps = if p c then k s caps else None.
Proof. done. Qed.

Lemma matcher_Star_total r k : total k -> total (matcher (Star r) k).
Proof. intros Hk s caps. by apply RepeatMatcher_total. Qed.

Lemma matcher_Opt_total r k : total k -> total (matcher (Opt r) k).
Proof.
  intros Hk s caps. simpl. destruct (matcher r _ _ _); [done|apply Hk].
Qed.

(** The matcher calls its continuation on what remains of its input:
    two continuations that agree there give the same result. *)
Lemma RepeatMatcher_ext body gs k1 k2 :
  (forall k1 k2 s caps,
      (forall s' caps',
          (length s' <= length s)%nat -> k1 s' caps' = k2 s' caps') ->
      body k1 s caps = body k2 s caps) ->
  forall n s caps,
    (forall s' caps',
        (length s' <= length s)%nat -> k1 s' caps' = k2 s' caps') ->
    RepeatMatcher body gs k1 n s caps = RepeatMatcher body gs k2 n s caps.
Proof.
  intros Hbody. induction n as [|n IH]; intros s caps Hk; simpl.
  - by apply Hk.
  - rewrite (Hbody (progress s (RepeatMatcher body gs k1 n))
               (progress s (RepeatMatcher body gs k2 n))).
    + by rewrite (Hk s caps).
    + intros s' caps' Hs'. unfold progress.
      destruct (length s' <? length s)%nat; [|done].
      apply IH. intros s'' caps'' Hs''. apply Hk. lia.
Qed.

Lemma matcher_ext r :
  forall k1 k2 s caps,
    (forall s' caps',
        (length s' <= length s)%nat -> k1 s' caps' = k2 s' caps') ->
    matcher r k1 s caps = matcher r k2 s caps.
Proof.
  induction r as [p|r1 IH1 r2 IH2|r1 IH1|r1 IH1|j r1 IH1];
    intros k1 k2 s caps Hk; simpl.
  - destruct s as [|c s]; [done|]. destruct (p c); [|done].
    apply Hk. simpl. lia.
  - apply IH1. intros s' caps' Hs'. apply IH2.
    intros s'' caps'' Hs''. apply Hk. lia.
  - by apply RepeatMatcher_ext.
  - rewrite (IH1 (progress s k1) (progress s k2)).
    + by rewrite (Hk s caps).
    + intros s' caps' Hs'. unfold progress.
      destruct (length s' <? length s)%nat; [|done]. by apply Hk.
  - apply IH1. intros s' caps' Hs'. by apply Hk.
Qed.

(** The matcher ends by calling its continuation: when that always fails,
    so does the matcher. *)
Lemma matcher_None r s caps : matcher r (fun _ _ => None) s caps = None.
Proof.
  revert s caps.
  induction r as [p|r1 IH1 r2 IH2|r1 IH1|r1 IH1|j r1 IH1];
    intros s caps; simpl.
  - destruct s as [|c s]; [done|]. by destruct (p c).
  - rewrite (matcher_ext r1 _ (fun _ _ => None)); [apply IH1|].
    intros s' caps' _. apply IH2.
  - generalize (length s). intros n. revert s caps.
    induction n as [|n IHn]; intros s caps; simpl; [done|].
    rewrite (matcher_ext r1 _ (fun _ _ => None)); [by rewrite IH1|].
    intros s' caps' _. unfold progress.
    destruct (length s' <? length s)%nat; [apply IHn|done].
  - rewrite (matcher_ext r1 _ (fun _ _ => None)); [by rewrite IH1|].
    intros s' caps' _. unfold progress.
    by destruct (length s' <? length s)%nat.
  - apply IH1.
Qed.

(** The number of iterations that [RepeatMatcher] is allowed does not
    matter once it is the length of the input, and the quantifier is the
    greedy choice between one more iteration that consumes something,
    followed by the quantifier again, and the continuation. *)
Lemma RepeatMatcher_enough r k n m s caps :
  (length s <= n)%nat -> (length s <= m)%nat ->
  RepeatMatcher (matcher r) (groups r) k n s caps
  = RepeatMatcher (matcher r) (groups r) k m s caps.
Proof.
  assert (forall n s caps,
             length s = 0%nat ->
             RepeatMatcher (matcher r) (groups r) k n s caps = k s caps)
    as Hempty.
  { intros [|n'] s' caps' Hs'; simpl; [done|].
    rewrite (matcher_ext r _ (fun _ _ => None)); [by rewrite matcher_None|].
    intros s'' caps'' _. unfold progress. rewrite Hs'.
    by destruct (length s''). }
  revert m s caps. induction n as [|n IH]; intros m s caps Hn Hm.
  - rewrite !Hempty by lia. done.
  - destruct m as [|m]; [rewrite !Hempty by lia; done|]. simpl.
    rewrite (matcher_ext r
               (progress s (RepeatMatcher (matcher r) (groups r) k n))
               (progress s (RepeatMatcher (matcher r) (groups r) k m)));
      [done|].
    intros s' caps' _. unfold progress.
    destruct (Nat.ltb_spec (length s') (length s)); [|done].
    apply IH; lia.
Qed.

Lemma matcher_Star_unfold r k s caps :
  matcher (Star r) k s caps
  = match matcher r (progress s (matcher (Star r) k)) s
            (clear (groups r) caps) with
    | Some res => Some res
    | None => k s caps
    end.
Proof.
  cbn [matcher]. destruct (length s) as [|n] eqn:Hlen.
  - simpl. rewrite (matcher_ext r _ (fun _ _ => None));
      [by rewrite matcher_None|].
    intros s' caps' _. unfold progress. rewrite Hlen.
    by destruct (length s').
  - simpl.
    rewrite (matcher_ext r
               (progress s (RepeatMatcher (matcher r) (groups r) k n))
               (progress s (matcher (Star r) k))); [done|].
    intros s' caps' _. unfold progress. rewrite Hlen.
    destruct (Nat.ltb_spec (length s') (S n)); [|done].
    cbn [matcher]. apply RepeatMatcher_enough; lia.
Qed.

(** A starred class with a continuation that cannot fail takes the
    longest run of code units of the class. *)
Lemma RepeatMatcher_Chr p k n s caps :
  total k -> (length s <= n)%nat ->
  RepeatMatcher (matcher (Chr p)) [] k n s caps = k (dropWhile p s) caps.
Proof.
  intros Hk. revert s. induction n as [|n IH]; intros s Hn.
  - destruct s; [done|simpl in Hn; lia].
  - destruct s as [|c s]; [done|]. simpl.
    destruct (p c); [|done].
    unfold progress. rewrite (proj2 (Nat.ltb_lt _ _)) by (simpl; lia).
    rewrite IH by (simpl in Hn; lia).
    by destruct (Hk (dropWhile p s) caps) as [res ->].
Qed.

Lemma matcher_Star_Chr p k s caps :
  total k -> matcher (Star (Chr p)) k s caps = k (dropWhile p s) caps.
Proof. intros Hk. by apply RepeatMatcher_Chr. Qed.

Lemma lookup_clear gs caps (i : nat) :
  i ∉ gs -> clear gs caps !! i = caps !! i.
Proof.
  unfold clear. induction gs as [|g gs IH]; intros Hi; [done|]. simpl.
  apply not_elem_of_cons in Hi as [Hne Hi].
  rewrite list_lookup_insert_ne by done. by apply IH.
Qed.

(** A capture is what it was before a regular expression that does not
    have its group: whatever holds of the results of the continuation
    when it is given this capture holds of the result of the matcher. *)
Lemma matcher_frame (i : nat) (v : option (option jsstring))
  (P : captures -> Prop) r :
  i ∉ groups r ->
  forall k s caps res,
    (forall s' caps' res',
        caps' !! i = v -> k s' caps' = Some res' -> P res') ->
    caps !! i = v ->
    matcher r k s caps = Some res -> P res.
Proof.
  induction r as [p|r1 IH1 r2 IH2|r1 IH1|r1 IH1|j r1 IH1];
    intros Hi k s caps res Hk Hcaps; simpl.
  - destruct s as [|c s]; [done|]. destruct (p c); [|done]. by apply Hk.
  - simpl in Hi. apply not_elem_of_app in Hi as [Hi1 Hi2].
    apply IH1; [done| |done]. intros s' caps' res' Hcaps'.
    by apply IH2.
  - assert (forall n s caps res,
               caps !! i = v ->
               RepeatMatcher (matcher r1) (groups r1) k n s caps = Some res ->
               P res) as Hloop; [|by apply Hloop].
    clear s caps res Hcaps.
    induction n as [|n IHn]; intros s caps res Hcaps; simpl; [by apply Hk|].
    destruct (matcher r1 _ _ _) as [res0|] eqn:Hbody.
    + intros [= <-]. revert Hbody. apply IH1; [done| |].
      * intros s' caps' res' Hcaps'. unfold progress.
        destruct (_ <? _)%nat; [|done]. by apply IHn.
      * by rewrite lookup_clear.
    + by apply Hk.
  - destruct (matcher r1 _ _ _) as [res0|] eqn:Hbody.
    + intros [= <-]. revert Hbody. apply IH1; [done| |].
      * intros s' caps' res' Hcaps'. unfold progress.
        destruct (_ <? _)%nat; [|done]. by apply Hk.
      * by rewrite lookup_clear.
    + by apply Hk.
  - simpl in Hi. apply not_elem_of_cons in Hi as [Hne Hi].
    apply IH1; [done| |done]. intros s' caps' res' Hcaps'.
    apply Hk. by rewrite list_lookup_insert_ne.
Qed.

Lemma take_dropWhile {A} (p : A -> bool) (l : list A) :
  take (length l - length (dropWhile p l)) l = takeWhile p l.
Proof.
  induction l as [|x l IH]; [done|]. simpl.
  destruct (p x).
  - assert (length (dropWhile p l) <= length l)%nat as Hle.
    { clear. induction l as [|y l IH]; simpl; [done|].
      destruct (p y); simpl; lia. }
    replace (S (length l) - length (dropWhile p l))%nat
      with (S (length l - length (dropWhile p l))) by lia.
    simpl. by rewrite IH.
  - by rewrite Nat.sub_diag.
Qed.

Lemma after_tag_total k : total k -> total (matcher (after_tag REGEX) k).
Proof.
  intros Hk. unfold REGEX. cbn [after_tag]. rewrite !matcher_Seq.
  apply matcher_Star_total, matcher_Opt_total, matcher_Opt_total,
    matcher_Opt_total, matcher_Star_total, Hk.
Qed.

(** Where the line has no word character before a position, no match
    starts; at the first word character, the match starts and the first
    group is the run of word characters there. *)
Lemma exec_REGEX_no_word line :
  forallb (fun c => negb (is_word c)) line = true ->
  exec REGEX line = None.
Proof.
  change (exec REGEX line) with (exec_from 7 REGEX line).
  induction line as [|c line IH]; intros Hall; [done|].
  simpl in Hall. apply andb_true_iff in Hall as [Hc Hall].
  apply negb_true_iff in Hc.
  cbn [exec_from]. rewrite (IH Hall).
  unfold REGEX, Plus.
  by rewrite matcher_Group, matcher_Seq, matcher_Group, matcher_Seq,
    matcher_Chr_cons, Hc.
Qed.

Lemma length_dropWhile {A} (p : A -> bool) (l : list A) :
  (length (dropWhile p l) <= length l)%nat.
Proof.
  induction l as [|y l IH]; simpl; [done|]. destruct (p y); simpl; lia.
Qed.

Lemma consumed_run c rest :
  consumed (c :: rest) (dropWhile is_word rest)
  = c :: takeWhile is_word rest.
Proof.
  unfold consumed. pose proof (length_dropWhile is_word rest).
  replace (length (c :: rest) - length (dropWhile is_word rest))%nat
    with (S (length rest - length (dropWhile is_word rest)))
    by (simpl; lia).
  simpl. by rewrite take_dropWhile.
Qed.

Lemma matcher_REGEX_at_word k c rest caps :
  is_word c = true -> total k ->
  matcher REGEX k (c :: rest) caps
  = matcher (after_tag REGEX) k (dropWhile is_word rest)
      (<[1%nat := Some (c :: takeWhile is_word rest)]> caps).
Proof.
  intros Hc Hk. unfold REGEX at 1, Plus.
  rewrite matcher_Seq, matcher_Group, matcher_Seq, matcher_Chr_cons, Hc.
  rewrite matcher_Star_Chr.
  - by rewrite consumed_run.
  - intros s' caps'. by apply after_tag_total.
Qed.

Lemma exec_REGEX_at_word c rest :
  is_word c = true ->
  exists res, exec_from 7 REGEX (c :: rest) = Some res
              /\ group res 1 = Some (c :: takeWhile is_word rest).
Proof.
  intros Hc. cbn [exec_from]. rewrite matcher_Group.
  set (K0 := fun (s' : jsstring) (caps' : captures) =>
               Some (<[0%nat := Some (consumed (c :: rest) s')]> caps')).
  assert (total K0) as HK0 by (by intros ??).
  rewrite matcher_REGEX_at_word by done.
  destruct (after_tag_total K0 HK0 (dropWhile is_word rest)
              (<[1%nat := Some (c :: takeWhile is_word rest)]>
                 (replicate 7 None))) as [res Hres].
  rewrite Hres. exists res. split; [done|].
  revert Hres.
  apply (matcher_frame 1 (Some (Some (c :: takeWhile is_word rest)))
           (fun res => group res 1 = Some (c :: takeWhile is_word rest))).
  - simpl. rewrite !elem_of_cons, elem_of_nil. lia.
  - intros s' caps' res' Hcaps' [= <-]. unfold group.
    rewrite list_lookup_insert_ne by done. by rewrite Hcaps'.
  - done.
Qed.

Lemma exec_REGEX_word line :
  existsb is_word line = true ->
  exists res,
    exec REGEX line = Some res /\ group res 1 = Some (first_word line).
Proof.
  change (exec REGEX line) with (exec_from 7 REGEX line).
  unfold first_word.
  induction line as [|c line IH]; intros Hex; [done|].
  destruct (is_word c) eqn:Hc.
  - destruct (exec_REGEX_at_word c line Hc) as (res & Hres & Hg).
    exists res. split; [done|]. simpl. by rewrite Hc; simpl; rewrite Hc.
  - simpl in Hex. rewrite Hc in Hex. simpl in Hex.
    destruct (IH Hex) as (res & Hres & Hg).
    exists res. split.
    + cbn [exec_from]. rewrite Hres.
      unfold REGEX, Plus.
      by rewrite matcher_Group, matcher_Seq, matcher_Group, matcher_Seq,
        matcher_Chr_cons, Hc.
    + simpl. by rewrite Hc.
Qed.

Lemma first_word_nonempty line :
  existsb is_word line = true -> first_word line ≠ [].
Proof.
  unfold first_word. induction line as [|c line IH]; [done|]. simpl.
  destruct (is_word c) eqn:Hc; simpl; [by rewrite Hc|done].
Qed.

(** ** The tree-reconstruction loop *)

Section ReconstructionFacts.
Context {E : Type}.
Variable prepend : E -> E -> E.
Implicit Types (L : list (E * Z)) (x c : E * Z).

Lemma foldl_max_spec L (a : Z) :
  let r := foldl (fun max c => if (c.2 >? max)%Z then c.2 else max) a L in
  (a <= r)%Z /\ Forall (fun c => (c.2 <= r)%Z) L
  /\ (r = a \/ Exists (fun c => c.2 = r) L).
Proof.
  revert a. induction L as [|c L IH]; intros a; simpl.
  - split; [lia|]. split; [constructor|by left].
  - destruct (IH (if (c.2 >? a)%Z then c.2 else a)) as (Hle & Hall & Hex).
    destruct (Z.gtb_spec c.2 a) as [Hgt|Hngt].
    + split; [lia|]. split; [constructor; [lia|done]|].
      right. destruct Hex as [->|Hex]; [by left|by right].
    + split; [lia|]. split; [constructor; [lia|done]|].
      destruct Hex as [->|Hex]; [by left|by right; right].
Qed.

Lemma maxLevel_spec c L :
  exists m, _maxLevel (c :: L) = Some m
            /\ Forall (fun x => (x.2 <= m)%Z) (c :: L)
            /\ Exists (fun x => x.2 = m) (c :: L).
Proof.
  unfold _maxLevel. simpl.
  destruct (foldl_max_spec (c :: L) c.2) as (Hle & Hall & Hex).
  eexists. split; [done|]. split; [done|].
  destruct Hex as [Heq|Hex]; [|done].
  left. simpl in Heq. by rewrite Heq.
Qed.

Lemma last_occurrence (P : E * Z -> Prop) `{!forall x, Decision (P x)} L :
  Exists P L ->
  exists L1 x L2, L = L1 ++ x :: L2 /\ P x /\ Forall (fun c => ~ P c) L2.
Proof.
  induction L as [|c L IH] using rev_ind; intros Hex.
  - by apply Exists_nil in Hex.
  - destruct (decide (P c)) as [Hc|Hc].
    + exists L, c, []. by repeat split.
    + apply Exists_app in Hex as [Hex|Hex].
      * destruct (IH Hex) as (L1 & x & L2 & -> & Hx & Hall).
        exists L1, x, (L2 ++ [c]). rewrite <- app_assoc. simpl.
        repeat split; [done|]. apply Forall_app. split; [done|].
        by constructor.
      * exfalso. apply Exists_cons in Hex as [?|Hex]; [done|].
        by apply Exists_nil in Hex.
Qed.

Lemma last_index_at_app {I} level (inj : nat -> I) i L1 L2 li :
  last_index_at level inj i (L1 ++ L2) li
  = last_index_at level inj (i + length L1) L2
      (last_index_at level inj i L1 li).
Proof.
  revert i li. induction L1 as [|c L1 IH]; intros i li; simpl.
  - by rewrite Nat.add_0_r.
  - rewrite IH. f_equal. lia.
Qed.

Lemma last_index_at_absent {I} level (inj : nat -> I) i L li :
  Forall (fun c => c.2 ≠ level) L ->
  last_index_at level inj i L li = li.
Proof.
  intros Hall. revert i. induction Hall as [|c L Hc _ IH]; intros i; simpl.
  - done.
  - apply Z.eqb_neq in Hc as ->. apply IH.
Qed.

Lemma last_index_at_last {I} level (inj : nat -> I) i L1 x L2 li :
  x.2 = level ->
  Forall (fun c => c.2 ≠ level) L2 ->
  last_index_at level inj i (L1 ++ x :: L2) li = inj (i + length L1)%nat.
Proof.
  intros Hx Hall. rewrite last_index_at_app. simpl.
  rewrite last_index_at_absent by done.
  by apply Z.eqb_eq in Hx as ->.
Qed.

(** The deepest element is at a valid index. *)
Lemma deepest_index c L :
  exists d, _getIndexOfDeepestElement (c :: L) = Some d
            /\ (d < length (c :: L))%nat.
Proof.
  destruct (maxLevel_spec c L) as (m & Hm & Hall & Hex).
  unfold _getIndexOfDeepestElement. rewrite Hm. cbn [mbind option_bind].
  destruct (m =? 1)%Z.
  - eexists. split; [done|]. simpl. lia.
  - apply (last_occurrence (fun x => x.2 = m)) in Hex
      as (L1 & x & L2 & HL & Hx & Hrest).
    rewrite HL. erewrite last_index_at_last by done.
    eexists. split; [done|]. rewrite length_app. simpl. lia.
Qed.

(** When every level is at least 1, the deepest element is the last of
    those of the greatest level. *)
Lemma deepest_split L :
  L ≠ [] ->
  Forall (fun c => (1 <= c.2)%Z) L ->
  exists L1 x L2,
    L = L1 ++ x :: L2
    /\ _getIndexOfDeepestElement L = Some (length L1)
    /\ Forall (fun c => (c.2 <= x.2)%Z) L1
    /\ Forall (fun c => (c.2 < x.2)%Z) L2.
Proof.
  intros Hne Hpos. destruct L as [|c L]; [done|].
  destruct (maxLevel_spec c L) as (m & Hm & Hall & Hex).
  apply (last_occurrence (fun x => x.2 = m)) in Hex
    as (L1 & x & L2 & HL & Hx & Hrest).
  rewrite HL in *. clear HL c L Hne.
  apply Forall_app in Hall as [Hall1 Hall2].
  apply Forall_cons in Hall2 as [_ Hall2].
  assert (Forall (fun c => (c.2 < x.2)%Z) L2) as Hlt.
  { rewrite Forall_forall in *. intros y Hy.
    specialize (Hall2 y Hy). specialize (Hrest y Hy). simpl in *. lia. }
  exists L1, x, L2. repeat split; [|by rewrite Hx|done].
  unfold _getIndexOfDeepestElement. rewrite Hm. cbn [mbind option_bind].
  destruct (Z.eqb_spec m 1) as [H1|H1].
  - destruct L2 as [|y L2].
    + rewrite length_app. simpl. f_equal. lia.
    + exfalso. apply Forall_cons in Hlt as [Hy _].
      apply Forall_app in Hpos as [_ Hpos].
      apply Forall_cons in Hpos as [_ Hpos].
      apply Forall_cons in Hpos as [Hy' _]. lia.
  - by erewrite last_index_at_last.
Qed.

(** The nearest parent is the last element before the deepest one whose
    level is one less, if there is one. *)
Lemma nearest_split L1 x L2 :
  (Forall (fun c => c.2 ≠ (x.2 - 1)%Z) L1
   /\ _getIndexOfNearestParentElementOf (length L1) (L1 ++ x :: L2)
      = Some None)
  \/ (exists A p B,
        L1 = A ++ p :: B /\ p.2 = (x.2 - 1)%Z
        /\ Forall (fun c => c.2 ≠ (x.2 - 1)%Z) B
        /\ _getIndexOfNearestParentElementOf (length L1) (L1 ++ x :: L2)
           = Some (Some (length A))).
Proof.
  unfold _getIndexOfNearestParentElementOf.
  rewrite list_lookup_middle by done. cbn [mbind option_bind].
  rewrite take_app_length.
  destruct (decide (Exists (fun c => c.2 = (x.2 - 1)%Z) L1)) as [Hex|Hno].
  - right. apply (last_occurrence (fun c => c.2 = (x.2 - 1)%Z)) in Hex
      as (A & p & B & -> & Hp & HB).
    exists A, p, B. repeat split; [done..|].
    by erewrite last_index_at_last.
  - left. apply not_Exists_Forall in Hno; [|intros ?; apply _].
    split; [done|]. by rewrite last_index_at_absent.
Qed.

Lemma last_index_at_bound level i L p :
  last_index_at level Some i L None = Some p ->
  (i <= p < i + length L)%nat.
Proof.
  destruct (decide (Exists (fun c => c.2 = level) L)) as [Hex|Hno].
  - apply (last_occurrence (fun c => c.2 = level)) in Hex
      as (A & q & B & -> & Hq & HB).
    erewrite last_index_at_last by done. intros [= <-].
    rewrite length_app. simpl. lia.
  - apply not_Exists_Forall in Hno; [|intros ?; apply _].
    by rewrite last_index_at_absent.
Qed.

(** An iteration of the loop removes exactly one pair. *)
Lemma reconstruct_step_length mainElement c L :
  exists mainElement' L',
    reconstruct_step prepend mainElement (c :: L) = Some (mainElement', L')
    /\ length L' = length L.
Proof.
  destruct (deepest_index c L) as (d & Hd & Hlt).
  unfold reconstruct_step. rewrite Hd. cbn [mbind option_bind].
  destruct (lookup_lt_is_Some_2 (c :: L) d Hlt) as [x Hx].
  unfold _getIndexOfNearestParentElementOf. rewrite Hx.
  cbn [mbind option_bind].
  destruct (last_index_at _ _ _ _ _) as [p|] eqn:Hp.
  - apply last_index_at_bound in Hp. rewrite length_take in Hp.
    destruct (lookup_lt_is_Some_2 (c :: L) p) as [y Hy]; [lia|].
    rewrite Hy. cbn [mbind option_bind]. eexists _, _. split; [done|].
    rewrite length_delete; [rewrite length_insert; simpl; lia|].
    apply lookup_lt_is_Some_2. by rewrite length_insert.
  - eexists _, _. split; [done|].
    rewrite length_delete by eauto. simpl. lia.
Qed.

Lemma reconstruct_enough_fuel mainElement L extra :
  exists result,
    reconstruct prepend (length L + extra) mainElement L = Normal result.
Proof.
  remember (length L) as n eqn:Hn. revert mainElement L Hn.
  induction n as [|n IH]; intros mainElement L Hn.
  - destruct L; [|done]. exists mainElement. by destruct extra.
  - destruct L as [|c L]; [done|]. simpl.
    destruct (reconstruct_step_length mainElement c L)
      as (mainElement' & L' & -> & Hlen).
    apply IH. simpl in Hn. lia.
Qed.

(** C9. An iteration of the loop on a list that is not empty removes one
    pair from it, and the loop, given as many iterations as the list is
    long (or more), returns the main element. *)
Theorem reconstruct_terminates mainElement :
  (forall c L,
      exists mainElement' L',
        reconstruct_step prepend mainElement (c :: L)
        = Some (mainElement', L')
        /\ S (length L') = length (c :: L))
  /\ (forall L extra,
         exists result,
           reconstruct prepend (length L + extra) mainElement L
           = Normal result).
Proof.
  split.
  - intros c L.
    destruct (reconstruct_step_length mainElement c L)
      as (mainElement' & L' & Hstep & Hlen).
    exists mainElement', L'. split; [done|]. simpl. lia.
  - apply reconstruct_enough_fuel.
Qed.
End ReconstructionFacts.

Section ReconstructionStep.
Context {E : Type}.
Variable prepend : E -> E -> E.
Implicit Types (L : list (E * Z)) (x c : E * Z).

(** What an iteration does to a list whose levels are all at least 1:
    the deepest element [x] is the last one of the greatest level, and it
    goes to the last element before it that is one level above, or to
    the main element when there is none. *)
Lemma reconstruct_step_split mainElement L :
  L ≠ [] ->
  Forall (fun c => (1 <= c.2)%Z) L ->
  exists L1 x L2,
    L = L1 ++ x :: L2
    /\ Forall (fun c => (c.2 <= x.2)%Z) L1
    /\ Forall (fun c => (c.2 < x.2)%Z) L2
    /\ ((Forall (fun c => c.2 ≠ (x.2 - 1)%Z) L1
         /\ reconstruct_step prepend mainElement L
            = Some (prepend mainElement x.1, L1 ++ L2))
        \/ (exists A p B,
              L1 = A ++ p :: B /\ p.2 = (x.2 - 1)%Z
              /\ Forall (fun c => c.2 ≠ (x.2 - 1)%Z) B
              /\ reconstruct_step prepend mainElement L
                 = Some (mainElement,
                         A ++ (prepend p.1 x.1, p.2) :: B ++ L2))).
Proof.
  intros Hne Hpos.
  destruct (deepest_split L Hne Hpos) as (L1 & x & L2 & HL & Hd & H1 & H2).
  subst L.
  exists L1, x, L2. split; [done|]. split; [done|]. split; [assumption|].
  unfold reconstruct_step. rewrite Hd. cbn [mbind option_bind].
  destruct (nearest_split L1 x L2)
    as [[Hno ->]|(A & p & B & HL1 & Hp & HB & ->)];
    cbn [mbind option_bind];
    rewrite (list_lookup_middle L1 L2 x (length L1)) by done;
    cbn [mbind option_bind].
  - left. split; [done|]. by rewrite delete_middle.
  - right. exists A, p, B. split; [done|]. split; [done|]. split; [done|].
    subst L1. rewrite <- (app_assoc A). simpl.
    rewrite (list_lookup_middle A (B ++ x :: L2) p (length A)) by done.
    cbn [mbind option_bind]. do 2 f_equal.
    rewrite (insert_app_r_alt A) by lia. rewrite Nat.sub_diag. simpl.
    rewrite length_app. simpl.
    replace (length A + S (length B))%nat
      with (length (A ++ (prepend p.1 x.1, p.2) :: B))
      by (rewrite length_app; simpl; lia).
    replace (A ++ (prepend p.1 x.1, p.2) :: B ++ x :: L2)
      with ((A ++ (prepend p.1 x.1, p.2) :: B) ++ x :: L2)
      by (by rewrite <- app_assoc).
    rewrite delete_middle. by rewrite <- app_assoc.
Qed.

(** The loop commutes with a map between two types of elements that
    respects [prepend]. *)
Context {E' : Type}.
Variable prepend' : E' -> E' -> E'.
Variable h : E -> E'.
Hypothesis h_prepend : forall a b, h (prepend a b) = prepend' (h a) (h b).

Local Abbreviation on_elements := (on_elements h).

Lemma maxLevel_fmap L : _maxLevel (on_elements <$> L) = _maxLevel L.
Proof.
  unfold _maxLevel. rewrite list_lookup_fmap.
  destruct L as [|c L]; [done|]. simpl. f_equal.
  generalize ((if (c.2 >? c.2)%Z then c.2 else c.2)).
  induction L as [|c' L IH]; intros a; simpl; [done|]. apply IH.
Qed.

Lemma last_index_at_fmap {I} level (inj : nat -> I) i L li :
  last_index_at level inj i (on_elements <$> L) li
  = last_index_at level inj i L li.
Proof.
  revert i li. induction L as [|c L IH]; intros i li; simpl; [done|].
  apply IH.
Qed.

Lemma reconstruct_step_fmap mainElement L :
  reconstruct_step prepend' (h mainElement) (on_elements <$> L)
  = (fun r : E * list (E * Z) => (h r.1, on_elements <$> r.2))
      <$> reconstruct_step prepend mainElement L.
Proof.
  unfold reconstruct_step, _getIndexOfDeepestElement,
    _getIndexOfNearestParentElementOf.
  rewrite maxLevel_fmap.
  destruct (_maxLevel L) as [m|]; [|done]. cbn [mbind option_bind].
  rewrite length_fmap, last_index_at_fmap.
  match goal with
  | |- context [if (m =? 1)%Z then ?a else ?b] =>
      destruct (if (m =? 1)%Z then a else b) as [d|]; [|done]
  end.
  cbn [mbind option_bind]. rewrite list_lookup_fmap.
  destruct (L !! d) as [x|]; [|done]. cbn [mbind option_bind fmap option_fmap option_map].
  rewrite <- fmap_take, last_index_at_fmap. simpl.
  destruct (last_index_at _ _ _ _ _) as [p|].
  - rewrite list_lookup_fmap.
    destruct (L !! p) as [y|]; [|done]. simpl.
    do 2 f_equal. rewrite list_fmap_delete, list_fmap_insert.
    change (on_elements (prepend y.1 x.1, y.2))
      with (h (prepend y.1 x.1), y.2).
    by rewrite h_prepend.
  - simpl. rewrite h_prepend. do 2 f_equal. by rewrite list_fmap_delete.
Qed.

Lemma reconstruct_fmap fuel mainElement L result :
  reconstruct prepend fuel mainElement L = Normal result ->
  reconstruct prepend' fuel (h mainElement) (on_elements <$> L)
  = Normal (h result).
Proof.
  revert mainElement L. induction fuel as [|fuel IH]; intros mainElement L.
  - destruct L; simpl; [by intros [= ->]|done].
  - destruct L as [|c L]; [by intros [= ->]|].
    change (on_elements <$> (c :: L))
      with (on_elements c :: (on_elements <$> L)).
    cbn [reconstruct].
    change (on_elements c :: (on_elements <$> L))
      with (on_elements <$> (c :: L)).
    rewrite reconstruct_step_fmap.
    destruct (reconstruct_step prepend mainElement (c :: L))
      as [[mainElement' L']|]; [|done].
    simpl. apply IH.
Qed.
End ReconstructionStep.

(** ** Document order *)

Section DocumentOrder.
Implicit Types (M t : LineTree) (L : list (LineTree * Z)).
Implicit Types (c e x p : LineTree * Z).

Lemma in_document_order_unfold i (ks : list LineTree) :
  in_document_order (LineNode i ks)
  <-> StronglySorted lt (line <$> ks) /\ Forall in_document_order ks.
Proof.
  simpl. apply and_iff_compat_l.
  induction ks as [|k ks IH]; simpl.
  - split; [constructor|done].
  - rewrite Forall_cons, IH. done.
Qed.

Lemma in_document_order_prepend t (k : LineTree) :
  in_document_order t -> in_document_order k ->
  Forall (fun k' => (line k < line k')%nat) (kids t) ->
  in_document_order (prepend_line t k).
Proof.
  destruct t as [i ks]. unfold prepend_line. simpl kids. simpl line.
  rewrite !in_document_order_unfold. intros [Hs Hk] Hin Hlt.
  split; [|by constructor].
  rewrite fmap_cons. constructor; [done|]. by apply Forall_fmap.
Qed.

Lemma no_skipped_level_from_spec seen levels :
  no_skipped_level_from seen levels = true ->
  forall l1 k l2,
    levels = l1 ++ k :: l2 -> k = 1%Z \/ (k - 1)%Z ∈ seen \/ (k - 1)%Z ∈ l1.
Proof.
  revert seen. induction levels as [|a levels IH]; intros seen H l1 k l2 Heq.
  - by destruct l1.
  - simpl in H. apply andb_true_iff in H as [Ha Hrest].
    destruct l1 as [|b l1]; simplify_eq/=.
    + apply orb_true_iff in Ha as [Ha|Ha].
      * left. by apply Z.eqb_eq.
      * right. left. by apply bool_decide_eq_true in Ha.
    + destruct (IH _ Hrest l1 k l2 eq_refl) as [?|[Hin|?]]; [by left| |].
      * apply elem_of_cons in Hin as [->|?]; right; [right; left|by left].
      * right. right. by right.
Qed.

Lemma no_skipped_level_wf levels :
  no_skipped_level levels -> wf_levels levels.
Proof.
  intros H l1 k l2 Heq.
  destruct (no_skipped_level_from_spec [] levels H l1 k l2 Heq)
    as [?|[Hin|?]]; [by left| |by right].
  by apply elem_of_nil in Hin.
Qed.

Lemma wf_levels_pos levels :
  wf_levels levels -> Forall (fun k => (1 <= k)%Z) levels.
Proof.
  induction levels as [|k levels IH] using rev_ind; intros Hwf; [done|].
  assert (Forall (fun k => (1 <= k)%Z) levels) as Hpos.
  { apply IH. intros l1 k' l2 ->.
    apply (Hwf l1 k' (l2 ++ [k])). by rewrite <- app_assoc. }
  apply Forall_app. split; [done|]. constructor; [|done].
  destruct (Hwf levels k [] eq_refl) as [->|Hin]; [lia|].
  rewrite Forall_forall in Hpos. specialize (Hpos _ Hin). lia.
Qed.

Lemma wf_levels_remove l1 m l2 :
  wf_levels (l1 ++ m :: l2) ->
  Forall (fun k => (k < m)%Z) l2 ->
  wf_levels (l1 ++ l2).
Proof.
  intros Hwf Hlt a k b Heq.
  apply app_eq_inv in Heq as [(K & -> & HK)|(K & -> & ->)].
  - destruct K as [|k' K]; simplify_eq/=.
    + rewrite app_nil_r in Hwf. destruct (Hwf (a ++ [m]) k b) as [?|Hin].
      { by rewrite <- app_assoc. }
      { by left. }
      apply elem_of_app in Hin as [?|Hin]; [by right|].
      apply list_elem_of_singleton in Hin.
      apply Forall_cons in Hlt as [? _]. lia.
    + apply (Hwf a k' (K ++ m :: l2)). by rewrite <- app_assoc.
  - destruct (Hwf (l1 ++ m :: K) k b) as [?|Hin].
    { by rewrite <- app_assoc. }
    { by left. }
    right. rewrite elem_of_app in *. rewrite elem_of_cons in Hin.
    destruct Hin as [?|[Hm|?]]; [by left| |by right].
    apply Forall_app in Hlt as [_ Hlt].
    apply Forall_cons in Hlt as [? _]. lia.
Qed.

Lemma roots_before L1 x L2 e :
  StronglySorted lt (roots (L1 ++ x :: L2)) -> e ∈ L1 ->
  (line e.1 < line x.1)%nat.
Proof.
  unfold roots. rewrite fmap_app, fmap_cons. intros Hs He.
  eapply (StronglySorted_app_1_elem_of _ _ _ _ _ Hs).
  - by apply (list_elem_of_fmap_2 (fun c => line c.1)).
  - by left.
Qed.

Lemma roots_remove L1 x L2 :
  StronglySorted lt (roots (L1 ++ x :: L2)) ->
  StronglySorted lt (roots (L1 ++ L2)).
Proof.
  unfold roots. rewrite !fmap_app, fmap_cons, !StronglySorted_app.
  intros (H12 & H1 & H2). split; [|split; [done|]].
  - intros a b Ha Hb. apply H12; [done|by right].
  - by apply StronglySorted_cons in H2 as [_ ?].
Qed.

Lemma Forall_levels (P : Z -> Prop) L :
  Forall P (L.*2) <-> Forall (fun c => P c.2) L.
Proof. apply Forall_fmap. Qed.

Lemma lines_of_prepend t (k : LineTree) :
  lines_of (prepend_line t k) ≡ₚ lines_of t ++ lines_of k.
Proof.
  destruct t as [i ks]. simpl. constructor. apply Permutation_app_comm.
Qed.

Lemma pending_lines_app M L1 L2 :
  pending_lines M (L1 ++ L2)
  = lines_of M ++ concat ((fun c => lines_of c.1) <$> L1)
      ++ concat ((fun c => lines_of c.1) <$> L2).
Proof. unfold pending_lines. by rewrite fmap_app, concat_app. Qed.

(** An iteration keeps the invariant, and the lines. *)
Lemma order_invariant_step M L :
  order_invariant M L -> L ≠ [] ->
  exists M' L',
    reconstruct_step prepend_line M L = Some (M', L')
    /\ order_invariant M' L' /\ line M' = line M
    /\ pending_lines M' L' ≡ₚ pending_lines M L.
Proof.
  intros [Hwf Hroots Hpend Hkids Hmain Hmk] Hne.
  assert (Forall (fun c => (1 <= c.2)%Z) L) as Hpos.
  { apply wf_levels_pos in Hwf. by apply Forall_levels in Hwf. }
  destruct (reconstruct_step_split prepend_line M L Hne Hpos)
    as (L1 & x & L2 & HL & HL1 & HL2 & Hcase). subst L.
  assert (forall e, e ∈ L1 -> (line e.1 < line x.1)%nat) as Hbefore.
  { intros e He. by eapply roots_before. }
  assert (wf_levels ((L1 ++ L2).*2)) as Hwf'.
  { rewrite fmap_app. rewrite fmap_app, fmap_cons in Hwf.
    apply (wf_levels_remove _ x.2); [done|]. by apply Forall_levels. }
  apply roots_remove in Hroots as Hroots'.
  assert (in_document_order x.1) as Hx.
  { rewrite Forall_forall in Hpend. apply (Hpend x).
    apply elem_of_app. right. by left. }
  assert (Forall (fun c => in_document_order c.1) (L1 ++ L2)) as Hpend'.
  { apply Forall_app in Hpend as [Hp1 Hp2].
    apply Forall_cons in Hp2 as [_ Hp2]. by apply Forall_app. }
  assert (forall e, e ∈ L1 ++ L2 -> e ∈ L1 ++ x :: L2) as Hsub.
  { intros e He. apply elem_of_app. apply elem_of_app in He as [?|?];
      [by left|by right; right]. }
  destruct Hcase as [[Hno Hstep]|(A & p & B & HA & Hp & HB & Hstep)].
  - (* the deepest element goes to the main element: it is at level 1
       and the last of the list *)
    assert (x.2 = 1%Z) as Hx1.
    { rewrite fmap_app, fmap_cons in Hwf.
      destruct (Hwf _ _ _ eq_refl) as [?|Hin]; [done|].
      apply list_elem_of_fmap in Hin as (c & Hc & Hin).
      rewrite Forall_forall in Hno. by destruct (Hno c Hin). }
    assert (L2 = []) as ->.
    { destruct L2 as [|y L2]; [done|]. exfalso.
      apply Forall_cons in HL2 as [Hy _].
      rewrite Forall_forall in Hpos.
      assert (y ∈ L1 ++ x :: y :: L2) as Hy'.
      { apply elem_of_app. right. right. by left. }
      specialize (Hpos y Hy'). simpl in Hpos. lia. }
    rewrite app_nil_r in *.
    exists (prepend_line M x.1), L1. split; [done|].
    split; [|split; [by destruct M|]]; [constructor; try done|].
    + intros c k e Hc Hk He. apply Hkids; [by apply Hsub|done|by apply Hsub].
    + apply in_document_order_prepend; [done..|].
      apply Forall_forall. intros k Hk. apply Hmk; [done|].
      apply elem_of_app. right. by left.
    + intros k e Hk He. destruct M as [i ks]. simpl in Hk.
      apply elem_of_cons in Hk as [->|Hk]; [by apply Hbefore|].
      apply Hmk; [done|]. by apply Hsub.
    + unfold pending_lines.
      rewrite lines_of_prepend, fmap_app, concat_app, fmap_cons.
      rewrite concat_cons. cbn [fmap list_fmap concat].
      rewrite !app_nil_r, <- !app_assoc.
      apply Permutation_app_head, Permutation_app_comm.
  - (* the deepest element goes under [p] *)
    subst L1. set (p' := (prepend_line p.1 x.1, p.2)) in *.
    assert (p ∈ A ++ p :: B) as Hpin1.
    { apply elem_of_app. right. by left. }
    assert (p ∈ (A ++ p :: B) ++ x :: L2) as Hpin.
    { apply elem_of_app. by left. }
    assert (x ∈ (A ++ p :: B) ++ x :: L2) as Hxin.
    { apply elem_of_app. right. by left. }
    assert (forall e, e ∈ A ++ p' :: B ++ L2 ->
              exists e0, e0 ∈ (A ++ p :: B) ++ L2
                         /\ line e0.1 = line e.1 /\ e0.2 = e.2
                         /\ (e = e0 \/ e = p' /\ e0 = p)) as Hold.
    { intros e. rewrite !elem_of_app, !elem_of_cons, !elem_of_app.
      intros [?|[->|[?|?]]]; [exists e|exists p|exists e|exists e];
        (split; [|split; [done|split; [done|]]]).
      - apply elem_of_app. left. apply elem_of_app. by left.
      - by left.
      - apply elem_of_app. by left.
      - by right.
      - apply elem_of_app. left. apply elem_of_app. right. by right.
      - by left.
      - apply elem_of_app. by right.
      - by left. }
    assert (in_document_order p'.1) as Hp'.
    { apply in_document_order_prepend; [|done|].
      - rewrite Forall_forall in Hpend. by apply (Hpend p).
      - apply Forall_forall. intros k Hk.
        apply (Hkids p k x); [done..|lia]. }
    exists M, (A ++ p' :: B ++ L2). split; [done|].
    split; [|split; [done|]]; [constructor|].
    + replace ((A ++ p' :: B ++ L2).*2) with (((A ++ p :: B) ++ L2).*2);
        [done|].
      by rewrite <- app_assoc, !fmap_app, !fmap_cons, !fmap_app.
    + replace (roots (A ++ p' :: B ++ L2))
        with (roots ((A ++ p :: B) ++ L2)); [done|].
      unfold roots. destruct p.
      by rewrite <- app_assoc, !fmap_app, !fmap_cons, !fmap_app.
    + rewrite <- app_assoc in Hpend'. simpl in Hpend'.
      apply Forall_app in Hpend' as [HpA HpB].
      apply Forall_cons in HpB as [_ HpB].
      apply Forall_app. split; [done|]. by apply Forall_cons.
    + intros c k e Hc Hk He Hlev.
      destruct (Hold e He) as (e0 & He0 & Hline & Hlev0 & _).
      rewrite <- Hline.
      assert (c = p' \/ c ∈ (A ++ p :: B) ++ L2) as [->|Hc'].
      { destruct (Hold c Hc) as (c0 & Hc0 & _ & _ & [->|[-> _]]);
          [by right|by left]. }
      * simpl in Hk, Hlev. destruct p as [[i ks] lp]. simpl in *.
        apply elem_of_cons in Hk as [->|Hk].
        -- apply elem_of_app in He0 as [He0|He0]; [by apply Hbefore|].
           rewrite Forall_forall in HL2. specialize (HL2 e0 He0). lia.
        -- apply (Hkids (LineNode i ks, lp) k e0);
             [done|done|by apply Hsub|simpl; lia].
      * apply (Hkids c k e0); [by apply Hsub|done|by apply Hsub|lia].
    + done.
    + intros k e Hk He.
      destruct (Hold e He) as (e0 & He0 & Hline & _).
      rewrite <- Hline. apply Hmk; [done|by apply Hsub].
    + unfold pending_lines. apply Permutation_app_head.
      repeat rewrite ?fmap_app, ?fmap_cons, ?concat_app, ?concat_cons.
      subst p'. cbn beta. cbn [fst]. rewrite lines_of_prepend.
      rewrite <- !app_assoc. apply Permutation_app_head.
      apply Permutation_app_head.
      rewrite !app_assoc. apply Permutation_app_tail.
      apply Permutation_app_comm.
Qed.

Lemma order_invariant_run n M L :
  length L = n -> order_invariant M L ->
  exists t, reconstruct prepend_line n M L = Normal t
            /\ in_document_order t /\ line t = line M
            /\ lines_of t ≡ₚ pending_lines M L.
Proof.
  revert M L. induction n as [|n IH]; intros M L Hlen Hinv.
  - destruct L; [|done]. exists M. unfold pending_lines. simpl.
    rewrite app_nil_r. by destruct Hinv.
  - destruct L as [|c L]; [done|].
    destruct (order_invariant_step M (c :: L) Hinv)
      as (M' & L' & Hstep & Hinv' & Hline & Hperm); [done|].
    cbn [reconstruct]. rewrite Hstep.
    destruct (reconstruct_step_length prepend_line M c L)
      as (M'' & L'' & Hstep' & Hlen').
    rewrite Hstep in Hstep'. simplify_eq.
    destruct (IH M'' L'') as (t & Ht & Hord & Hline' & Hperm');
      [simpl in Hlen; lia|done|].
    exists t. by rewrite Hline', Hline, Hperm', Hperm.
Qed.

Lemma StronglySorted_seq start n : StronglySorted lt (seq start n).
Proof.
  revert start. induction n as [|n IH]; intros start; simpl; constructor.
  - apply IH.
  - apply Forall_forall. intros i Hi. apply elem_of_seq in Hi. lia.
Qed.

Lemma line_leaves_levels {E} (block : list (E * Z)) :
  (line_leaves block).*2 = block.*2.
Proof.
  apply list_eq. intros i. unfold line_leaves.
  rewrite !list_lookup_fmap, list_lookup_imap.
  by destruct (block !! i).
Qed.

Lemma line_leaves_roots {E} (block : list (E * Z)) :
  roots (line_leaves block) = seq 1 (length block).
Proof.
  apply list_eq. intros i. unfold roots, line_leaves.
  rewrite list_lookup_fmap, list_lookup_imap.
  destruct (block !! i) as [c|] eqn:Hc; simpl.
  - symmetry. apply lookup_seq. split; [done|].
    by apply lookup_lt_Some in Hc.
  - symmetry. apply lookup_seq_ge. by apply lookup_ge_None in Hc.
Qed.

Lemma line_leaves_elem_of {E} (block : list (E * Z)) c :
  c ∈ line_leaves block -> kids c.1 = [].
Proof.
  unfold line_leaves. intros Hc.
  apply elem_of_lookup_imap in Hc as (i & y & -> & _). done.
Qed.

Lemma imap_lines {E} (block : list (E * Z))
  (f : nat -> E * Z -> LineTree * Z) (j : nat) :
  (forall i b, lines_of (f i b).1 = [(j + i)%nat]) ->
  concat ((fun c => lines_of c.1) <$> imap f block) = seq j (length block).
Proof.
  revert f j. induction block as [|b block IH]; intros f j Hf; [done|].
  simpl. rewrite Hf, Nat.add_0_r. simpl. f_equal.
  apply IH. intros i b'. unfold compose. rewrite Hf. f_equal. lia.
Qed.

Lemma line_leaves_lines {E} (block : list (E * Z)) :
  pending_lines (LineNode 0 []) (line_leaves block)
  = seq 0 (S (length block)).
Proof.
  unfold pending_lines, line_leaves. simpl. f_equal.
  by apply imap_lines.
Qed.

(** The invariant holds when the loop starts. *)
Lemma order_invariant_init {E} (block : list (E * Z)) :
  no_skipped_level (block.*2) ->
  order_invariant (LineNode 0 []) (line_leaves block).
Proof.
  intros Hwf. constructor.
  - rewrite line_leaves_levels. by apply no_skipped_level_wf.
  - rewrite line_leaves_roots. apply StronglySorted_seq.
  - apply Forall_forall. intros c Hc.
    apply elem_of_lookup_imap in Hc as (i & y & -> & _).
    simpl. split; [constructor|done].
  - intros c k e Hc Hk. apply line_leaves_elem_of in Hc.
    rewrite Hc in Hk. by apply elem_of_nil in Hk.
  - simpl. split; [constructor|done].
  - intros k e Hk. by apply elem_of_nil in Hk.
Qed.
End DocumentOrder.

Section DocumentOrderOfElements.
Context {Callback Options : Type}.
Abbreviation DOMElement := (@Element Callback Options).

Lemma materialize_prepend (f : nat -> DOMElement) p c :
  materialize f (prepend_line p c)
  = prepend (materialize f p) (materialize f c).
Proof. destruct p as [i ks]. simpl. by destruct (f i). Qed.

Lemma materialize_leaves (mainElement : DOMElement) (block : list (DOMElement * Z)) :
  on_elements (materialize (element_of_line mainElement block))
    <$> line_leaves block
  = block.
Proof.
  apply list_eq. intros i. unfold line_leaves.
  rewrite list_lookup_fmap, list_lookup_imap.
  destruct (block !! i) as [[e lv]|] eqn:Hi; [|done]. simpl.
  unfold on_elements. simpl. rewrite Hi. simpl. by destruct e.
Qed.

(** C1, as the code has it. When no line of the block skips a level,
    the element that the loop returns is the one the line tree [t]
    stands for, where [t] is rooted at the main line, holds every line
    of the block once and has, under every node, the children in the
    order of their lines. *)
Theorem reconstruct_document_order (mainElement : DOMElement)
  (childrenElements : list (DOMElement * Z)) :
  no_skipped_level (childrenElements.*2) ->
  exists t,
    reconstruct prepend_line (length childrenElements) (LineNode 0 [])
      (line_leaves childrenElements) = Normal t
    /\ reconstruct prepend (length childrenElements) mainElement
         childrenElements
       = Normal (materialize (element_of_line mainElement childrenElements) t)
    /\ line t = 0%nat /\ in_document_order t
    /\ lines_of t ≡ₚ seq 0 (S (length childrenElements)).
Proof.
  intros Hwf.
  destruct (order_invariant_run (length childrenElements) (LineNode 0 [])
              (line_leaves childrenElements))
    as (t & Ht & Hord & Hline & Hperm).
  { unfold line_leaves. by rewrite length_imap. }
  { by apply order_invariant_init. }
  rewrite line_leaves_lines in Hperm.
  exists t. split; [done|]. split; [|done].
  apply (reconstruct_fmap prepend_line prepend
           (materialize (element_of_line mainElement childrenElements)))
    in Ht; [|apply materialize_prepend].
  rewrite materialize_leaves in Ht.
  replace (materialize _ (LineNode 0 [])) with mainElement in Ht; [done|].
  by destruct mainElement.
Qed.
End DocumentOrderOfElements.


(** ** The event registry *)

Section Registry.
Context {Callback Options : Type}.
Variable decode : jsstring -> jsstring.
Abbreviation Builder := (@HTMLBuilder Callback Options).
Abbreviation Binding := (@Event Callback Options).

Lemma search_events_find (key : jsstring) (events : list Binding) :
  search_events key events
  = List.find (fun e => bool_decide (name e = Some key)) events.
Proof.
  induction events as [|e events IH]; simpl; [done|].
  by rewrite IH.
Qed.

Lemma search_events_app_fresh (key : jsstring) (events : list Binding) e :
  Forall (fun e' => name e' ≠ Some key) events ->
  name e = Some key ->
  search_events key (events ++ [e]) = Some e.
Proof.
  intros Hfresh He. induction Hfresh as [|e' events Hne _ IH]; simpl.
  - by rewrite bool_decide_eq_true_2.
  - by rewrite bool_decide_eq_false_2.
Qed.

(** C7. A binding without a name, without a type or without a callback
    makes [bindEvent] throw, and the builder, so its registry, is what it
    was before the call. *)
Theorem bindEvent_validation (this : Builder) (event : Binding) :
  missing (name event) = true \/ missing (type event) = true
  \/ callback event = None ->
  (exists message, bindEvent this event = (Throw (Error message), this))
  /\ EVENTS (bindEvent this event).2 = EVENTS this.
Proof.
  intros H. unfold bindEvent.
  destruct (missing (name event)); [eauto|].
  destruct (missing (type event)); [eauto|].
  destruct (callback event); [|eauto].
  by destruct H as [?|[?|?]].
Qed.

(** C8. A name that starts with "on" is stored without that prefix, at
    the end of the registry; a lookup returns the first entry, from the
    front, whose stored name is the key, so that the binding is found
    under the stripped name when no earlier entry has that name. *)
Theorem bindEvent_strips_on (this : Builder) (event : Binding)
  (rest : jsstring) :
  name event = Some (lit "on" ++ rest) ->
  missing (type event) = false ->
  is_Some (callback event) ->
  let stored :=
    mkEvent (Some rest) (type event) (callback event) (options event) in
  let this' :=
    mkHTMLBuilder (SYMBOL_BETWEEN_ATTRIBUTES this) (EVENTS this ++ [stored])
      (parent this) in
  bindEvent this event = (Normal (), this')
  /\ (forall key,
        _searchForEvent this' key
        = List.find (fun e => bool_decide (name e = Some key)) (EVENTS this'))
  /\ (Forall (fun e => name e ≠ Some rest) (EVENTS this) ->
      _searchForEvent this' rest = Some stored).
Proof.
  intros Hname Htype [cb Hcb] stored this'. split; [|split].
  - unfold bindEvent. rewrite Hname, Htype, Hcb.
    rewrite startsWith_app, remove_first_app.
    assert (missing (Some (lit "on" ++ rest)) = false) as -> by reflexivity.
    subst this' stored. by rewrite Hcb.
  - intros key. apply search_events_find.
  - intros Hfresh. unfold _searchForEvent. simpl.
    by apply search_events_app_fresh.
Qed.

Lemma generate_mains_EVENTS (this : Builder) lines mainLines :
  EVENTS (generate_mains decode this lines mainLines).2 = EVENTS this.
Proof.
  revert this. induction mainLines as [|[mainLine mainLevel] rest IH];
    intros this; simpl; [done|].
  match goal with |- context [match ?b with _ => _ end] => destruct b end;
    simpl; try done.
  by rewrite IH.
Qed.

(** C3, as the code has it. [generate] leaves the registry as it found
    it, whatever the template and whatever the outcome; the registry is
    emptied by [clearEvents], which the caller invokes. *)
Theorem generate_keeps_EVENTS (this : Builder) (template : jsstring) :
  EVENTS (generate decode this template).2 = EVENTS this
  /\ EVENTS (clearEvents (generate decode this template).2) = [].
Proof.
  split; [|done]. unfold generate.
  destruct (_ =? _)%nat; [done|]. apply generate_mains_EVENTS.
Qed.
End Registry.
(** *** Names *)

Lemma forallb_impl {A} (f g : A -> bool) (l : list A) :
  (forall x, f x = true -> g x = true) ->
  forallb f l = true -> forallb g l = true.
Proof.
  intros Hfg. induction l as [|x l IH]; [done|]. simpl.
  rewrite !andb_true_iff. intros [Hx Hl]. auto.
Qed.

Lemma ascii_cases (P : char -> bool) :
  forallb P (N.of_nat <$> seq 0 128) = true ->
  forall c, c < 128 -> P c = true.
Proof.
  intros Hall c Hc. rewrite forallb_forall in Hall. apply Hall.
  apply list_elem_of_In, list_elem_of_fmap. exists (N.to_nat c).
  split; [by rewrite N2Nat.id|]. apply elem_of_seq. lia.
Qed.

Lemma is_word_ascii (c : char) : is_word c = true -> c < 128.
Proof.
  unfold is_word, is_digit.
  rewrite !orb_true_iff, !andb_true_iff, !N.leb_le, N.eqb_eq. lia.
Qed.

Lemma is_name_char_word (c : char) : is_word c = true -> is_name_char c = true.
Proof.
  intros Hc. pose proof (is_word_ascii c Hc) as Hlt.
  pose proof (ascii_cases (fun c => implb (is_word c) (is_name_char c))
                ltac:(by vm_compute) c Hlt) as Himp.
  simpl in Himp. by rewrite Hc in Himp.
Qed.

Lemma is_name_start_char_word (c : char) :
  is_word c = true -> is_name_start_char c = negb (is_digit c).
Proof.
  intros Hc. pose proof (is_word_ascii c Hc) as Hlt.
  pose proof (ascii_cases
                (fun c => implb (is_word c)
                            (bool_decide
                               (is_name_start_char c = negb (is_digit c))))
                ltac:(by vm_compute) c Hlt) as Himp.
  simpl in Himp. rewrite Hc in Himp. by apply bool_decide_eq_true in Himp.
Qed.

Lemma is_name_pair_ascii (c d : char) : c < 128 -> is_name_pair c d = false.
Proof.
  intros Hc. unfold is_name_pair, between.
  apply andb_false_iff. left. apply andb_false_iff. left.
  apply N.leb_gt. lia.
Qed.

Lemma name_chars_all (s : jsstring) :
  forallb is_name_char s = true -> name_chars s = true.
Proof.
  induction s as [|c s IH]; [done|]. cbn [forallb name_chars].
  intros [-> Hs]%andb_true_iff. by apply IH.
Qed.

(** A run of word characters is a name for the DOM unless it is empty
    or starts with a digit. *)
Lemma valid_name_word (tag : jsstring) :
  forallb is_word tag = true ->
  valid_name tag = nonempty tag && negb (starts_with_digit tag).
Proof.
  destruct tag as [|c tag]; [done|]. cbn [forallb valid_name nonempty
    starts_with_digit andb].
  intros [Hc Htag]%andb_true_iff.
  rewrite (is_name_start_char_word c Hc).
  destruct (is_digit c); cbn [negb].
  - destruct tag as [|d tag]; [done|].
    by rewrite (is_name_pair_ascii c d (is_word_ascii c Hc)).
  - apply name_chars_all.
    by apply (forallb_impl is_word); [apply is_name_char_word|].
Qed.

Lemma first_word_word (line : jsstring) : forallb is_word (first_word line) = true.
Proof.
  unfold first_word. generalize (dropWhile (fun c => negb (is_word c)) line).
  intros l. induction l as [|c l IH]; [done|]. cbn [takeWhile].
  destruct (is_word c) eqn:Hc; [|done]. cbn [forallb]. by rewrite Hc, IH.
Qed.

Section Lines.
Context {Callback Options : Type}.
Variable decode : jsstring -> jsstring.
Abbreviation Builder := (@HTMLBuilder Callback Options).
Abbreviation DOMElement := (@Element Callback Options).

Lemma tagName_foldl {A} (f : DOMElement -> A -> DOMElement) (l : list A) e :
  (forall e x, tagName (f e x) = tagName e) ->
  tagName (foldl f e l) = tagName e.
Proof.
  intros Hf. revert e. induction l as [|x l IH]; intros e; simpl; [done|].
  by rewrite IH.
Qed.

Lemma tagName_when {A} (x : option A) f (e : DOMElement) :
  (forall v e, tagName (f v e) = tagName e) ->
  tagName (when x f e) = tagName e.
Proof. intros Hf. destruct x; simpl; [apply Hf|done]. Qed.

Lemma localName_createElement (tag : jsstring) (e : DOMElement) :
  createElement tag = Normal e -> localName e = ascii_lowercase tag.
Proof.
  unfold createElement. destruct (valid_name tag); [|done].
  by intros [= <-].
Qed.

(** The attributes: [setAttribute] raises [InvalidCharacterError] or
    returns the element with its tag. *)
Lemma setAttribute_cases (n v : jsstring) (e : DOMElement) :
  if valid_name n
  then exists e', setAttribute n v e = Normal e' /\ tagName e' = tagName e
  else setAttribute n v e = Throw InvalidCharacterError.
Proof.
  unfold setAttribute. destruct (valid_name n); [|done].
  destruct e. by eexists.
Qed.

Lemma set_attribute_entry_cases (e : DOMElement) (attr : jsstring) :
  set_attribute_entry e attr = Throw InvalidCharacterError
  \/ exists e', set_attribute_entry e attr = Normal e'
                /\ tagName e' = tagName e.
Proof.
  unfold set_attribute_entry.
  destruct (starts_with_digit attr); [right; by exists e|].
  destruct (includes _ _).
  - match goal with
    | |- context [setAttribute ?n ?v e] =>
        pose proof (setAttribute_cases n v e) as H;
        destruct (valid_name n); [by right|by left]
    end.
  - pose proof (setAttribute_cases (trim attr) [] e) as H.
    destruct (valid_name (trim attr)); [by right|by left].
Qed.

Lemma set_attributes_cases (attrs : list jsstring) (e : DOMElement) :
  set_attributes attrs e = Throw InvalidCharacterError
  \/ exists e', set_attributes attrs e = Normal e'
                /\ tagName e' = tagName e.
Proof.
  revert e. induction attrs as [|attr attrs IH]; intros e.
  - right. by exists e.
  - cbn [set_attributes].
    destruct (set_attribute_entry_cases e attr) as [->|(e' & -> & Htag)];
      [by left|].
    cbn [mbind completion_bind]. rewrite <- Htag. apply IH.
Qed.

(** What [_createElementFromLine] comes to once the tag is known: the
    parse error without a tag, [InvalidCharacterError] when the tag is
    no name, and otherwise that error from an attribute or an element
    with the tag. *)
Lemma createElementFromLine_tag (this : Builder) (line : jsstring) :
  match truthy (group (default [] (exec REGEX line)) 1) with
  | None => _createElementFromLine decode this line
            = Throw (parse_error line)
  | Some tag =>
      if valid_name tag
      then _createElementFromLine decode this line
           = Throw InvalidCharacterError
           \/ exists element,
               _createElementFromLine decode this line = Normal element
               /\ tagName element = tag
      else _createElementFromLine decode this line
           = Throw InvalidCharacterError
  end.
Proof.
  unfold _createElementFromLine.
  destruct (truthy (group _ 1)) as [tag|]; [|done].
  unfold createElement. destruct (valid_name tag); [|done].
  cbn [mbind completion_bind].
  set (e1 := when _ add_classes (new_element tag)).
  assert (tagName e1 = tag) as Htag1.
  { subst e1. rewrite tagName_when; [done|].
    intros cs e. unfold add_classes. apply tagName_foldl.
    intros e' c. destruct (starts_with_digit c); [done|by destruct e']. }
  assert (forall e2 : DOMElement, tagName e2 = tag ->
            exists element,
              Normal
                (when
                   ((fun m => List.filter nonempty (split (lit ";") m))
                      <$> truthy (group (default [] (exec REGEX line)) 6))
                   (add_events this)
                   (when (truthy (group (default [] (exec REGEX line)) 4))
                      (fun c => appendChild (TextNode (decode c)))
                      (when
                         (truthy
                            (remove_first (lit "#")
                               <$> truthy
                                     (group (default [] (exec REGEX line))
                                        3)))
                         set_id e2)))
              = Normal element /\ tagName element = tag) as Hrest.
  { intros e2 Htag2. eexists. split; [done|].
    rewrite !tagName_when; [done|..].
    - intros v e. by destruct e.
    - intros c e. by destruct e.
    - intros evs e. unfold add_events. apply tagName_foldl.
      intros e' n. destruct (starts_with_digit n); [done|].
      destruct (_searchForEvent _ _); [by destruct e'|done]. }
  destruct (_ <$> truthy (group _ 5)) as [attrs|].
  - destruct (set_attributes_cases attrs e1) as [->|(e2 & -> & Htag2)];
      [by left|].
    right. cbn [mbind completion_bind]. apply Hrest. congruence.
  - right. cbn [mbind completion_bind]. by apply Hrest.
Qed.

Lemma tagName_createElementFromLine (this : Builder) line element :
  _createElementFromLine decode this line = Normal element ->
  truthy (group (default [] (exec REGEX line)) 1) = Some (tagName element).
Proof.
  intros Helement.
  pose proof (createElementFromLine_tag this line) as Hcases.
  rewrite Helement in Hcases.
  destruct (truthy (group _ 1)) as [tag|]; [|done].
  destruct (valid_name tag); [|done].
  destruct Hcases as [?|(e & [= <-] & <-)]; done.
Qed.

Lemma createElementFromLine_not_OutOfFuel (this : Builder) line :
  _createElementFromLine decode this line ≠ OutOfFuel.
Proof.
  pose proof (createElementFromLine_tag this line) as Hcases.
  destruct (truthy (group _ 1)) as [tag|]; [|by rewrite Hcases].
  destruct (valid_name tag); [|by rewrite Hcases].
  by destruct Hcases as [->|(e & -> & _)].
Qed.

(** The outcome for a line with a word character. *)
Lemma createElementFromLine_word (this : Builder) line :
  existsb is_word line = true ->
  if starts_with_digit (first_word line)
  then _createElementFromLine decode this line
       = Throw InvalidCharacterError
  else _createElementFromLine decode this line
       = Throw InvalidCharacterError
       \/ exists element,
           _createElementFromLine decode this line = Normal element
           /\ tagName element = first_word line.
Proof.
  intros Hex.
  destruct (exec_REGEX_word line Hex) as (res & Hres & Hg).
  pose proof (first_word_nonempty line Hex) as Hne.
  pose proof (createElementFromLine_tag this line) as Hcases.
  rewrite Hres in Hcases. change (default [] (Some res)) with res in Hcases.
  rewrite Hg in Hcases. pose proof (first_word_word line) as Hword.
  destruct (first_word line) as [|c w]; [done|].
  cbn [truthy] in Hcases. rewrite (valid_name_word _ Hword) in Hcases.
  cbn [nonempty andb] in Hcases.
  by destruct (starts_with_digit (c :: w)).
Qed.

Lemma createElementFromLine_no_word (this : Builder) line :
  existsb is_word line = false ->
  _createElementFromLine decode this line = Throw (parse_error line).
Proof.
  intros Hex. unfold _createElementFromLine.
  rewrite exec_REGEX_no_word; [done|].
  clear -Hex. induction line as [|c line IH]; [done|].
  simpl in *. apply orb_false_iff in Hex as [-> Hex]. by apply IH.
Qed.


(** C5, as the code has it. Of an entry that does not start with a
    digit, trimmed: without [=] it gives an attribute of that name with
    an empty value; with one [=] the value is what follows it; with
    more the value is what stands between the first [=] and the second. *)
Theorem set_attribute_entry_value (element : DOMElement)
  (attr n v : jsstring) :
  starts_with_digit attr = false ->
  includes n (lit "=") = false ->
  includes v (lit "=") = false ->
  (trim attr = n ->
   set_attribute_entry element attr = setAttribute n [] element)
  /\ (trim attr = n ++ lit "=" ++ v ->
      set_attribute_entry element attr = setAttribute n v element)
  /\ (forall more,
        trim attr = n ++ lit "=" ++ v ++ lit "=" ++ more ->
        set_attribute_entry element attr = setAttribute n v element).
Proof.
  intros Hdigit Hn Hv. unfold set_attribute_entry. rewrite Hdigit.
  change (lit "=") with [61%N] in *.
  assert (forall rest, includes (n ++ [61%N] ++ rest) [61%N] = true) as Hinc.
  { intros rest. rewrite includes_single, existsb_app. simpl.
    by rewrite orb_true_r. }
  assert (forall rest,
             split [61%N] (n ++ [61%N] ++ v ++ rest)
             = n :: split_from [61%N] 0 v rest) as Hsplit.
  { intros rest. unfold split. rewrite split_from_no_sep by done.
    simpl app. rewrite split_from_single, N.eqb_refl.
    by rewrite split_from_no_sep. }
  split; [|split].
  - intros ->. by rewrite Hn.
  - intros ->. rewrite Hinc.
    specialize (Hsplit []). rewrite app_nil_r in Hsplit.
    by rewrite Hsplit.
  - intros more ->. rewrite Hinc, Hsplit. simpl app.
    by rewrite split_from_single, N.eqb_refl.
Qed.

(** C2. The template of the second scenario, rendered into a parent
    without children by a builder whose decoder leaves plain words as
    they are, gives one [ul]; its children are the [li] of text "A",
    which has the [li] of text "B" for only child element, and the [li]
    of text "C". (A text is the last child node of its element: the
    elements are prepended before it.) *)
Theorem generate_nested_list (this : Builder) :
  childNodes (parent this) = [] ->
  (forall s, forallb is_word s = true -> decode s = s) ->
  let li := fun text inner =>
    mkElement (lit "li") [] [] [] [] (inner ++ [TextNode (lit text)]) in
  let ul :=
    mkElement (lit "ul") [] [] [] []
      [ElementNode (li "A"%string [ElementNode (li "B"%string [])]);
       ElementNode (li "C"%string [])] in
  generate decode this
    (lit "ul" ++ [LF] ++ lit ">li(A)" ++ [LF] ++ lit ">>li(B)" ++ [LF]
       ++ lit ">li(C)")
  = (Normal (), parent_appendChild this ul)
  /\ childNodes (parent (parent_appendChild this ul)) = [ElementNode ul]
  /\ children ul
     = [li "A"%string [ElementNode (li "B"%string [])]; li "C"%string []]
  /\ children (li "A"%string [ElementNode (li "B"%string [])])
     = [li "B"%string []]
  /\ texts (li "A"%string [ElementNode (li "B"%string [])]) = [lit "A"]
  /\ children (li "B"%string []) = [] /\ texts (li "B"%string []) = [lit "B"]
  /\ children (li "C"%string []) = [] /\ texts (li "C"%string []) = [lit "C"].
Proof.
  intros Hempty Hdecode li ul.
  destruct this as [symbol events [t cl i a l n]]. simpl in Hempty.
  subst n. split; [|by repeat split].
  vm_compute.
  by rewrite !Hdecode by reflexivity.
Qed.

Lemma create_children_not_OutOfFuel (this : Builder) block :
  create_children decode this block ≠ OutOfFuel.
Proof.
  induction block as [|line block IH]; [done|]. cbn [create_children].
  pose proof (createElementFromLine_not_OutOfFuel this line) as Hline.
  destruct (_createElementFromLine decode this line); [|done..].
  cbn [mbind completion_bind].
  by destruct (create_children decode this block).
Qed.

Lemma generate_mains_not_OutOfFuel (this : Builder) lines mainLines :
  (generate_mains decode this lines mainLines).1 ≠ OutOfFuel.
Proof.
  revert this. induction mainLines as [|[mainLine mainLevel] rest IH];
    intros this; [done|].
  simpl.
  destruct (_createElementFromLine decode this mainLine)
    as [mainElement| |] eqn:Hmain; simpl; [|done|].
  - pose proof (create_children_not_OutOfFuel this
                  (slice (mainLevel + 1)
                     match rest with
                     | [] => length lines
                     | next :: _ => next.2
                     end lines)) as Hchildren.
    destruct (create_children _ _ _) as [childrenElements| |];
      simpl; [|done|done].
    destruct (reconstruct_enough_fuel prepend mainElement childrenElements 0)
      as [result Hresult].
    rewrite Nat.add_0_r in Hresult. rewrite Hresult. apply IH.
  - by apply createElementFromLine_not_OutOfFuel in Hmain.
Qed.

(** The loops of the model are given enough iterations. *)
Lemma generate_never_OutOfFuel (this : Builder) template :
  (generate decode this template).1 ≠ OutOfFuel.
Proof.
  unfold generate. destruct (_ =? _)%nat; [done|].
  apply generate_mains_not_OutOfFuel.
Qed.
End Lines.

(** ** [indentTemplate] *)

Lemma includes_absent (c : N) (s : jsstring) :
  c ∉ s -> includes s [c] = false.
Proof.
  rewrite includes_single. induction s as [|x s IH]; [done|].
  intros Hc. apply not_elem_of_cons in Hc as [Hne Hc]. simpl.
  rewrite IH by done. by apply N.eqb_neq in Hne as ->.
Qed.

(** The pieces of a split have no separator in them. *)
Lemma split_from_pieces (c : N) cur s :
  c ∉ cur -> Forall (fun x => c ∉ x) (split_from [c] 0 cur s).
Proof.
  revert cur. induction s as [|x s IH]; intros cur Hcur.
  - by constructor.
  - rewrite split_from_single. destruct (N.eqb_spec c x) as [->|Hne].
    + constructor; [done|]. apply IH. apply not_elem_of_nil.
    + apply IH. rewrite elem_of_app, list_elem_of_singleton. tauto.
Qed.

Lemma split_pieces (c : N) s : Forall (fun x => c ∉ x) (split [c] s).
Proof. apply split_from_pieces, not_elem_of_nil. Qed.

Lemma split_from_sep (c : N) cur s :
  split_from [c] 0 cur (c :: s) = cur :: split_from [c] 0 [] s.
Proof. rewrite split_from_single. by rewrite N.eqb_refl. Qed.

(** Splitting what was joined gives the lines back. *)
Lemma split_from_join cur y Y :
  Forall (fun x => LF ∉ x) (y :: Y) ->
  split_from [LF] 0 cur (join_lines (y :: Y)) = (cur ++ y) :: Y.
Proof.
  revert cur y. induction Y as [|y' Y IH]; intros cur y Hall.
  - apply Forall_cons in Hall as [Hy _]. simpl.
    rewrite <- (app_nil_r y) at 1.
    rewrite split_from_no_sep by (by apply includes_absent). done.
  - apply Forall_cons in Hall as [Hy Hall].
    change (join_lines (y :: y' :: Y))
      with (y ++ [LF] ++ join_lines (y' :: Y)).
    rewrite split_from_no_sep by (by apply includes_absent).
    change ([LF] ++ join_lines (y' :: Y)) with (LF :: join_lines (y' :: Y)).
    rewrite split_from_sep. by rewrite IH.
Qed.

Lemma join_lines_nonempty y Y : y ≠ [] -> join_lines (y :: Y) ≠ [].
Proof. destruct Y; simpl; [done|]. by destruct y. Qed.

(** Trimming the lines that [indentTemplate] has put end to end, each
    with its line feed, takes the last line feed away. *)
Lemma trimEnd_lines Y :
  Forall (fun y => trimEnd y = y /\ y ≠ []) Y ->
  trimEnd (concat ((fun y => y ++ [LF]) <$> Y)) = join_lines Y.
Proof.
  induction Y as [|y Y IH]; intros Hall; [done|].
  apply Forall_cons in Hall as [[Hy Hne] Hall].
  destruct Y as [|y' Y].
  - simpl. rewrite app_nil_r. by apply trimEnd_line_feed.
  - change (concat ((fun y => y ++ [LF]) <$> y :: y' :: Y))
      with ((y ++ [LF]) ++ concat ((fun y => y ++ [LF]) <$> y' :: Y)).
    specialize (IH Hall).
    rewrite trimEnd_app; rewrite IH.
    + by rewrite <- app_assoc.
    + apply Forall_cons in Hall as [[_ Hne'] _].
      by apply join_lines_nonempty.
Qed.

Lemma trim_lines Y :
  Forall (fun y => trim y = y /\ y ≠ []) Y ->
  trim (concat ((fun y => y ++ [LF]) <$> Y)) = join_lines Y.
Proof.
  intros Hall.
  assert (Forall (fun y => trimEnd y = y /\ y ≠ []) Y) as Hall'.
  { eapply Forall_impl; [done|]. intros y [Hy Hne]. split; [|done].
    rewrite <- Hy at 1. by rewrite trimEnd_trim. }
  rewrite <- trimEnd_lines by done.
  destruct Y as [|y Y]; [done|].
  apply Forall_cons in Hall as [[Hy Hne] _].
  unfold trim at 1. f_equal. unfold trimStart.
  rewrite trim_unfold in Hy.
  destruct (trimStart y) as [|c rest] eqn:Hs; [by rewrite <- Hy in Hne|].
  apply trimStart_head in Hs. rewrite <- Hy. simpl. by rewrite Hs.
Qed.

(** The loop of [_extractLinesFrom] is given enough iterations: more of
    them change nothing. *)
Lemma extract_loop_enough fuel extra i lines :
  (length lines - i <= fuel)%nat ->
  extract_loop (fuel + extra) i lines = extract_loop fuel i lines.
Proof.
  revert i lines. induction fuel as [|fuel IH]; intros i lines Hfuel.
  - destruct extra as [|extra]; [done|]. simpl.
    by rewrite (proj2 (Nat.ltb_ge _ _)) by lia.
  - simpl. destruct (Nat.ltb_spec i (length lines)) as [Hi|Hi]; [|done].
    apply IH.
    destruct (alter trim i lines !! i) as [[|]|] eqn:Hlookup;
      rewrite ?length_delete, ?length_alter; try lia.
    by eexists.
Qed.

Lemma extract_loop_past fuel i lines :
  (length lines <= i)%nat -> extract_loop fuel i lines = lines.
Proof.
  intros Hi. destruct fuel as [|fuel]; [done|]. simpl.
  by rewrite (proj2 (Nat.ltb_ge _ _)) by lia.
Qed.

Lemma extract_loop_extracted fuel pre rest :
  (length rest <= fuel)%nat ->
  extract_loop fuel (length pre) (pre ++ rest) = pre ++ extracted rest.
Proof.
  revert pre rest. induction fuel as [|fuel IH]; intros pre rest Hfuel.
  - destruct rest; [done|simpl in Hfuel; lia].
  - destruct rest as [|line rest].
    + apply extract_loop_past. rewrite length_app. simpl. lia.
    + cbn [extract_loop].
      rewrite (proj2 (Nat.ltb_lt _ _)) by (rewrite length_app; simpl; lia).
      assert (alter trim (length pre) (pre ++ line :: rest)
              = pre ++ trim line :: rest) as ->.
      { rewrite alter_app_r_alt by lia. by rewrite Nat.sub_diag. }
      rewrite list_lookup_middle by done. simpl in Hfuel. simpl.
      destruct (trim line) as [|c s].
      * rewrite delete_middle. destruct rest as [|next rest].
        -- apply extract_loop_past. rewrite length_app. simpl. lia.
        -- replace (length pre + 1)%nat with (length (pre ++ [next]))
             by (rewrite length_app; simpl; lia).
           rewrite (cons_middle next pre rest), app_assoc.
           rewrite IH by (simpl in Hfuel; lia).
           by rewrite <- app_assoc.
      * replace (length pre + 1)%nat with (length (pre ++ [c :: s]))
          by (rewrite length_app; simpl; lia).
        rewrite (cons_middle (c :: s) pre rest), app_assoc.
        rewrite IH by lia. by rewrite <- app_assoc.
Qed.

(** The lines of a template: a line that follows a blank line takes the
    place of that line and is never looked at, be it blank or indented. *)
Lemma extractLinesFrom_extracted template :
  _extractLinesFrom template = extracted (split [LF] (trim template)).
Proof.
  unfold _extractLinesFrom. by apply (extract_loop_extracted _ []).
Qed.

(** The loop of [_extractLinesFrom] leaves lines that are trimmed and not
    empty as they are, and keeps what is true of all the lines and of
    their trimmed forms. *)
Lemma extract_loop_id fuel i lines :
  Forall (fun y => trim y = y /\ y ≠ []) lines ->
  extract_loop fuel i lines = lines.
Proof.
  intros Hall. revert i. induction fuel as [|fuel IH]; intros i; [done|].
  simpl. destruct (i <? length lines)%nat eqn:Hi; [|done].
  apply Nat.ltb_lt in Hi.
  destruct (lookup_lt_is_Some_2 lines i Hi) as [y Hy].
  assert (trim y = y /\ y ≠ []) as [Htrim Hne].
  { rewrite Forall_forall in Hall. apply Hall.
    by apply list_elem_of_lookup_2 in Hy. }
  assert (alter trim i lines = lines) as ->.
  { apply list_eq. intros j. destruct (decide (i = j)) as [<-|Hne'].
    - rewrite list_lookup_alter_eq, Hy. simpl. by rewrite Htrim.
    - by rewrite list_lookup_alter_ne. }
  rewrite Hy. destruct y; [done|]. apply IH.
Qed.

Lemma extract_loop_Forall (P : jsstring -> Prop) fuel i lines :
  (forall y, P y -> P (trim y)) ->
  Forall P lines -> Forall P (extract_loop fuel i lines).
Proof.
  intros Htrim. revert i lines.
  induction fuel as [|fuel IH]; intros i lines Hall; [done|].
  simpl. destruct (i <? length lines)%nat; [|done].
  assert (Forall P (alter trim i lines)) as Hall'.
  { rewrite Forall_lookup in *. intros j y.
    destruct (decide (i = j)) as [<-|Hne].
    - rewrite list_lookup_alter_eq.
      destruct (lines !! i) as [z|] eqn:Hz; [|done].
      intros [= <-]. apply Htrim. by eapply Hall.
    - rewrite list_lookup_alter_ne by done. apply Hall. }
  apply IH. destruct (alter trim i lines !! i) as [[|]|]; [|done..].
  by apply Forall_delete.
Qed.

Lemma extractLinesFrom_no_line_feed template :
  Forall (fun y => LF ∉ y) (_extractLinesFrom template).
Proof.
  unfold _extractLinesFrom. apply extract_loop_Forall.
  - intros y Hy Hin. by apply elem_of_trim in Hin.
  - apply split_pieces.
Qed.

Lemma foldl_append {B} (f : B -> jsstring) (l : list B) (acc : jsstring) :
  foldl (fun acc x => acc ++ f x) acc l = acc ++ concat (f <$> l).
Proof.
  revert acc. induction l as [|x l IH]; intros acc; simpl.
  - by rewrite app_nil_r.
  - by rewrite IH, app_assoc.
Qed.

(** What [indentTemplate] returns, for an indentation that is not 0. *)
Lemma indentTemplate_join template n :
  indentTemplate template (S n)
  = join_lines ((fun line => replicate (S n) GT ++ trim line)
                  <$> _extractLinesFrom template).
Proof.
  unfold indentTemplate. rewrite foldl_append. simpl app.
  rewrite <- trim_lines.
  - f_equal. rewrite <- list_fmap_compose. f_equal.
    apply list_fmap_ext. intros i line _. simpl.
    by rewrite <- app_assoc.
  - apply Forall_fmap, Forall_forall. intros line _. simpl.
    split; [|done]. apply (trim_indented n).
Qed.

(** The lines of a joined text are the lines that were joined. *)
Lemma extractLinesFrom_join Y :
  Forall (fun y => trim y = y /\ y ≠ [] /\ LF ∉ y) Y ->
  _extractLinesFrom (join_lines Y) = Y.
Proof.
  intros Hall. unfold _extractLinesFrom.
  assert (Forall (fun y => trim y = y /\ y ≠ []) Y) as Hall1.
  { apply (Forall_impl _ _ _ Hall). by intros y (? & ? & ?). }
  assert (Forall (fun y => LF ∉ y) Y) as Hall2.
  { apply (Forall_impl _ _ _ Hall). by intros y (? & ? & ?). }
  rewrite <- (trim_lines Y) by done. rewrite trim_idemp.
  rewrite trim_lines by done.
  destruct Y as [|y Y]; [done|].
  unfold split. rewrite split_from_join by done. simpl app.
  by apply extract_loop_id.
Qed.

(** C6. Indenting by 1 twice is indenting by 2: the two templates are the
    same text, so they have the same lines, with the same number of
    leading [>] each. *)
Theorem indentTemplate_twice (t : jsstring) :
  indentTemplate (indentTemplate t 1) 1 = indentTemplate t 2
  /\ _extractLinesFrom (indentTemplate (indentTemplate t 1) 1)
     = _extractLinesFrom (indentTemplate t 2)
  /\ _level <$> _extractLinesFrom (indentTemplate (indentTemplate t 1) 1)
     = _level <$> _extractLinesFrom (indentTemplate t 2).
Proof.
  assert (indentTemplate (indentTemplate t 1) 1 = indentTemplate t 2) as ->;
    [|done].
  rewrite (indentTemplate_join t 0), (indentTemplate_join _ 0),
    (indentTemplate_join t 1).
  rewrite extractLinesFrom_join.
  - f_equal. rewrite <- list_fmap_compose.
    apply list_fmap_ext. intros i line _. unfold compose.
    by rewrite (trim_indented 0).
  - apply Forall_fmap, Forall_forall. intros line Hline. unfold compose.
    split; [apply (trim_indented 0)|]. split; [done|].
    pose proof (extractLinesFrom_no_line_feed t) as Hlf.
    rewrite Forall_forall in Hlf. specialize (Hlf line Hline).
    intros Hin. apply elem_of_cons in Hin as [?|Hin]; [done|].
    by apply elem_of_trim in Hin.
Qed.

(** * Further properties of the builder *)

(** ** The event registry, continued *)

Section RegistryMore.
Context {Callback Options : Type}.
Variable decode : jsstring -> jsstring.
Abbreviation Builder := (@HTMLBuilder Callback Options).
Abbreviation Binding := (@Event Callback Options).
Abbreviation DOMElement := (@Element Callback Options).

Lemma search_events_elem_of (key : jsstring) (events : list Binding) found :
  search_events key events = Some found ->
  found ∈ events /\ name found = Some key.
Proof.
  induction events as [|e events IH]; simpl; [done|].
  destruct (bool_decide_reflect (name e = Some key)) as [He|He].
  - intros [= <-]. split; [left|done].
  - intros Hfound. destruct (IH Hfound). split; [by right|done].
Qed.

(** X3. [_searchForEvent] returns the first binding of the registry
    whose stored name is the key, and [null] exactly when no binding
    has that name. *)
Theorem searchForEvent_first_match (this : Builder) (key : jsstring) :
  match _searchForEvent this key with
  | Some found =>
      exists before after,
        EVENTS this = before ++ found :: after
        /\ name found = Some key
        /\ Forall (fun e => name e ≠ Some key) before
  | None => Forall (fun e => name e ≠ Some key) (EVENTS this)
  end.
Proof.
  unfold _searchForEvent.
  induction (EVENTS this) as [|e events IH]; simpl; [done|].
  destruct (bool_decide_reflect (name e = Some key)) as [He|He].
  - by exists [], events.
  - destruct (search_events key events) as [found|].
    + destruct IH as (before & after & -> & Hname & Hbefore).
      exists (e :: before), after. by repeat split; [|constructor].
    + by constructor.
Qed.

Lemma listeners_foldl {A} (f : DOMElement -> A -> DOMElement) (l : list A)
  e :
  (forall e x, listeners (f e x) = listeners e) ->
  listeners (foldl f e l) = listeners e.
Proof.
  intros Hf. revert e. induction l as [|x l IH]; intros e; simpl; [done|].
  by rewrite IH.
Qed.

Lemma listeners_when {A} (x : option A) f (e : DOMElement) :
  (forall v e, listeners (f v e) = listeners e) ->
  listeners (when x f e) = listeners e.
Proof. intros Hf. destruct x; simpl; [apply Hf|done]. Qed.

Lemma listeners_add_events (P : Listener -> Prop) (this : Builder)
  names (e : DOMElement) :
  (forall event,
      event ∈ EVENTS this ->
      P (type event, callback event, options event)) ->
  Forall P (listeners e) ->
  Forall P (listeners (add_events this names e)).
Proof.
  intros HP. unfold add_events. revert e.
  induction names as [|n names IH]; intros e He; simpl; [done|].
  apply IH. destruct (starts_with_digit n); [done|].
  destruct (_searchForEvent this n) as [event|] eqn:Hfound; [|done].
  apply search_events_elem_of in Hfound as [Hin _].
  destruct e as [t cl i a l ns]. simpl in *.
  apply Forall_app. split; [done|]. constructor; [by apply HP|done].
Qed.

Lemma listeners_set_attributes (attrs : list jsstring) (e e' : DOMElement) :
  set_attributes attrs e = Normal e' -> listeners e' = listeners e.
Proof.
  revert e. induction attrs as [|attr attrs IH]; intros e.
  - by intros [= <-].
  - cbn [set_attributes].
    destruct (set_attribute_entry e attr) as [e1| |] eqn:Hentry; [|done..].
    cbn [mbind completion_bind]. intros Hrest. rewrite (IH _ Hrest).
    revert Hentry. unfold set_attribute_entry, setAttribute.
    destruct (starts_with_digit attr); [by intros [= <-]|].
    destruct e as [t cl i a l ns].
    destruct (includes _ _); destruct (valid_name _); by intros [= <-].
Qed.

(** The steps after the attributes: the id and the content add no
    listener, the events add listeners of the registry. *)
Lemma listeners_after_attributes (this : Builder) (e : DOMElement)
  (id content : option jsstring) (events : option (list jsstring)) :
  listeners e = [] ->
  Forall (fun l => exists event,
              event ∈ EVENTS this
              /\ l = (type event, callback event, options event))
    (listeners
       (when events (add_events this)
          (when content (fun c => appendChild (TextNode (decode c)))
             (when id set_id e)))).
Proof.
  intros He.
  assert (listeners
            (when content (fun c => appendChild (TextNode (decode c)))
               (when id set_id e)) = []) as Hinner.
  { rewrite !listeners_when; [done|..].
    - intros v [t cl i a l ns]. done.
    - intros c [t cl i a l ns]. done. }
  destruct events as [names|]; simpl.
  - apply listeners_add_events; [by eauto|]. by rewrite Hinner.
  - by rewrite Hinner.
Qed.

(** X4. Every listener of an element created from a line is the type,
    callback and options of a binding of the registry: a name that
    resolves to nothing adds no listener, and with an empty registry
    (as [clearEvents] leaves it) no element has a listener. *)
Theorem createElementFromLine_listeners (this : Builder) (line : jsstring)
  (element : DOMElement) :
  _createElementFromLine decode this line = Normal element ->
  Forall (fun l => exists event,
              event ∈ EVENTS this
              /\ l = (type event, callback event, options event))
    (listeners element)
  /\ (EVENTS this = [] -> listeners element = []).
Proof.
  intros Hline.
  assert (Forall (fun l => exists event,
                      event ∈ EVENTS this
                      /\ l = (type event, callback event, options event))
            (listeners element)) as Hall.
  { revert Hline. unfold _createElementFromLine.
    destruct (truthy (group _ 1)) as [tagname|]; [|done].
    unfold createElement. destruct (valid_name tagname); [|done].
    cbn [mbind completion_bind].
    set (e1 := when _ add_classes (new_element tagname)).
    assert (listeners e1 = []) as He1.
    { subst e1. rewrite listeners_when; [done|].
      intros classes e. apply listeners_foldl.
      intros [t cl i a l ns] c. by destruct (starts_with_digit c). }
    destruct (_ <$> truthy (group _ 5)) as [attrs|].
    - destruct (set_attributes attrs e1) as [e2| |] eqn:Hattrs; [|done..].
      apply listeners_set_attributes in Hattrs. rewrite He1 in Hattrs.
      cbn [mbind completion_bind]. intros [= <-].
      by apply listeners_after_attributes.
    - cbn [mbind completion_bind]. intros [= <-].
      by apply listeners_after_attributes. }
  split; [done|]. intros Hempty. rewrite Hempty in Hall.
  destruct (listeners element) as [|l ls]; [done|].
  apply Forall_cons in Hall as [(event & Hin & _) _].
  by apply elem_of_nil in Hin.
Qed.
End RegistryMore.

(** ** The registry, with the event objects shared *)

Section SharedRegistryFacts.
Context {Callback Options : Type}.
Abbreviation Builder := (@HTMLBuilder Callback Options).
Abbreviation Binding := (@Event Callback Options).
Abbreviation Registry := (@SharedRegistry Callback Options).

Lemma search_events_app (key : jsstring) (events more : list Binding) :
  search_events key (events ++ more)
  = match search_events key events with
    | Some found => Some found
    | None => search_events key more
    end.
Proof.
  induction events as [|e events IH]; simpl; [done|].
  by destruct (bool_decide (name e = Some key)).
Qed.

(** Writing to an object leaves the reading of the addresses of the
    other objects as it was. *)
Lemma omap_insert_fresh (store : list Binding) (a : nat) (x : Binding)
  (addrs : list nat) :
  a ∉ addrs ->
  omap (fun b => <[a := x]> store !! b) addrs
  = omap (fun b => store !! b) addrs.
Proof.
  induction addrs as [|b addrs IH]; [done|].
  intros [Hne Hrest]%not_elem_of_cons. simpl.
  rewrite list_lookup_insert_ne by done.
  change (list_omap nat Binding ?f ?l) with (omap f l).
  by rewrite IH.
Qed.

Lemma omap_singleton {A B} (f : A -> option B) (a : A) :
  omap f [a] = match f a with Some y => [y] | None => [] end.
Proof. reflexivity. Qed.

Lemma lookup_insert_object (store : list Binding) (a : nat)
  (old x : Binding) :
  store !! a = Some old -> <[a := x]> store !! a = Some x.
Proof.
  intros Hold. apply list_lookup_insert_eq.
  by apply lookup_lt_Some in Hold.
Qed.

(** X1. [bindEvent] on an object that the registry does not hold
    already is [bindEvent] by value: the two throw the same error or
    both return, and the events of the registry with shared objects,
    read after the call, are the registry of the builder. *)
Theorem bindEvent_by_value (this : Registry) (builder : Builder)
  (address : nat) (event : Binding) :
  objects this !! address = Some event ->
  address ∉ addresses this ->
  EVENTS builder = events_of this ->
  (bindEvent_object this address).1 = (bindEvent builder event).1
  /\ events_of (bindEvent_object this address).2
     = EVENTS (bindEvent builder event).2.
Proof.
  intros Hobject Hfresh Hevents.
  unfold bindEvent_object, bindEvent. rewrite Hobject.
  destruct (missing (name event)); [done|].
  destruct (missing (type event)); [done|].
  destruct (callback event) as [f|] eqn:Hcallback; [|done].
  split; [done|]. cbn [snd EVENTS]. unfold events_of.
  cbn [objects addresses]. rewrite omap_app, Hevents, omap_singleton.
  destruct (name event) as [n|] eqn:Hname.
  - destruct (startsWith n (lit "on")).
    + rewrite omap_insert_fresh by done.
      rewrite (lookup_insert_object _ _ event) by done.
      unfold rename. by rewrite Hcallback.
    + by rewrite Hobject.
  - by rewrite Hobject.
Qed.

(** X2. An object that is bound twice is renamed in the registry by
    the second call. With a name that starts with "onon", the object
    is found under the name less one "on" after the first call; the
    second call strips the other "on" from the object itself, so that
    the registry lists the object twice under the name less both, and
    the name that the first call had stored resolves to nothing. *)
Theorem bindEvent_object_twice (this : Registry) (address : nat)
  (event : Binding) (rest : jsstring) :
  objects this !! address = Some event ->
  address ∉ addresses this ->
  name event = Some (lit "onon" ++ rest) ->
  missing (type event) = false ->
  is_Some (callback event) ->
  search_events (lit "on" ++ rest) (events_of this) = None ->
  let once := (bindEvent_object this address).2 in
  let twice := (bindEvent_object once address).2 in
  (bindEvent_object this address).1 = Normal ()
  /\ (bindEvent_object once address).1 = Normal ()
  /\ events_of once = events_of this ++ [rename (lit "on" ++ rest) event]
  /\ search_events (lit "on" ++ rest) (events_of once)
     = Some (rename (lit "on" ++ rest) event)
  /\ events_of twice
     = events_of this ++ [rename rest event; rename rest event]
  /\ search_events (lit "on" ++ rest) (events_of twice) = None.
Proof.
  intros Hobject Hfresh Hname Htype [f Hcallback] Hsearch.
  assert (bindEvent_object this address
          = (Normal (),
             mkSharedRegistry
               (<[address := rename (lit "on" ++ rest) event]>
                  (objects this))
               (addresses this ++ [address]))) as Hfirst.
  { unfold bindEvent_object. by rewrite Hobject, Hname, Htype, Hcallback. }
  rewrite Hfirst. cbn [fst snd].
  set (once := mkSharedRegistry _ _).
  assert (bindEvent_object once address
          = (Normal (),
             mkSharedRegistry
               (<[address := rename rest event]> (objects this))
               ((addresses this ++ [address]) ++ [address]))) as Hsecond.
  { unfold bindEvent_object. subst once. cbn [objects addresses].
    rewrite (lookup_insert_object _ _ event) by done.
    cbn [rename name type callback options]. rewrite Htype, Hcallback.
    change (missing (Some (lit "on" ++ rest))) with false.
    rewrite startsWith_app, remove_first_app.
    by rewrite list_insert_insert_eq. }
  rewrite Hsecond. cbn [fst snd].
  assert (events_of once
          = events_of this ++ [rename (lit "on" ++ rest) event]) as Hone.
  { unfold events_of. subst once. cbn [objects addresses].
    rewrite omap_app, omap_insert_fresh, omap_singleton by done.
    by rewrite (lookup_insert_object _ _ event). }
  assert (events_of
            (mkSharedRegistry
               (<[address := rename rest event]> (objects this))
               ((addresses this ++ [address]) ++ [address]))
          = events_of this ++ [rename rest event; rename rest event])
    as Htwo.
  { unfold events_of. cbn [objects addresses].
    rewrite !omap_app, omap_insert_fresh, !omap_singleton by done.
    rewrite (lookup_insert_object _ _ event) by done.
    by rewrite <- app_assoc. }
  rewrite Hone, Htwo, !search_events_app, Hsearch.
  repeat split; [|].
  - cbn [search_events rename name]. by rewrite bool_decide_eq_true_2.
  - cbn [search_events rename name].
    rewrite bool_decide_eq_false_2; [done|].
    intros [= Heq]. apply (f_equal length) in Heq.
    simpl in Heq. lia.
Qed.
End SharedRegistryFacts.

(** ** The lines of a template, continued *)

Lemma extracted_no_blank lines :
  Forall (fun line => trim line ≠ []) lines ->
  extracted lines = trim <$> lines.
Proof.
  induction 1 as [|line lines Hline _ IH]; simpl; [done|].
  destruct (trim line) as [|c s]; [done|]. by rewrite IH.
Qed.

(** X5. When no line of the trimmed template is blank, the lines that
    [_extractLinesFrom] returns are the lines of the template, each one
    trimmed, in their order. *)
Theorem extractLinesFrom_no_blank (template : jsstring) :
  Forall (fun line => trim line ≠ []) (split [LF] (trim template)) ->
  _extractLinesFrom template = trim <$> split [LF] (trim template).
Proof.
  intros Hall. rewrite extractLinesFrom_extracted.
  by apply extracted_no_blank.
Qed.

Lemma split_from_head (x : N) cur s :
  exists tl more, split_from [x] 0 cur s = (cur ++ tl) :: more.
Proof.
  revert cur. induction s as [|c s IH]; intros cur.
  - exists [], []. simpl. by rewrite app_nil_r.
  - rewrite split_from_single. destruct (x =? c)%N.
    + exists [], (split_from [x] 0 [] s). by rewrite app_nil_r.
    + destruct (IH (cur ++ [c])) as (tl & more & ->).
      exists (c :: tl), more. by rewrite <- app_assoc.
Qed.

(** The first line is never blank: the template is trimmed before it is
    cut into lines. *)
Lemma extractLinesFrom_head template :
  trim template ≠ [] ->
  exists c tl more,
    _extractLinesFrom template = (c :: tl) :: more
    /\ is_whitespace c = false /\ trim (c :: tl) = c :: tl.
Proof.
  intros Hne. rewrite extractLinesFrom_extracted.
  rewrite trim_unfold in *.
  destruct (trimStart template) as [|c rest] eqn:Hstart; [done|].
  pose proof (trimStart_head _ _ _ Hstart) as Hc.
  unfold split. rewrite split_from_single.
  destruct (LF =? c)%N eqn:Heq.
  { apply N.eqb_eq in Heq. by subst c. }
  destruct (split_from_head LF ([] ++ [c]) (trimEnd rest))
    as (tl & more & ->).
  simpl. rewrite (trim_cons c tl Hc).
  exists c, (trimEnd tl), (extracted more). split; [done|]. split; [done|].
  by rewrite (trim_cons c _ Hc), trimEnd_idemp.
Qed.

(** X6. [_extractLinesFrom] returns no line exactly when the template is
    blank, which is the case in which [generate] returns at once; when it
    is not, the first line is there, trimmed and not empty. No line that
    is returned has a line feed in it. *)
Theorem extractLinesFrom_empty_iff (template : jsstring) :
  (_extractLinesFrom template = [] <-> trim template = [])
  /\ match _extractLinesFrom template with
     | [] => trim template = []
     | first :: _ => first ≠ [] /\ trim first = first
     end
  /\ Forall (fun line => LF ∉ line) (_extractLinesFrom template).
Proof.
  assert (trim template = [] -> _extractLinesFrom template = []) as Hblank.
  { intros Htrim. unfold _extractLinesFrom. by rewrite Htrim. }
  split; [|split].
  - split; [|done].
    intros Hnil. destruct (trim template) as [|c s] eqn:Htrim; [done|].
    destruct (extractLinesFrom_head template) as (c' & tl & more & H & _).
    { by rewrite Htrim. }
    by rewrite H in Hnil.
  - destruct (trim template) as [|c s] eqn:Htrim.
    + by rewrite Hblank.
    + destruct (extractLinesFrom_head template)
        as (c' & tl & more & -> & _ & Hfirst).
      { by rewrite Htrim. }
      done.
  - apply extractLinesFrom_no_line_feed.
Qed.

(** ** [indentTemplate], continued *)

Lemma level_indented (n : nat) (line : jsstring) :
  _level (replicate n GT ++ line) = (Z.of_nat n + _level line)%Z.
Proof.
  induction n as [|n IH]; [done|].
  cbn [replicate app _level]. rewrite N.eqb_refl, IH. lia.
Qed.

Lemma indented_lines template n :
  Forall (fun y => trim y = y /\ y ≠ [] /\ LF ∉ y)
    ((fun line => replicate (S n) GT ++ trim line)
       <$> _extractLinesFrom template).
Proof.
  apply Forall_fmap, Forall_forall. intros line Hline. unfold compose.
  split; [apply (trim_indented n)|]. split; [done|].
  pose proof (extractLinesFrom_no_line_feed template) as Hlf.
  rewrite Forall_forall in Hlf. specialize (Hlf line Hline).
  intros Hin. apply elem_of_app in Hin as [Hin|Hin].
  - by apply elem_of_replicate in Hin as [? _].
  - by apply elem_of_trim in Hin.
Qed.

Lemma extractLinesFrom_indentTemplate template n :
  _extractLinesFrom (indentTemplate template (S n))
  = (fun line => replicate (S n) GT ++ trim line)
      <$> _extractLinesFrom template.
Proof.
  rewrite indentTemplate_join. apply extractLinesFrom_join, indented_lines.
Qed.

(** X7. The lines of a template indented by [n], [n] not 0, are the
    lines of the template, each one trimmed and with [n] more [>] before
    it; no line is added, lost or moved. The level of a line after the
    indentation is [n] more than the level of the line once trimmed.
    That is [n] more than the level that the line has in the template
    when [_extractLinesFrom] has trimmed the line, as it has every line
    of a template without a blank line; a line that it has left
    untrimmed, after a blank line, has the level 0 in the template
    whatever [>] follow its white space, and goes up by more than [n]. *)
Theorem indentTemplate_levels (template : jsstring) (n : nat) :
  _extractLinesFrom (indentTemplate template (S n))
  = (fun line => replicate (S n) GT ++ trim line)
      <$> _extractLinesFrom template
  /\ _level <$> _extractLinesFrom (indentTemplate template (S n))
     = (fun line => (Z.of_nat (S n) + _level (trim line))%Z)
         <$> _extractLinesFrom template
  /\ (Forall (fun line => trim line ≠ []) (split [LF] (trim template)) ->
      _level <$> _extractLinesFrom (indentTemplate template (S n))
      = (fun line => (Z.of_nat (S n) + _level line)%Z)
          <$> _extractLinesFrom template).
Proof.
  assert (_level <$> _extractLinesFrom (indentTemplate template (S n))
          = (fun line => (Z.of_nat (S n) + _level (trim line))%Z)
              <$> _extractLinesFrom template) as Hlevels.
  { rewrite extractLinesFrom_indentTemplate.
    rewrite <- list_fmap_compose. apply list_fmap_ext.
    intros i line _. unfold compose. apply level_indented. }
  split; [apply extractLinesFrom_indentTemplate|]. split; [done|].
  intros Hall. rewrite Hlevels, extractLinesFrom_extracted.
  rewrite extracted_no_blank by done. rewrite <- !list_fmap_compose.
  apply list_fmap_ext. intros i line _. unfold compose.
  by rewrite trim_idemp.
Qed.

(** X8. Indenting by [m] and then by [n], neither being 0, is indenting
    by [m + n]: the two calls give the same text. *)
Theorem indentTemplate_compose (template : jsstring) (m n : nat) :
  indentTemplate (indentTemplate template (S m)) (S n)
  = indentTemplate template (S m + S n).
Proof.
  change (S m + S n)%nat with (S (m + S n)).
  rewrite (indentTemplate_join _ n), (indentTemplate_join _ (m + S n)).
  rewrite extractLinesFrom_indentTemplate.
  f_equal. rewrite <- list_fmap_compose.
  apply list_fmap_ext. intros i line _. unfold compose.
  rewrite (trim_indented m), app_assoc, <- replicate_add.
  do 2 f_equal. lia.
Qed.

(** X9. [indentTemplate] returns the empty string exactly when the
    template is blank, whatever the indentation is, 0 included. *)
Theorem indentTemplate_empty_iff (template : jsstring) (n : nat) :
  indentTemplate template n = [] <-> trim template = [].
Proof.
  split.
  - intros Hnil. destruct (trim template) as [|c0 s0] eqn:Htrim; [done|].
    destruct (extractLinesFrom_head template)
      as (c & tl & more & Hlines & Hc & Hline).
    { by rewrite Htrim. }
    revert Hnil. unfold indentTemplate. rewrite Hlines, foldl_append.
    rewrite fmap_cons, concat_cons, Hline. simpl app.
    destruct n as [|n].
    + simpl. by rewrite (trim_cons c _ Hc).
    + cbn [replicate app]. by rewrite (trim_cons GT).
  - intros Htrim. unfold indentTemplate, _extractLinesFrom.
    by rewrite Htrim.
Qed.

(** ** The matcher, continued *)

Lemma progress_lt s k s' caps :
  (length s' < length s)%nat -> progress s k s' caps = k s' caps.
Proof. intros H. unfold progress. by rewrite (proj2 (Nat.ltb_lt _ _) H). Qed.

Lemma progress_ge s k s' caps :
  (length s <= length s')%nat -> progress s k s' caps = None.
Proof. intros H. unfold progress. by rewrite (proj2 (Nat.ltb_ge _ _) H). Qed.

Lemma matcher_Opt r k s caps :
  matcher (Opt r) k s caps
  = match matcher r (progress s k) s (clear (groups r) caps) with
    | Some res => Some res
    | None => k s caps
    end.
Proof. done. Qed.

Lemma matcher_Chr_stops p k s caps :
  stops p s = true -> matcher (Chr p) k s caps = None.
Proof.
  destruct s as [|c s]; [done|]. simpl. by destruct (p c).
Qed.

Lemma consumed_app (a s : jsstring) : consumed (a ++ s) s = a.
Proof.
  unfold consumed. rewrite length_app.
  replace (length a + length s - length s)%nat with (length a) by lia.
  apply take_app_length.
Qed.

Lemma dropWhile_run {A} (p : A -> bool) (w rest : list A) :
  forallb p w = true ->
  match rest with c :: _ => p c = false | [] => True end ->
  dropWhile p (w ++ rest) = rest.
Proof.
  intros Hw Hrest. induction w as [|c w IH]; simpl in *.
  - destruct rest as [|c rest]; [done|]. simpl. by rewrite Hrest.
  - apply andb_true_iff in Hw as [-> Hw]. by apply IH.
Qed.

Lemma stops_spec p s :
  stops p s = true ->
  match s with c :: _ => p c = false | [] => True end.
Proof. destruct s as [|c s]; [done|]. simpl. by destruct (p c). Qed.

Lemma insert_clear (i : nat) v (caps : captures) :
  <[i := v]> (clear [i] caps) = <[i := v]> caps.
Proof. unfold clear. simpl. apply list_insert_insert_eq. Qed.

(** A starred class takes the longest run of code units of the class
    when what follows the quantifier matches after that run. *)
Lemma matcher_Star_Chr_greedy p k s caps :
  is_Some (k (dropWhile p s) caps) ->
  matcher (Star (Chr p)) k s caps = k (dropWhile p s) caps.
Proof.
  induction s as [|c s IH]; intros Hk; rewrite matcher_Star_unfold.
  - done.
  - rewrite matcher_Chr_cons. change (clear (groups (Chr p)) caps) with caps.
    simpl dropWhile in *. destruct (p c) eqn:Hc; [|done].
    rewrite progress_lt by (simpl; lia). rewrite IH by done.
    destruct Hk as [r Hr]. by rewrite Hr.
Qed.

(** When what follows the quantifier only matches at a code unit of the
    class [pc], a starred class gives back what it has taken down to the
    last such code unit. *)
Lemma matcher_Star_Chr_none p pc k s caps :
  (forall s' caps', stops pc s' = false \/ k s' caps' = None) ->
  forallb (fun c => negb (pc c)) s = true ->
  matcher (Star (Chr p)) k s caps = None.
Proof.
  intros Hk. induction s as [|c s IH]; intros Hs;
    rewrite matcher_Star_unfold.
  - simpl. by destruct (Hk [] caps).
  - simpl in Hs. apply andb_true_iff in Hs as [Hc Hs].
    rewrite matcher_Chr_cons. change (clear (groups (Chr p)) caps) with caps.
    assert (k (c :: s) caps = None) as Hnone.
    { destruct (Hk (c :: s) caps) as [Hstop|?]; [|done].
      simpl in Hstop. by rewrite Hc in Hstop. }
    destruct (p c); [|done].
    rewrite progress_lt by (simpl; lia). by rewrite IH.
Qed.

Lemma matcher_Star_Chr_last p pc k a q b caps :
  (forall s' caps', stops pc s' = false \/ k s' caps' = None) ->
  forallb p (a ++ [q]) = true ->
  forallb (fun c => negb (pc c)) b = true ->
  is_Some (k (q :: b) caps) ->
  matcher (Star (Chr p)) k (a ++ q :: b) caps = k (q :: b) caps.
Proof.
  intros Hk Ha Hb [r Hr]. induction a as [|c a IH]; cbn [app forallb] in *;
    rewrite matcher_Star_unfold, matcher_Chr_cons;
    change (clear (groups (Chr p)) caps) with caps.
  - rewrite andb_true_r in Ha. rewrite Ha.
    rewrite progress_lt by (simpl; lia).
    by rewrite (matcher_Star_Chr_none p pc k b caps Hk Hb).
  - apply andb_true_iff in Ha as [-> Ha].
    rewrite progress_lt by (simpl; lia). rewrite IH by done.
    by rewrite Hr.
Qed.

Lemma stops_or p1 p2 s :
  stops (fun c => p1 c || p2 c) s = true ->
  stops p1 s = true /\ stops p2 s = true.
Proof.
  destruct s as [|c s]; [done|]. simpl.
  rewrite negb_orb. apply andb_true_iff.
Qed.

Lemma stops_concat (p : char -> bool) d (cs : list jsstring) rest :
  p d = false -> stops p rest = true ->
  stops p (concat (cons d <$> cs) ++ rest) = true.
Proof.
  intros Hd Hrest. destruct cs as [|c cs]; [done|]. simpl. by rewrite Hd.
Qed.

(** *** The parts of a line

    What the constructs that [REGEX] is made of do with the text of a
    part when the rest of the expression, [K], matches whatever follows. *)

Section Parts.
Variable K : continuation.
Hypothesis K_total : total K.

(** The part of the id: an optional group, a code unit of the class
    [ph] and a run of the class [pw]. *)
Lemma matcher_prefixed (ph pw : char -> bool) (i : nat) h
  (o : option jsstring) rest caps :
  ph h = true ->
  from_option (forallb pw) true o = true ->
  stops pw rest = true ->
  (o = None -> stops ph rest = true) ->
  matcher (Opt (Group i (Seq (Chr ph) (Star (Chr pw))))) K
    (from_option (cons h) [] o ++ rest) caps
  = K rest (capture i (cons h <$> o) caps).
Proof using K_total.
  intros Hh Ho Hrest Hnone.
  rewrite matcher_Opt, matcher_Group, matcher_Seq.
  change (groups (Group i (Seq (Chr ph) (Star (Chr pw))))) with [i].
  destruct o as [w|]; cbn [from_option app fmap option_fmap option_map capture] in *.
  - rewrite matcher_Chr_cons, Hh.
    pose proof (dropWhile_run pw w rest Ho (stops_spec _ _ Hrest)) as Hrun.
    rewrite matcher_Star_Chr_greedy; rewrite Hrun;
      rewrite progress_lt by (cbn [length]; rewrite !length_app; lia).
    + change (h :: w ++ rest) with ((h :: w) ++ rest).
      rewrite consumed_app, insert_clear.
      by destruct (K_total rest (<[i:=Some (h :: w)]> caps)) as [r ->].
    + apply K_total.
  - by rewrite matcher_Chr_stops by auto.
Qed.

(** The part of the content, and that of the attributes: an optional
    text between a code unit of the class [po] and the last code unit
    of the class [pc] of the line, the text being the group. *)
Lemma matcher_bracketed (po pc : char -> bool) (i : nat) op cl
  (o : option jsstring) rest caps :
  po op = true -> pc cl = true -> is_dot cl = true ->
  from_option (forallb is_dot) true o = true ->
  (is_Some o -> forallb (fun c => negb (pc c)) rest = true) ->
  (o = None -> stops po rest = true) ->
  matcher (Opt (Seq (Chr po) (Seq (Group i (Star (Chr is_dot))) (Chr pc))))
    K (from_option (fun c => op :: c ++ [cl]) [] o ++ rest) caps
  = K rest (capture i o caps).
Proof using K_total.
  intros Hop Hcl Hdot Ho Hrest Hnone.
  rewrite matcher_Opt, matcher_Seq.
  change (groups (Seq (Chr po) (Seq (Group i (Star (Chr is_dot))) (Chr pc))))
    with [i].
  destruct o as [c|]; cbn [from_option app capture] in *.
  - rewrite matcher_Chr_cons, Hop, matcher_Seq, matcher_Group.
    rewrite <- app_assoc. cbn [app].
    set (s := op :: c ++ cl :: rest).
    rewrite (matcher_Star_Chr_last is_dot pc _ c cl rest).
    + rewrite matcher_Chr_cons, Hcl.
      rewrite progress_lt by (subst s; simpl; rewrite length_app; simpl; lia).
      rewrite consumed_app, insert_clear.
      by destruct (K_total rest (<[i:=Some c]> caps)) as [r ->].
    + intros [|x s'] caps'; [by right|]. simpl stops.
      destruct (pc x) eqn:Hx; [by left|right].
      by rewrite matcher_Chr_cons, Hx.
    + rewrite forallb_app, Ho. simpl. by rewrite Hdot.
    + apply Hrest. by eexists.
    + rewrite matcher_Chr_cons, Hcl.
      rewrite progress_lt by (subst s; simpl; rewrite length_app; simpl; lia).
      apply K_total.
  - by rewrite matcher_Chr_stops by auto.
Qed.

(** The run of classes, without its group: the inner quantifier takes
    every class when what follows it matches after them. *)
Lemma matcher_class_run (pd pw : char -> bool) d (cs : list jsstring)
  rest (k : continuation) caps :
  pd d = true -> pw d = false ->
  forallb (forallb pw) cs = true ->
  stops (fun c => pw c || pd c) rest = true ->
  (cs ≠ [] -> is_Some (k rest caps)) ->
  matcher (Star (Seq (Chr pd) (Star (Chr pw)))) k
    (concat (cons d <$> cs) ++ rest) caps
  = k rest caps.
Proof.
  intros Hd Hwd Hcs Hrest.
  destruct (stops_or _ _ _ Hrest) as [Hrest1 Hrest2].
  induction cs as [|c cs IH]; intros Hk; rewrite matcher_Star_unfold;
    change (clear (groups (Seq (Chr pd) (Star (Chr pw)))) caps) with caps;
    rewrite matcher_Seq.
  - cbn [fmap list_fmap concat app].
    by rewrite matcher_Chr_stops by done.
  - cbn [forallb] in Hcs. apply andb_true_iff in Hcs as [Hc Hcs].
    rewrite fmap_cons, concat_cons, <- app_assoc. cbn [app].
    rewrite matcher_Chr_cons, Hd.
    pose proof (dropWhile_run pw c (concat (cons d <$> cs) ++ rest) Hc
                  (stops_spec _ _ (stops_concat pw d cs rest Hwd Hrest1)))
      as Hrun.
    assert (is_Some (k rest caps)) as Hsome by (by apply Hk).
    rewrite matcher_Star_Chr_greedy; rewrite Hrun;
      rewrite progress_lt by (cbn [length]; rewrite !length_app; lia);
      rewrite IH by done; [|done].
    by destruct Hsome as [r ->].
Qed.

(** The part of the classes: the group is the whole run of classes,
    and it does not take part in the match when there is no class. *)
Lemma matcher_classes (pd pw : char -> bool) (i : nat) d
  (cs : list jsstring) rest caps :
  pd d = true -> pw d = false ->
  forallb (forallb pw) cs = true ->
  stops (fun c => pw c || pd c) rest = true ->
  matcher (Star (Group i (Star (Seq (Chr pd) (Star (Chr pw)))))) K
    (concat (cons d <$> cs) ++ rest) caps
  = K rest
      (capture i
         match cs with
         | [] => None
         | _ :: _ => Some (concat (cons d <$> cs))
         end caps).
Proof using K_total.
  intros Hd Hwd Hcs Hrest.
  assert (forall caps',
             matcher (Star (Group i (Star (Seq (Chr pd) (Star (Chr pw))))))
               K rest caps' = K rest caps') as Hnone.
  { intros caps'. rewrite matcher_Star_unfold, matcher_Group.
    rewrite (matcher_class_run pd pw d [] rest) by done.
    by rewrite progress_ge. }
  destruct cs as [|c cs]; [apply Hnone|].
  set (CS := concat (cons d <$> c :: cs)).
  assert (length rest < length (CS ++ rest))%nat as Hlt.
  { subst CS. rewrite length_app. simpl. lia. }
  rewrite matcher_Star_unfold, matcher_Group.
  change (groups (Group i (Star (Seq (Chr pd) (Star (Chr pw)))))) with [i].
  subst CS.
  rewrite (matcher_class_run pd pw d (c :: cs) rest) by
    (try done; intros _; rewrite progress_lt, Hnone by done;
     apply K_total).
  rewrite progress_lt, Hnone by done.
  rewrite consumed_app, insert_clear. cbn [capture].
  by destruct (K_total rest
                 (<[i:=Some (concat (cons d <$> c :: cs))]> caps))
    as [r ->].
Qed.

(** The part of the events: the group is the text after the last code
    unit of the class [pa]. *)
Lemma matcher_events (pa pw : char -> bool) (i : nat) a
  (evs : list jsstring) rest caps :
  pa a = true -> pw a = false ->
  forallb (forallb pw) evs = true ->
  stops (fun c => pw c || pa c) rest = true ->
  matcher (Star (Seq (Chr pa) (Group i (Star (Chr pw))))) K
    (concat (cons a <$> evs) ++ rest) caps
  = K rest (capture i (last evs) caps).
Proof using K_total.
  intros Ha Hwa Hevs Hrest.
  destruct (stops_or _ _ _ Hrest) as [Hrest1 Hrest2].
  revert caps. induction evs as [|e evs IH]; intros caps;
    rewrite matcher_Star_unfold, matcher_Seq;
    change (groups (Seq (Chr pa) (Group i (Star (Chr pw))))) with [i].
  - cbn [fmap list_fmap concat app].
    by rewrite matcher_Chr_stops by done.
  - cbn [forallb] in Hevs. apply andb_true_iff in Hevs as [He Hevs].
    rewrite fmap_cons, concat_cons, <- app_assoc. cbn [app].
    rewrite matcher_Chr_cons, Ha, matcher_Group.
    pose proof (dropWhile_run pw e (concat (cons a <$> evs) ++ rest) He
                  (stops_spec _ _ (stops_concat pw a evs rest Hwa Hrest1)))
      as Hrun.
    assert (forall caps',
               is_Some (matcher
                          (Star (Seq (Chr pa) (Group i (Star (Chr pw)))))
                          K (concat (cons a <$> evs) ++ rest) caps'))
      as Hsome.
    { intros caps'. rewrite IH by done. apply K_total. }
    rewrite matcher_Star_Chr_greedy; rewrite Hrun;
      rewrite progress_lt by (cbn [length]; rewrite !length_app; lia);
      [|apply Hsome].
    rewrite consumed_app, insert_clear, IH by done.
    destruct (K_total rest
                (capture i (last evs) (<[i:=Some e]> caps))) as [r Hr].
    rewrite Hr, <- Hr. f_equal.
    destruct evs as [|e' evs]; [reflexivity|].
    rewrite last_cons_cons.
    destruct (proj2 (last_is_Some (e' :: evs))) as [l ->]; [done|].
    cbn [capture]. apply list_insert_insert_eq.
Qed.
End Parts.

(** A part that is not in the line: the construct matches nothing and
    leaves the captures as they are. *)
Lemma matcher_classes_absent (pd pw : char -> bool) (i : nat)
  (k : continuation) rest caps :
  stops pd rest = true ->
  matcher (Star (Group i (Star (Seq (Chr pd) (Star (Chr pw)))))) k rest caps
  = k rest caps.
Proof.
  intros Hrest. rewrite matcher_Star_unfold, matcher_Group.
  rewrite matcher_Star_unfold, matcher_Seq.
  rewrite matcher_Chr_stops by done. by rewrite progress_ge.
Qed.

Lemma matcher_prefixed_absent (ph pw : char -> bool) (i : nat)
  (k : continuation) rest caps :
  stops ph rest = true ->
  matcher (Opt (Group i (Seq (Chr ph) (Star (Chr pw))))) k rest caps
  = k rest caps.
Proof.
  intros Hrest. rewrite matcher_Opt, matcher_Group, matcher_Seq.
  by rewrite matcher_Chr_stops.
Qed.

Lemma matcher_bracketed_absent (po pc : char -> bool) (i : nat)
  (k : continuation) rest caps :
  stops po rest = true ->
  matcher (Opt (Seq (Chr po) (Seq (Group i (Star (Chr is_dot))) (Chr pc))))
    k rest caps
  = k rest caps.
Proof.
  intros Hrest. rewrite matcher_Opt, matcher_Seq.
  by rewrite matcher_Chr_stops.
Qed.

Lemma matcher_events_absent (pa pw : char -> bool) (i : nat)
  (k : continuation) rest caps :
  stops pa rest = true ->
  matcher (Star (Seq (Chr pa) (Group i (Star (Chr pw))))) k rest caps
  = k rest caps.
Proof.
  intros Hrest. rewrite matcher_Star_unfold, matcher_Seq.
  by rewrite matcher_Chr_stops.
Qed.

(** ** The tree-reconstruction loop, continued *)

Section ReconstructionMore.
Context {E : Type}.
Variable prepend : E -> E -> E.
Implicit Types (L : list (E * Z)) (x c : E * Z).

(** X10. On a list whose levels are all at least 1, as those of the
    lines under a main line are, [_getIndexOfDeepestElement] returns
    the index of the last element of the greatest level; on an empty
    list it reads [children[0][1]] and throws. *)
Theorem getIndexOfDeepestElement_spec (children : list (E * Z)) :
  Forall (fun c => (1 <= c.2)%Z) children ->
  match children with
  | [] => _getIndexOfDeepestElement children = None
  | _ :: _ =>
      exists d x,
        _getIndexOfDeepestElement children = Some d
        /\ children !! d = Some x
        /\ Forall (fun c => (c.2 <= x.2)%Z) children
        /\ forall j c, (d < j)%nat -> children !! j = Some c ->
                       (c.2 < x.2)%Z
  end.
Proof.
  intros Hpos. destruct children as [|c0 L0] eqn:Heq; [done|].
  rewrite <- Heq in *. assert (children ≠ []) as Hne by (by subst).
  clear Heq c0 L0.
  destruct (deepest_split children Hne Hpos)
    as (L1 & x & L2 & -> & Hd & H1 & H2).
  exists (length L1), x. split; [done|].
  split; [by apply list_lookup_middle|]. split.
  - apply Forall_app. split; [done|]. constructor; [lia|].
    apply (Forall_impl _ _ _ H2). intros c. lia.
  - intros j c Hj Hc. rewrite lookup_app_r in Hc by lia.
    destruct (j - length L1)%nat as [|k] eqn:Hk; [lia|]. simpl in Hc.
    rewrite Forall_forall in H2. apply H2.
    by eapply list_elem_of_lookup_2.
Qed.

Lemma Forall_lookup_between (P : E * Z -> Prop) A p B rest j c :
  Forall P B ->
  (length A < j < length A + 1 + length B)%nat ->
  (A ++ p :: B ++ rest) !! j = Some c -> P c.
Proof.
  intros HB Hj Hc. rewrite lookup_app_r in Hc by lia.
  destruct (j - length A)%nat as [|k] eqn:Hk; [lia|]. simpl in Hc.
  rewrite lookup_app_l in Hc by lia.
  rewrite Forall_forall in HB. apply HB.
  by eapply list_elem_of_lookup_2.
Qed.

(** X11. [_getIndexOfNearestParentElementOf] returns the index of the
    last element before the deepest one that is exactly one level
    above it, and [null] when no element before it is; with an index
    past the end it reads a property of [undefined] and throws. *)
Theorem getIndexOfNearestParentElementOf_spec (indexOfDeepest : nat)
  (children : list (E * Z)) :
  match children !! indexOfDeepest with
  | None =>
      _getIndexOfNearestParentElementOf indexOfDeepest children = None
  | Some x =>
      exists r,
        _getIndexOfNearestParentElementOf indexOfDeepest children = Some r
        /\ match r with
           | Some p =>
               (p < indexOfDeepest)%nat
               /\ (exists y, children !! p = Some y /\ y.2 = (x.2 - 1)%Z)
               /\ forall j c,
                   (p < j < indexOfDeepest)%nat ->
                   children !! j = Some c -> c.2 ≠ (x.2 - 1)%Z
           | None =>
               forall j c,
                 (j < indexOfDeepest)%nat ->
                 children !! j = Some c -> c.2 ≠ (x.2 - 1)%Z
           end
  end.
Proof.
  destruct (children !! indexOfDeepest) as [x|] eqn:Hx.
  - pose proof (lookup_lt_Some _ _ _ Hx) as Hlt.
    rewrite <- (take_drop_middle children indexOfDeepest x Hx).
    set (L1 := take indexOfDeepest children).
    set (L2 := drop (S indexOfDeepest) children).
    assert (length L1 = indexOfDeepest) as Hlen.
    { subst L1. rewrite length_take. lia. }
    rewrite <- Hlen.
    destruct (nearest_split L1 x L2)
      as [[Hno ->]|(A & p & B & HL1 & Hp & HB & ->)].
    + exists None. split; [done|]. intros j c Hj Hc.
      rewrite lookup_app_l in Hc by done.
      rewrite Forall_forall in Hno. apply Hno.
      by eapply list_elem_of_lookup_2.
    + exists (Some (length A)). split; [done|].
      rewrite HL1, length_app. simpl. split; [lia|]. split.
      * exists p. split; [|done]. rewrite <- app_assoc.
        by apply list_lookup_middle.
      * intros j c Hj Hc. rewrite <- app_assoc in Hc. simpl in Hc.
        apply (Forall_lookup_between (fun c => c.2 ≠ (x.2 - 1)%Z) A p B
                 (x :: L2) j c); [done|lia|done].
  - unfold _getIndexOfNearestParentElementOf. by rewrite Hx.
Qed.

(** A block of lines that are all at level 1: the loop takes them from
    the last to the first and prepends each one to the main element. *)
Lemma reconstruct_flat_run n mainElement L :
  length L = n ->
  Forall (fun c => c.2 = 1%Z) L ->
  reconstruct prepend n mainElement L
  = Normal (foldr (fun c m => prepend m c.1) mainElement L).
Proof.
  revert mainElement L. induction n as [|n IH]; intros mainElement L Hlen H1.
  - by destruct L.
  - destruct L as [|c0 L0] eqn:Heq; [done|].
    cbn [reconstruct]. rewrite <- Heq in *.
    assert (L ≠ []) as Hne by (by subst).
    assert (Forall (fun c => (1 <= c.2)%Z) L) as Hpos.
    { apply (Forall_impl _ _ _ H1). intros c. lia. }
    destruct (reconstruct_step_split prepend mainElement L Hne Hpos)
      as (L1 & x & L2 & HL & _ & HL2 & Hcase).
    rewrite HL in H1. apply Forall_app in H1 as [H11 H12].
    apply Forall_cons in H12 as [Hx H12].
    assert (L2 = []) as ->.
    { destruct L2 as [|y L2]; [done|].
      apply Forall_cons in HL2 as [Hy _].
      apply Forall_cons in H12 as [Hy' _]. lia. }
    destruct Hcase as [[_ Hstep]|(A & p & B & -> & Hp & _)].
    + rewrite Hstep, app_nil_r. rewrite IH; [|..|done].
      * by rewrite HL, foldr_app.
      * rewrite HL, length_app in Hlen. simpl in Hlen. lia.
    + apply Forall_app in H11 as [_ H11].
      apply Forall_cons in H11 as [Hp' _]. lia.
Qed.
End ReconstructionMore.

Section ReconstructionOfElements.
Context {Callback Options : Type}.
Abbreviation DOMElement := (@Element Callback Options).

(** X12. When every line under a main line is at level 1, the loop
    returns the main element with the elements of these lines as its
    children, in the order of the lines, before the child nodes it had
    (the text of the main line, if it has one). *)
Theorem reconstruct_flat (mainElement : DOMElement)
  (childrenElements : list (DOMElement * Z)) :
  Forall (fun c => c.2 = 1%Z) childrenElements ->
  reconstruct prepend (length childrenElements) mainElement
    childrenElements
  = Normal
      (with_childNodes mainElement
         ((ElementNode <$> childrenElements.*1) ++ childNodes mainElement)).
Proof.
  intros H1. rewrite reconstruct_flat_run by done. f_equal.
  clear H1. induction childrenElements as [|c L IH]; simpl.
  - by destruct mainElement.
  - rewrite IH. by destruct mainElement.
Qed.
End ReconstructionOfElements.

(** ** Nesting *)

Section Nesting.
Variable levels : list Z.
Hypothesis levels_pos : Forall (fun k => (1 <= k)%Z) levels.
Implicit Types (M t : LineTree) (L : list (LineTree * Z)).
Implicit Types (T : list (nat * Z)) (s : nat * Z).

Lemma level_of_pos i :
  (1 <= i <= length levels)%nat -> (1 <= level_of levels i)%Z.
Proof using levels_pos.
  destruct i as [|k]; [lia|]. intros Hi. simpl.
  destruct (levels !! k) as [lv|] eqn:Hk; simpl.
  - rewrite Forall_forall in levels_pos. apply levels_pos.
    by eapply list_elem_of_lookup_2.
  - apply lookup_ge_None in Hk. lia.
Qed.

Lemma attached_unfold j (ks : list LineTree) :
  attached_to_nearest levels (LineNode j ks)
  <-> Forall (fun k => nearest_parent levels j (line k)
                       /\ attached_to_nearest levels k) ks.
Proof.
  simpl. induction ks as [|k ks IH]; simpl.
  - split; [constructor|done].
  - by rewrite Forall_cons, IH.
Qed.

Lemma attached_prepend t (k : LineTree) :
  attached_to_nearest levels t -> attached_to_nearest levels k ->
  nearest_parent levels (line t) (line k) ->
  attached_to_nearest levels (prepend_line t k).
Proof.
  destruct t as [j ks]. unfold prepend_line. simpl kids. simpl line.
  rewrite !attached_unfold. intros Ht Hk Hnear. by constructor.
Qed.

(** The line where a line belongs is unique. *)
Lemma nearest_parent_unique j j' k :
  nearest_parent levels j k -> nearest_parent levels j' k -> j = j'.
Proof.
  intros (Hlt & Hlev & Hbetween) (Hlt' & Hlev' & Hbetween').
  destruct (Nat.lt_trichotomy j j') as [H|[H|H]]; [|done|].
  - destruct Hlev' as [Hlev' | ->]; [|lia].
    by destruct (Hbetween j' (conj H Hlt')).
  - destruct Hlev as [Hlev | ->]; [|lia].
    by destruct (Hbetween' j (conj H Hlt)).
Qed.

Lemma tracked_remove T1 s T2 :
  tracked levels (T1 ++ s :: T2) ->
  Forall (fun c => (c.2 <= s.2)%Z) T1 ->
  Forall (fun c => (c.2 < s.2)%Z) T2 ->
  tracked levels (T1 ++ T2).
Proof.
  intros (Hs & Hl & Hd) H1 H2. split; [|split].
  - revert Hs. rewrite !fmap_app, fmap_cons, !StronglySorted_app.
    intros (H12 & Hs1 & Hs2). split; [|split; [done|]].
    + intros a b Ha Hb. apply H12; [done|by right].
    + by apply StronglySorted_cons in Hs2 as [_ ?].
  - apply Forall_app in Hl as [Hl1 Hl2].
    apply Forall_cons in Hl2 as [_ Hl2]. by apply Forall_app.
  - intros i Hi. destruct (Hd i Hi) as [Hin|Hall].
    + rewrite fmap_app, fmap_cons, elem_of_app, elem_of_cons in Hin.
      rewrite fmap_app, elem_of_app.
      destruct Hin as [Hin|[->|Hin]]; [by left; left| |by left; right].
      right. apply Forall_app in Hl as [_ Hl].
      apply Forall_cons in Hl as [[_ <-] _].
      apply Forall_app. split; [done|].
      apply (Forall_impl _ _ _ H2). intros c. lia.
    + right. apply Forall_app in Hall as [Ha1 Ha2].
      apply Forall_cons in Ha2 as [_ Ha2]. by apply Forall_app.
Qed.

(** A line between the pending lines [j] and [s.1] is pending, between
    the two in the list, or is at least as deep as [s]. *)
Lemma tracked_between T0 T1 s T2 (j : nat) :
  tracked levels (T0 ++ T1 ++ s :: T2) ->
  Forall (fun c => (c.1 <= j)%nat) T0 ->
  forall i, (j < i < s.1)%nat ->
    (exists c, c ∈ T1 /\ c.1 = i /\ c.2 = level_of levels i)
    \/ (s.2 <= level_of levels i)%Z.
Proof.
  intros (Hs & Hl & Hd) H0 i Hi.
  assert (s ∈ T0 ++ T1 ++ s :: T2) as Hsin.
  { rewrite !elem_of_app, elem_of_cons. right. right. by left. }
  rewrite Forall_forall in Hl. destruct (Hl s Hsin) as [Hrange _].
  destruct (Hd i) as [Hin|Hall]; [lia| |].
  - left. apply list_elem_of_fmap in Hin as (c & -> & Hc).
    exists c. destruct (Hl c Hc) as [_ Hlev]. split; [|done].
    rewrite !elem_of_app, elem_of_cons in Hc.
    destruct Hc as [Hc|[Hc|[->|Hc]]]; [|done|lia|].
    + rewrite Forall_forall in H0. specialize (H0 c Hc). lia.
    + exfalso. rewrite app_assoc, fmap_app, fmap_cons in Hs.
      apply StronglySorted_app in Hs as (_ & _ & Hs).
      apply StronglySorted_cons in Hs as [Hlt _].
      rewrite Forall_forall in Hlt.
      assert (s.1 < c.1)%nat; [|lia].
      apply Hlt. by apply (list_elem_of_fmap_2 fst).
  - right. rewrite Forall_forall in Hall. by apply Hall.
Qed.

Lemma signature_app L1 L2 :
  signature (L1 ++ L2) = signature L1 ++ signature L2.
Proof. apply fmap_app. Qed.

Lemma pending_lines_to_main M L1 (x : LineTree * Z) L2 :
  pending_lines (prepend_line M x.1) (L1 ++ L2)
  ≡ₚ pending_lines M (L1 ++ x :: L2).
Proof.
  unfold pending_lines.
  rewrite lines_of_prepend, !fmap_app, !concat_app, fmap_cons, concat_cons.
  rewrite <- !app_assoc. apply Permutation_app_head.
  rewrite !app_assoc. apply Permutation_app_tail, Permutation_app_comm.
Qed.

Lemma pending_lines_to_parent M A (p : LineTree * Z) B
  (x : LineTree * Z) L2 :
  pending_lines M (A ++ (prepend_line p.1 x.1, p.2) :: B ++ L2)
  ≡ₚ pending_lines M ((A ++ p :: B) ++ x :: L2).
Proof.
  unfold pending_lines. apply Permutation_app_head.
  repeat rewrite ?fmap_app, ?fmap_cons, ?concat_app, ?concat_cons.
  cbn beta. cbn [fst]. rewrite lines_of_prepend.
  rewrite <- !app_assoc. apply Permutation_app_head.
  apply Permutation_app_head.
  rewrite !app_assoc. apply Permutation_app_tail.
  apply Permutation_app_comm.
Qed.
End Nesting.

Section NestingRun.
Variable levels : list Z.
Hypothesis levels_pos : Forall (fun k => (1 <= k)%Z) levels.
Implicit Types (M t : LineTree) (L : list (LineTree * Z)).

Lemma signature_before A (p : LineTree * Z) rest :
  StronglySorted lt ((signature (A ++ p :: rest)).*1) ->
  Forall (fun c => (c.1 <= line p.1)%nat) (signature A ++ [(line p.1, p.2)]).
Proof.
  rewrite signature_app, fmap_app. intros Hs.
  apply StronglySorted_app in Hs as (H12 & _ & _).
  apply Forall_app. split; [|by constructor].
  apply Forall_forall. intros c Hc.
  assert (c.1 < line p.1)%nat; [|lia].
  apply H12; [by apply (list_elem_of_fmap_2 fst)|]. by left.
Qed.

(** An iteration keeps the invariant, and the lines. *)
Lemma nesting_invariant_step M L :
  nesting_invariant levels M L -> L ≠ [] ->
  exists M' L',
    reconstruct_step prepend_line M L = Some (M', L')
    /\ nesting_invariant levels M' L'
    /\ pending_lines M' L' ≡ₚ pending_lines M L.
Proof using levels_pos.
  intros [Htr Hpend HM0 HM] Hne.
  assert (Forall (fun c : LineTree * Z => (1 <= c.2)%Z) L) as Hpos.
  { destruct Htr as (_ & Hl & _). unfold signature in Hl.
    rewrite Forall_fmap in Hl. apply (Forall_impl _ _ _ Hl).
    intros c [Hrange Hlev]. simpl in *. rewrite Hlev.
    by apply level_of_pos. }
  destruct (reconstruct_step_split prepend_line M L Hne Hpos)
    as (L1 & x & L2 & -> & HL1 & HL2 & Hcase).
  rewrite signature_app in Htr.
  change (signature (x :: L2))
    with ((line x.1, x.2) :: signature L2) in Htr.
  assert (tracked levels (signature (L1 ++ L2))) as Htr'.
  { rewrite signature_app.
    apply (tracked_remove levels _ (line x.1, x.2)); [done|..];
      unfold signature; by apply Forall_fmap. }
  assert (x.2 = level_of levels (line x.1) /\ (1 <= line x.1)%nat)
    as [Hxlev Hxrange].
  { destruct Htr as (_ & Hl & _). apply Forall_app in Hl as [_ Hl].
    apply Forall_cons in Hl as [[? ?] _]. simpl in *. split; [done|lia]. }
  apply Forall_app in Hpend as [Hp1 Hp2].
  apply Forall_cons in Hp2 as [Hx Hp2].
  destruct Hcase as [[Hno Hstep]|(A & p & B & -> & Hp & HB & Hstep)].
  - (* no line before [x] is one level above it *)
    exists (prepend_line M x.1), (L1 ++ L2). split; [done|].
    split; [|apply pending_lines_to_main].
    constructor; [done|by apply Forall_app|by destruct M|].
    apply attached_prepend; [done..|]. rewrite HM0.
    split; [lia|]. split; [by right|]. intros i Hi.
    destruct (tracked_between levels [] (signature L1) (line x.1, x.2)
                (signature L2) 0 Htr (Forall_nil_2 _) i Hi)
      as [(c & Hc & Hci & Hclev)|Hdeep].
    + apply list_elem_of_fmap in Hc as (c0 & -> & Hc0). simpl in *.
      rewrite Forall_forall in Hno. specialize (Hno c0 Hc0).
      by rewrite <- Hclev, <- Hxlev.
    + simpl in Hdeep. lia.
  - (* [p] is the last line before [x] that is one level above it *)
    set (p' := (prepend_line p.1 x.1, p.2)) in *.
    assert (signature (A ++ p' :: B ++ L2)
            = signature ((A ++ p :: B) ++ L2)) as Hsig.
    { unfold signature. subst p'. destruct p as [[j ks] lp].
      by rewrite <- app_assoc, !fmap_app, !fmap_cons, !fmap_app. }
    exists M, (A ++ p' :: B ++ L2). split; [done|].
    split; [|apply pending_lines_to_parent].
    constructor; [by rewrite Hsig| |done|done].
    apply Forall_app in Hp1 as [HpA HpB].
    apply Forall_cons in HpB as [Hpp HpB].
    apply Forall_app. split; [done|].
    constructor; [|by apply Forall_app].
    subst p'. cbn [fst]. apply attached_prepend; [done..|].
    assert (p.2 = level_of levels (line p.1)) as Hplev.
    { destruct Htr as (_ & Hl & _). apply Forall_app in Hl as [Hl _].
      rewrite signature_app in Hl. apply Forall_app in Hl as [_ Hl].
      by apply Forall_cons in Hl as [[_ ?] _]. }
    pose proof Htr as (Hs & _ & _).
    split; [|split].
    + rewrite fmap_app in Hs.
      apply StronglySorted_app in Hs as (H12 & _ & _).
      apply H12; [|by left].
      apply (list_elem_of_fmap_2 fst _ (line p.1, p.2)).
      rewrite signature_app. apply elem_of_app. right. by left.
    + left. by rewrite <- Hxlev, <- Hp.
    + intros i Hi.
      assert (signature (A ++ p :: B) ++ (line x.1, x.2) :: signature L2
              = (signature A ++ [(line p.1, p.2)])
                  ++ signature B ++ (line x.1, x.2) :: signature L2)
        as Hshape.
      { rewrite signature_app, <- !app_assoc. done. }
      rewrite Hshape in Htr.
      destruct (tracked_between levels _ _ _ _ (line p.1) Htr) with (i := i)
        as [(c & Hc & Hci & Hclev)|Hdeep]; [|done| |].
      * apply (signature_before A p B). rewrite fmap_app in Hs.
        by apply StronglySorted_app in Hs as (_ & Hs & _).
      * apply list_elem_of_fmap in Hc as (c0 & -> & Hc0). simpl in *.
        rewrite Forall_forall in HB. specialize (HB c0 Hc0).
        by rewrite <- Hclev, <- Hxlev.
      * simpl in Hdeep. lia.
Qed.

Lemma nesting_invariant_run n M L :
  length L = n -> nesting_invariant levels M L ->
  exists t, reconstruct prepend_line n M L = Normal t
            /\ attached_to_nearest levels t /\ line t = 0%nat
            /\ lines_of t ≡ₚ pending_lines M L.
Proof using levels_pos.
  revert M L. induction n as [|n IH]; intros M L Hlen Hinv.
  - destruct L; [|done]. exists M. unfold pending_lines. simpl.
    rewrite app_nil_r. by destruct Hinv.
  - destruct L as [|c L]; [done|].
    destruct (nesting_invariant_step M (c :: L) Hinv)
      as (M' & L' & Hstep & Hinv' & Hperm); [done|].
    cbn [reconstruct]. rewrite Hstep.
    destruct (reconstruct_step_length prepend_line M c L)
      as (M'' & L'' & Hstep' & Hlen').
    rewrite Hstep in Hstep'. simplify_eq.
    destruct (IH M'' L'') as (t & Ht & Hatt & Hline & Hperm');
      [simpl in Hlen; lia|done|].
    exists t. by rewrite Hperm', Hperm.
Qed.
End NestingRun.

Lemma signature_roots (L : list (LineTree * Z)) :
  (signature L).*1 = roots L.
Proof. unfold signature, roots. by rewrite <- list_fmap_compose. Qed.

(** The invariant holds when the loop starts. *)
Lemma nesting_invariant_init {E} (block : list (E * Z)) :
  nesting_invariant (block.*2) (LineNode 0 []) (line_leaves block).
Proof.
  constructor; [split; [|split]|..].
  - rewrite signature_roots, line_leaves_roots. apply StronglySorted_seq.
  - unfold signature. apply Forall_fmap, Forall_forall. intros c Hc.
    apply elem_of_lookup_imap in Hc as (i & y & -> & Hy). simpl.
    rewrite length_fmap, list_lookup_fmap, Hy. simpl.
    apply lookup_lt_Some in Hy. split; [lia|done].
  - intros i Hi. left. rewrite length_fmap in Hi.
    rewrite signature_roots, line_leaves_roots. apply elem_of_seq. lia.
  - apply Forall_forall. intros c Hc.
    by apply elem_of_lookup_imap in Hc as (i & y & -> & _).
  - done.
  - done.
Qed.

Section NestingOfElements.
Context {Callback Options : Type}.
Abbreviation DOMElement := (@Element Callback Options).

(** X13. What the loop builds from the lines under a main line (their
    levels are at least 1). The element returned is the one the line
    tree [t] stands for; [t] is rooted at the main line, holds every
    line once, and has every line under the line where it belongs: the
    last line before it that is exactly one level above it (the main
    line being at level 0), or the main line when no line before it is.
    There is one such line for each line. *)
Theorem reconstruct_nearest_parent (mainElement : DOMElement)
  (childrenElements : list (DOMElement * Z)) :
  Forall (fun c => (1 <= c.2)%Z) childrenElements ->
  exists t,
    reconstruct prepend_line (length childrenElements) (LineNode 0 [])
      (line_leaves childrenElements) = Normal t
    /\ reconstruct prepend (length childrenElements) mainElement
         childrenElements
       = Normal (materialize (element_of_line mainElement childrenElements) t)
    /\ line t = 0%nat
    /\ lines_of t ≡ₚ seq 0 (S (length childrenElements))
    /\ attached_to_nearest (childrenElements.*2) t
    /\ (forall j j' k,
          nearest_parent (childrenElements.*2) j k ->
          nearest_parent (childrenElements.*2) j' k -> j = j').
Proof.
  intros Hpos.
  destruct (nesting_invariant_run (childrenElements.*2)
              (proj2 (Forall_fmap _ _ _) Hpos)
              (length childrenElements) (LineNode 0 [])
              (line_leaves childrenElements))
    as (t & Ht & Hatt & Hline & Hperm).
  { unfold line_leaves. by rewrite length_imap. }
  { apply nesting_invariant_init. }
  rewrite line_leaves_lines in Hperm.
  exists t. split; [done|]. split; [|split; [done|split; [done|]]].
  - apply (reconstruct_fmap prepend_line prepend
             (materialize (element_of_line mainElement childrenElements)))
      in Ht; [|apply materialize_prepend].
    rewrite materialize_leaves in Ht.
    replace (materialize _ (LineNode 0 [])) with mainElement in Ht; [done|].
    by destruct mainElement.
  - split; [done|]. apply nearest_parent_unique.
Qed.
End NestingOfElements.

(** ** [generate], block by block *)

Lemma level_nonneg line : (0 <= _level line)%Z.
Proof.
  induction line as [|c line IH]; simpl; [done|]. destruct (c =? GT); lia.
Qed.

(** The lines are the lines before the first main line, followed by the
    blocks. *)
Lemma blocks_split lines :
  exists rest,
    lines = (blocks lines).1 ++ rest
    /\ Forall (fun l => _level l ≠ 0%Z) (blocks lines).1
    /\ blocks rest = ([], (blocks lines).2)
    /\ match rest with [] => True | r :: _ => _level r = 0%Z end.
Proof.
  induction lines as [|line lines IH].
  - by exists [].
  - destruct IH as (rest & Hlines & Hunder & Hrest & Hhead). simpl.
    destruct (blocks lines) as [under others] eqn:Hb. simpl in *.
    destruct (Z.eqb_spec (_level line) 0) as [H0|H0]; simpl.
    + exists (line :: lines). split; [done|]. split; [constructor|].
      split; [|done]. simpl. rewrite Hb.
      by rewrite (proj2 (Z.eqb_eq _ _) H0).
    + exists rest. split; [by f_equal|]. split; [by constructor|done].
Qed.

Lemma blocks_lines lines :
  lines = (blocks lines).1 ++ concat ((fun b => b.1 :: b.2) <$> (blocks lines).2)
  /\ Forall (fun l => (1 <= _level l)%Z) (blocks lines).1
  /\ Forall (fun b => _level b.1 = 0%Z
                      /\ Forall (fun l => (1 <= _level l)%Z) b.2)
       (blocks lines).2.
Proof.
  induction lines as [|line lines (IH1 & IH2 & IH3)]; [done|]. simpl.
  destruct (blocks lines) as [under others]. simpl in *.
  pose proof (level_nonneg line).
  destruct (Z.eqb_spec (_level line) 0) as [H0|H0]; simpl.
  - split; [by f_equal|]. split; [constructor|]. by constructor.
  - split; [by f_equal|]. split; [constructor; [lia|done]|done].
Qed.

Section GenerateMore.
Context {Callback Options : Type}.
Variable decode : jsstring -> jsstring.
Abbreviation Builder := (@HTMLBuilder Callback Options).
Abbreviation DOMElement := (@Element Callback Options).

Lemma main_lines_skip i blk rest :
  Forall (fun l => _level l ≠ 0%Z) blk ->
  main_lines i (blk ++ rest) = main_lines (i + length blk) rest.
Proof.
  intros Hblk. revert i.
  induction Hblk as [|l blk Hl _ IH]; intros i; simpl.
  - by rewrite Nat.add_0_r.
  - rewrite (proj2 (Z.eqb_neq _ _) Hl), IH. f_equal. lia.
Qed.

Lemma generate_mains_cons (this : Builder) lines mainLine mainLevel rest :
  generate_mains decode this lines ((mainLine, mainLevel) :: rest)
  = match build decode this mainLine
            (slice (mainLevel + 1)
               match rest with
               | next :: _ => next.2
               | [] => length lines
               end lines)
    with
    | Normal mainElement =>
        generate_mains decode (parent_appendChild this mainElement) lines rest
    | Throw e => (Throw e, this)
    | OutOfFuel => (OutOfFuel, this)
    end.
Proof. done. Qed.

(** The indices that [generate] computes cut the lines into the blocks. *)
Lemma generate_mains_blocks (this : Builder) pre rest :
  generate_mains decode this (pre ++ rest) (main_lines (length pre) rest)
  = generate_blocks decode this (blocks rest).2.
Proof.
  remember (length rest) as n eqn:Hn. revert this pre rest Hn.
  induction n as [n IH] using lt_wf_ind. intros this pre rest Hn.
  destruct rest as [|l rest']; [done|].
  destruct (Z.eqb_spec (_level l) 0) as [H0|H0].
  - destruct (blocks_split rest')
      as (rest'' & Hrest' & Hunder & Hb'' & Hhead).
    destruct (blocks rest') as [under others] eqn:Hb.
    simpl in Hrest', Hunder, Hb''.
    subst rest'.
    cbn [blocks main_lines]. rewrite Hb, (proj2 (Z.eqb_eq _ _) H0).
    cbn [snd generate_blocks].
    rewrite main_lines_skip by done. rewrite generate_mains_cons.
    set (j := (S (length pre) + length under)%nat).
    assert (match main_lines j rest'' with
            | next :: _ => next.2
            | [] => length (pre ++ l :: under ++ rest'')
            end = j) as ->.
    { destruct rest'' as [|r tl].
      - simpl. rewrite length_app. simpl. rewrite length_app. simpl.
        subst j. lia.
      - cbn [main_lines]. by rewrite (proj2 (Z.eqb_eq _ _) Hhead). }
    assert (slice (length pre + 1) j (pre ++ l :: under ++ rest'') = under)
      as ->.
    { unfold slice.
      replace (pre ++ l :: under ++ rest'')
        with ((pre ++ [l]) ++ under ++ rest'') by (by rewrite <- app_assoc).
      rewrite drop_app_length' by (rewrite length_app; simpl; lia).
      replace (j - (length pre + 1))%nat with (length under)
        by (subst j; lia).
      apply take_app_length. }
    destruct (build decode this l under) as [mainElement| |]; [|done..].
    specialize (IH (length rest'')).
    pose proof (IH ltac:(subst n; simpl; rewrite length_app; lia)
                  (parent_appendChild this mainElement)
                  (pre ++ l :: under) rest'' eq_refl) as Hrec.
    rewrite Hb'' in Hrec. cbn [snd] in Hrec. rewrite <- Hrec.
    rewrite <- app_assoc. simpl. f_equal. f_equal.
    rewrite length_app. simpl. subst j. lia.
  - cbn [blocks main_lines]. rewrite (proj2 (Z.eqb_neq _ _) H0).
    specialize (IH (length rest')).
    pose proof (IH ltac:(subst n; simpl; lia) this (pre ++ [l]) rest' eq_refl)
      as Hrec.
    destruct (blocks rest') as [under others]. cbn [snd] in *.
    rewrite <- Hrec, <- app_assoc, length_app. simpl.
    by rewrite Nat.add_1_r.
Qed.

Lemma generate_blocks_eq (this : Builder) (template : jsstring) :
  generate decode this template
  = generate_blocks decode this (blocks (_extractLinesFrom template)).2.
Proof.
  unfold generate.
  destruct (Nat.eqb_spec (length (trim template)) 0) as [H0|H0].
  - unfold _extractLinesFrom. destruct (trim template); [done|done].
  - apply (generate_mains_blocks this [] (_extractLinesFrom template)).
Qed.

(** X14. [generate] goes through the template block by block: the
    lines before the first main line are never read; every main line
    is built with the lines that follow it up to the next main line,
    or to the end, all of them at level 1 or more, and appended to the
    parent; the first block that throws ends the call. *)
Theorem generate_by_blocks (this : Builder) (template : jsstring) :
  let lines := _extractLinesFrom template in
  generate decode this template
  = generate_blocks decode this (blocks lines).2
  /\ lines
     = (blocks lines).1
         ++ concat ((fun b => b.1 :: b.2) <$> (blocks lines).2)
  /\ Forall (fun l => (1 <= _level l)%Z) (blocks lines).1
  /\ Forall (fun b => _level b.1 = 0%Z
                      /\ Forall (fun l => (1 <= _level l)%Z) b.2)
       (blocks lines).2.
Proof.
  intros lines. split; [apply generate_blocks_eq|apply blocks_lines].
Qed.

(** *** What [generate] does to the parent *)

Lemma createElementFromLine_ext (this this' : Builder) line :
  SYMBOL_BETWEEN_ATTRIBUTES this = SYMBOL_BETWEEN_ATTRIBUTES this' ->
  EVENTS this = EVENTS this' ->
  _createElementFromLine decode this line
  = _createElementFromLine decode this' line.
Proof.
  destruct this as [s e p], this' as [s' e' p']. simpl.
  intros -> ->. reflexivity.
Qed.

Lemma create_children_ext (this this' : Builder) block :
  SYMBOL_BETWEEN_ATTRIBUTES this = SYMBOL_BETWEEN_ATTRIBUTES this' ->
  EVENTS this = EVENTS this' ->
  create_children decode this block = create_children decode this' block.
Proof.
  intros Hs He. induction block as [|line block IH]; [done|]. simpl.
  by rewrite (createElementFromLine_ext this this' line Hs He), IH.
Qed.

Lemma build_ext (this this' : Builder) mainLine block :
  SYMBOL_BETWEEN_ATTRIBUTES this = SYMBOL_BETWEEN_ATTRIBUTES this' ->
  EVENTS this = EVENTS this' ->
  build decode this mainLine block = build decode this' mainLine block.
Proof.
  intros Hs He. unfold build.
  by rewrite (createElementFromLine_ext this this' mainLine Hs He),
    (create_children_ext this this' block Hs He).
Qed.

Lemma generate_blocks_frame (this : Builder) bs :
  exists outcome (elements : list DOMElement),
    forall parent : DOMElement,
      generate_blocks decode (setParent this parent) bs
      = (outcome,
         setParent this
           (with_childNodes parent
              (childNodes parent ++ (ElementNode <$> elements)))).
Proof.
  induction bs as [|[mainLine block] bs (outcome & elements & IH)].
  - exists (Normal ()), []. intros [t cl i a l ns]. simpl.
    by rewrite app_nil_r.
  - destruct (build decode this mainLine block) as [e|e|] eqn:Hbuild.
    + exists outcome, (e :: elements). intros p. cbn [generate_blocks].
      rewrite (build_ext (setParent this p) this) by done.
      rewrite Hbuild.
      change (parent_appendChild (setParent this p) e)
        with (setParent this (appendChild (ElementNode e) p)).
      rewrite IH. destruct p as [t cl i a l ns]. simpl.
      by rewrite <- app_assoc.
    + exists (Throw e), []. intros p. cbn [generate_blocks].
      rewrite (build_ext (setParent this p) this) by done.
      rewrite Hbuild. destruct p as [t cl i a l ns]. simpl.
      by rewrite app_nil_r.
    + exists OutOfFuel, []. intros p. cbn [generate_blocks].
      rewrite (build_ext (setParent this p) this) by done.
      rewrite Hbuild. destruct p as [t cl i a l ns]. simpl.
      by rewrite app_nil_r.
Qed.

(** X15. Whether it returns or throws, [generate] only appends
    elements after the child nodes that the parent has, and changes
    nothing else of the builder; what it appends and how it ends depend
    on the template, the symbol and the registry, not on the parent. *)
Theorem generate_appends (this : Builder) (template : jsstring) :
  exists outcome (elements : list DOMElement),
    forall parent : DOMElement,
      generate decode (setParent this parent) template
      = (outcome,
         setParent this
           (with_childNodes parent
              (childNodes parent ++ (ElementNode <$> elements)))).
Proof.
  destruct (generate_blocks_frame this
              (blocks (_extractLinesFrom template)).2)
    as (outcome & elements & H).
  exists outcome, elements. intros p. by rewrite generate_blocks_eq.
Qed.
End GenerateMore.

(** *** How [generate] ends *)

(** The blocks, put end to end, are the lines from the first main line
    on. *)
Lemma blocks_flatten lines :
  concat ((fun b => b.1 :: b.2) <$> (blocks lines).2)
  = dropWhile (fun l => negb (_level l =? 0)%Z) lines.
Proof.
  induction lines as [|line lines IH]; [done|].
  destruct (blocks_lines lines) as (Hlines & _). revert IH Hlines.
  cbn [blocks dropWhile].
  destruct (blocks lines) as [under others]. cbn [fst snd].
  destruct (_level line =? 0)%Z; cbn [negb fst snd]; [|done].
  intros _ Hlines. rewrite fmap_cons, concat_cons. cbn [fst snd].
  by rewrite <- app_comm_cons, <- Hlines.
Qed.

Lemma blocks_no_main lines :
  Forall (fun l => _level l ≠ 0%Z) lines -> (blocks lines).2 = [].
Proof.
  induction 1 as [|line lines Hline _ IH]; [done|]. simpl.
  destruct (blocks lines) as [under others]. simpl in *.
  by rewrite (proj2 (Z.eqb_neq _ _) Hline).
Qed.

Section GenerateOutcome.
Context {Callback Options : Type}.
Variable decode : jsstring -> jsstring.
Abbreviation Builder := (@HTMLBuilder Callback Options).
Abbreviation DOMElement := (@Element Callback Options).

Lemma create_children_cases (this : Builder) block :
  match first_failure (_createElementFromLine decode this <$> block) with
  | Normal _ =>
      exists childrenElements,
        create_children decode this block = Normal childrenElements
  | Throw e => create_children decode this block = Throw e
  | OutOfFuel => False
  end.
Proof.
  induction block as [|line block IH]; [by exists []|].
  rewrite fmap_cons. cbn [first_failure create_children].
  pose proof (createElementFromLine_not_OutOfFuel decode this line) as Hfuel.
  destruct (_createElementFromLine decode this line) as [e|e|]; [|done..].
  cbn [mbind completion_bind].
  destruct (first_failure _) as [[]|e'|]; [|by rewrite IH|done].
  destruct IH as (ch & ->). by eexists.
Qed.

Lemma tagName_reconstruct fuel (mainElement : DOMElement) L result :
  reconstruct prepend fuel mainElement L = Normal result ->
  tagName result = tagName mainElement.
Proof.
  revert mainElement L.
  induction fuel as [|fuel IH]; intros mainElement L.
  - destruct L; [by intros [= <-]|done].
  - destruct L as [|c L]; [by intros [= <-]|]. cbn [reconstruct].
    destruct (reconstruct_step prepend mainElement (c :: L))
      as [[m' L']|] eqn:Hstep; [|done].
    intros Hr. apply IH in Hr. rewrite Hr. clear Hr.
    revert Hstep. unfold reconstruct_step.
    destruct (_getIndexOfDeepestElement (c :: L)) as [d|]; [|done].
    cbn [mbind option_bind].
    destruct (_getIndexOfNearestParentElementOf d (c :: L)) as [r0|];
      [|done].
    cbn [mbind option_bind].
    destruct ((c :: L) !! d) as [x|]; [|done].
    cbn [mbind option_bind].
    destruct r0 as [p|].
    + destruct ((c :: L) !! p) as [y|]; [|done].
      cbn [mbind option_bind]. by intros [= <- <-].
    + intros [= <- <-]. by destruct mainElement.
Qed.

Lemma build_cases (this : Builder) mainLine block :
  match first_failure
          (_createElementFromLine decode this <$> mainLine :: block)
  with
  | Normal _ =>
      exists mainElement element,
        _createElementFromLine decode this mainLine = Normal mainElement
        /\ build decode this mainLine block = Normal element
        /\ tagName element = tagName mainElement
  | Throw e => build decode this mainLine block = Throw e
  | OutOfFuel => False
  end.
Proof.
  unfold build. rewrite fmap_cons. cbn [first_failure].
  pose proof (createElementFromLine_not_OutOfFuel decode this mainLine)
    as Hfuel.
  destruct (_createElementFromLine decode this mainLine) as [e|e|];
    [|done..].
  cbn [mbind completion_bind].
  pose proof (create_children_cases this block) as Hblock.
  destruct (first_failure _) as [[]|e'|]; [|by rewrite Hblock|done].
  destruct Hblock as (ch & ->). cbn [mbind completion_bind].
  destruct (reconstruct_enough_fuel prepend e ch 0) as [result Hresult].
  rewrite Nat.add_0_r in Hresult. rewrite Hresult.
  exists e, result. split; [done|]. split; [done|].
  by rewrite (tagName_reconstruct _ _ _ _ Hresult).
Qed.

Lemma first_failure_app {A} (l1 l2 : list (completion A)) :
  first_failure (l1 ++ l2)
  = match first_failure l1 with
    | Normal _ => first_failure l2
    | failure => failure
    end.
Proof.
  induction l1 as [|[x|e|] l1 IH]; [done| |done..]. apply IH.
Qed.

Lemma first_failure_ext (this this' : Builder) lines :
  SYMBOL_BETWEEN_ATTRIBUTES this = SYMBOL_BETWEEN_ATTRIBUTES this' ->
  EVENTS this = EVENTS this' ->
  first_failure (_createElementFromLine decode this <$> lines)
  = first_failure (_createElementFromLine decode this' <$> lines).
Proof.
  intros Hs He. f_equal. apply list_fmap_ext. intros _ line _.
  by apply createElementFromLine_ext.
Qed.

Lemma generate_blocks_outcome (this : Builder) bs :
  (generate_blocks decode this bs).1
  = first_failure
      (_createElementFromLine decode this
         <$> concat ((fun b => b.1 :: b.2) <$> bs)).
Proof.
  revert this. induction bs as [|[mainLine block] bs IH]; intros this;
    [done|].
  rewrite fmap_cons, concat_cons, fmap_app, first_failure_app.
  cbn [fst snd generate_blocks].
  pose proof (build_cases this mainLine block) as Hbuild.
  destruct (first_failure _) as [[]|e|]; [|by rewrite Hbuild|done].
  destruct Hbuild as (m & e & _ & -> & _). rewrite IH.
  by apply first_failure_ext.
Qed.

(** The only errors of a line are its parse error, when it has no word
    character, and the error of the DOM. *)
Lemma first_failure_errors (this : Builder) lines :
  match first_failure (_createElementFromLine decode this <$> lines) with
  | Normal _ => True
  | Throw e =>
      e = InvalidCharacterError
      \/ exists line,
          line ∈ lines /\ existsb is_word line = false
          /\ e = parse_error line
  | OutOfFuel => False
  end.
Proof.
  induction lines as [|line lines IH]; [done|].
  rewrite fmap_cons. cbn [first_failure].
  pose proof (createElementFromLine_not_OutOfFuel decode this line) as Hfuel.
  destruct (_createElementFromLine decode this line) as [e|e|] eqn:Hline;
    [| |done].
  - destruct (first_failure _) as [[]|e'|]; [done| |done].
    destruct IH as [->|(bad & Hbad & Hword & ->)]; [by left|].
    right. exists bad. split; [by right|done].
  - destruct (existsb is_word line) eqn:Hex.
    + left. pose proof (createElementFromLine_word decode this line Hex)
        as Hword.
      rewrite Hline in Hword.
      destruct (starts_with_digit _); [congruence|].
      destruct Hword as [?|(? & ? & _)]; congruence.
    + right. exists line. split; [by left|]. split; [done|].
      rewrite (createElementFromLine_no_word decode this line Hex) in Hline.
      congruence.
Qed.

(** X16. [generate] parses the lines from the first main line on, one
    after the other, and ends as the first line on which
    [_createElementFromLine] throws, with the error of that line; it
    returns when there is none. The lines before the first main line
    are never parsed. What it throws is the parse error of a line
    without a word character, or the [InvalidCharacterError] of the
    DOM. *)
Theorem generate_outcome (this : Builder) (template : jsstring) :
  let lines :=
    dropWhile (fun l => negb (_level l =? 0)%Z)
      (_extractLinesFrom template) in
  (generate decode this template).1
  = first_failure (_createElementFromLine decode this <$> lines)
  /\ match (generate decode this template).1 with
     | Normal _ => True
     | Throw e =>
         e = InvalidCharacterError
         \/ exists line,
             line ∈ lines /\ existsb is_word line = false
             /\ e = parse_error line
     | OutOfFuel => False
     end.
Proof.
  intros lines.
  assert ((generate decode this template).1
          = first_failure (_createElementFromLine decode this <$> lines))
    as Houtcome.
  { by rewrite generate_blocks_eq, generate_blocks_outcome,
      blocks_flatten. }
  split; [done|]. rewrite Houtcome. apply first_failure_errors.
Qed.

Lemma generate_blocks_tags (this this' : Builder) bs :
  generate_blocks decode this bs = (Normal (), this') ->
  exists elements : list DOMElement,
    this'
    = mkHTMLBuilder (SYMBOL_BETWEEN_ATTRIBUTES this) (EVENTS this)
        (with_childNodes (parent this)
           (childNodes (parent this) ++ (ElementNode <$> elements)))
    /\ tagName <$> elements = first_word <$> bs.*1.
Proof.
  revert this. induction bs as [|[mainLine block] bs IH]; intros this.
  - intros [= <-]. exists [].
    destruct this as [s ev [t cl i a l ns]]; simpl. by rewrite app_nil_r.
  - cbn [generate_blocks].
    pose proof (build_cases this mainLine block) as Hcases.
    destruct (build decode this mainLine block) as [e| |] eqn:Hbuild;
      [|done..].
    intros Hrest. apply IH in Hrest as (elements & -> & Htags).
    exists (e :: elements). split.
    + destruct this as [s ev [t cl i a l ns]]; simpl.
      by rewrite <- app_assoc.
    + simpl. f_equal; [|done].
      destruct (first_failure _) as [[]|e'|]; [|done..].
      destruct Hcases as (m & e' & Hmain & [= <-] & ->).
      destruct (existsb is_word mainLine) eqn:Hex.
      * pose proof (createElementFromLine_word decode this mainLine Hex)
          as Hword.
        rewrite Hmain in Hword.
        destruct (starts_with_digit _); [done|].
        by destruct Hword as [?|(? & [= <-] & ?)].
      * by rewrite (createElementFromLine_no_word decode this mainLine Hex)
          in Hmain.
Qed.

Lemma main_lines_blocks i lines :
  (main_lines i lines).*1 = (blocks lines).2.*1.
Proof.
  revert i. induction lines as [|line lines IH]; intros i; [done|].
  cbn [main_lines blocks].
  specialize (IH (S i)). destruct (blocks lines) as [under others].
  cbn [snd] in *.
  destruct (_level line =? 0)%Z; cbn [snd]; [|done].
  by rewrite !fmap_cons, IH.
Qed.

(** X17. When [generate] returns, it has appended one element for each
    main line, in the order of the main lines, and the tag of each is
    the first run of word characters of its main line. *)
Theorem generate_one_element_per_main_line (this : Builder)
  (template : jsstring) :
  (generate decode this template).1 = Normal () ->
  exists elements : list DOMElement,
    (generate decode this template).2
    = mkHTMLBuilder (SYMBOL_BETWEEN_ATTRIBUTES this) (EVENTS this)
        (with_childNodes (parent this)
           (childNodes (parent this) ++ (ElementNode <$> elements)))
    /\ tagName <$> elements
       = first_word <$> (main_lines 0 (_extractLinesFrom template)).*1.
Proof.
  rewrite generate_blocks_eq, main_lines_blocks. intros Hnormal.
  apply generate_blocks_tags.
  destruct (generate_blocks decode this _) as [outcome this'].
  simpl in Hnormal. by subst.
Qed.

(** X18. A template with no main line, with every line at level 1 or
    more, is rendered as nothing: [generate] returns without an error,
    whatever the lines are, and the builder is as it was. *)
Theorem generate_without_main_line (this : Builder) (template : jsstring) :
  Forall (fun l => _level l ≠ 0%Z) (_extractLinesFrom template) ->
  generate decode this template = (Normal (), this).
Proof.
  intros Hall. by rewrite generate_blocks_eq, blocks_no_main.
Qed.

(** X19. What [indentTemplate] returns for an indentation that is not
    0 has no main line: given to [generate] as it is, it adds nothing
    to the parent. It has to follow a main line, as it does in the
    template that [ContextMenu._build] puts together. *)
Theorem generate_indented (this : Builder) (template : jsstring) (n : nat) :
  generate decode this (indentTemplate template (S n)) = (Normal (), this).
Proof.
  rewrite generate_blocks_eq, blocks_no_main; [done|].
  rewrite extractLinesFrom_indentTemplate.
  apply Forall_fmap, Forall_forall. intros line _. unfold compose.
  rewrite level_indented. pose proof (level_nonneg (trim line)). lia.
Qed.
End GenerateOutcome.

(** ** Lines that follow the syntax *)

Lemma takeWhile_run {A} (p : A -> bool) (w rest : list A) :
  forallb p w = true ->
  match rest with c :: _ => p c = false | [] => True end ->
  takeWhile p (w ++ rest) = w.
Proof.
  intros Hw Hrest. induction w as [|c w IH]; simpl in *.
  - destruct rest as [|c rest]; [done|]. simpl. by rewrite Hrest.
  - apply andb_true_iff in Hw as [-> Hw]. by rewrite IH.
Qed.

Lemma forallb_concat_cons (p : char -> bool) a (evs : list jsstring) :
  p a = true ->
  forallb (forallb p) evs = true ->
  forallb p (concat (cons a <$> evs)) = true.
Proof.
  intros Ha. induction evs as [|e evs IH]; [done|].
  rewrite fmap_cons, concat_cons. cbn [forallb app].
  rewrite andb_true_iff. intros [He Hevs].
  by rewrite Ha, forallb_app, He, IH.
Qed.

Lemma length_capture i v (caps : captures) :
  length (capture i v caps) = length caps.
Proof. destruct v; [apply length_insert|done]. Qed.

Lemma group_insert_ne (i j : nat) v (caps : captures) :
  i ≠ j -> group (<[i := v]> caps) j = group caps j.
Proof. intros Hne. unfold group. by rewrite list_lookup_insert_ne. Qed.

Lemma group_insert_eq (i : nat) v (caps : captures) :
  (i < length caps)%nat -> group (<[i := v]> caps) i = v.
Proof.
  intros Hi. unfold group. rewrite list_lookup_insert_eq by done.
  by destruct v.
Qed.

Lemma group_capture_ne (i j : nat) v (caps : captures) :
  i ≠ j -> group (capture i v caps) j = group caps j.
Proof. intros Hne. destruct v; [by apply group_insert_ne|done]. Qed.

Lemma group_capture_eq (i : nat) v (caps : captures) :
  (i < length caps)%nat -> group caps i = None ->
  group (capture i v caps) i = v.
Proof.
  intros Hi Hnone. destruct v as [s|]; [|done]. simpl.
  by rewrite group_insert_eq.
Qed.

(** The rest of [REGEX], after each of its parts, matches whatever
    follows. *)
Ltac total_rest :=
  repeat first
    [ apply matcher_Star_total
    | apply matcher_Opt_total
    | (intros ? ?; by eexists) ].

(** The code units that open the parts are in no class of a part before
    theirs; [)] and [\]] are not in the class of the events. *)
Lemma events_class_no (p : char -> bool) (evs : list jsstring) :
  p AT = false ->
  (forall c, word_or ";-" c = true -> p c = false) ->
  forallb (forallb (word_or ";-")) evs = true ->
  forallb (fun c => negb (p c)) (concat (cons AT <$> evs)) = true.
Proof.
  intros Hat Hp. induction evs as [|e evs IH]; [done|].
  rewrite fmap_cons, concat_cons. cbn [forallb app].
  rewrite andb_true_iff. intros [He Hevs].
  rewrite Hat, forallb_app, IH by done. simpl. rewrite andb_true_r.
  apply (forallb_impl (word_or ";-")); [|done].
  intros c Hc. by rewrite Hp.
Qed.

Lemma Lit_RPAREN c : Lit ")" c = (c =? RPAREN).
Proof.
  unfold Lit. change (lit ")") with [RPAREN].
  destruct (N.eqb_spec c RPAREN) as [->|Hne].
  - apply bool_decide_eq_true_2. by left.
  - apply bool_decide_eq_false_2. by intros ?%list_elem_of_singleton.
Qed.

Lemma Lit_RBRACKET c : Lit "]" c = (c =? RBRACKET).
Proof.
  unfold Lit. change (lit "]") with [RBRACKET].
  destruct (N.eqb_spec c RBRACKET) as [->|Hne].
  - apply bool_decide_eq_true_2. by left.
  - apply bool_decide_eq_false_2. by intros ?%list_elem_of_singleton.
Qed.

(** What [REGEX] finds in a line that follows the syntax: every group is
    the part it stands for. *)
Lemma exec_print_parts (d : Descriptor) :
  well_formed d = true ->
  exists res,
    exec REGEX (print d) = Some res
    /\ group res 1 = Some (d_tag d)
    /\ group res 2
       = match d_classes d with
         | [] => None
         | _ :: _ => Some (concat (cons DOT <$> d_classes d))
         end
    /\ group res 3 = cons HASH <$> d_id d
    /\ group res 4 = d_content d
    /\ group res 5 = d_attributes d
    /\ group res 6 = last (d_events d).
Proof.
  destruct d as [tag cs id content attrs evs]. unfold well_formed, print.
  cbn [d_tag d_classes d_id d_content d_attributes d_events].
  rewrite !andb_true_iff.
  intros ((((((Htag & Hword) & Hcs) & Hid) & Hcontent) & Hattrs) & Hevs).
  destruct tag as [|t0 tag]; [done|]. clear Htag.
  cbn [forallb] in Hword. apply andb_true_iff in Hword as [Ht0 Hword].
  change (exec REGEX) with (exec_from 7 REGEX).
  rewrite <- (app_nil_r (concat (cons AT <$> evs))).
  set (R5 := concat (cons AT <$> evs) ++ []).
  set (R4 := from_option (fun a => LBRACKET :: a ++ [RBRACKET]) [] attrs ++ R5).
  set (R3 := from_option (fun c => LPAREN :: c ++ [RPAREN]) [] content ++ R4).
  set (R2 := from_option (cons HASH) [] id ++ R3).
  set (R1 := concat (cons DOT <$> cs) ++ R2).
  cbn [app exec_from]. rewrite matcher_Group.
  rewrite matcher_REGEX_at_word; [|done|total_rest].
  assert (stops is_word R1 = true) as H1.
  { subst R1 R2 R3 R4 R5. by destruct cs, id, content, attrs, evs. }
  assert (stops (fun c => word_or "-" c || Lit "." c) R2 = true) as H2.
  { subst R2 R3 R4 R5. by destruct id, content, attrs, evs. }
  assert (stops (word_or "-") R3 = true) as H3.
  { subst R3 R4 R5. by destruct content, attrs, evs. }
  assert (stops (Lit "#") R3 = true) as H3'.
  { subst R3 R4 R5. by destruct content, attrs, evs. }
  assert (stops (Lit "(") R4 = true) as H4.
  { subst R4 R5. by destruct attrs, evs. }
  assert (stops (Lit "[") R5 = true) as H5.
  { subst R5. by destruct evs. }
  assert (forallb (fun c => negb (Lit "]" c)) R5 = true) as H5'.
  { subst R5. rewrite app_nil_r. apply events_class_no; [done| |done].
    intros c Hc. rewrite Lit_RBRACKET.
    destruct (N.eqb_spec c RBRACKET) as [->|]; [done|done]. }
  assert (is_Some content -> forallb (fun c => negb (Lit ")" c)) R4 = true)
    as H4'.
  { intros [c ->]. subst R4 R5. rewrite app_nil_r, forallb_app.
    apply andb_true_iff. split.
    - destruct attrs as [a|]; [|done]. cbn [from_option] in *.
      apply andb_true_iff in Hattrs as [_ Ha].
      cbn [forallb]. rewrite forallb_app. simpl.
      rewrite andb_true_r. apply (forallb_impl _ _ _ (fun x H => H)).
      apply (forallb_impl (fun c => negb (c =? RPAREN))); [|done].
      intros x Hx. by rewrite Lit_RPAREN.
    - apply events_class_no; [done| |done].
      intros x Hx. rewrite Lit_RPAREN.
      destruct (N.eqb_spec x RPAREN) as [->|]; [done|done]. }
  rewrite (dropWhile_run is_word tag R1 Hword (stops_spec _ _ H1)).
  rewrite (takeWhile_run is_word tag R1 Hword (stops_spec _ _ H1)).
  unfold REGEX. cbn [after_tag]. rewrite !matcher_Seq.
  subst R1. rewrite matcher_classes; [|total_rest|done..].
  subst R2. rewrite matcher_prefixed; [|total_rest|done..].
  subst R3. rewrite matcher_bracketed; [|total_rest|done..].
  subst R4. rewrite matcher_bracketed; [|total_rest|done..| |done|done].
  2:{ destruct attrs as [a|]; [|done]. cbn [from_option] in *.
      by apply andb_true_iff in Hattrs as [? _]. }
  subst R5. rewrite matcher_events; [|total_rest|done..].
  eexists. split; [reflexivity|].
  repeat split;
    rewrite ?group_insert_ne, ?group_capture_ne by done;
    [ apply (group_insert_eq 1 (Some _))
    | apply group_capture_eq..];
    rewrite ?length_capture, ?length_insert, ?length_replicate;
    try lia;
    by rewrite ?group_insert_ne, ?group_capture_ne by done.
Qed.

(** X20. On a line that follows the syntax of the builder, the regular
    expression matches from the start and cuts the line into its parts:
    the tag; the run of classes, with its dots; the id, with its [#]; the
    content, which goes to the last [)] of the line; the attributes,
    which go to the last [\]]; and, of the events, the text after the
    last [@] only. A part that is not in the line leaves its group
    undefined. *)
Theorem exec_REGEX_print (d : Descriptor) :
  well_formed d = true ->
  exists res,
    exec REGEX (print d) = Some res
    /\ group res 1 = Some (d_tag d)
    /\ group res 2
       = match d_classes d with
         | [] => None
         | _ :: _ => Some (concat (cons DOT <$> d_classes d))
         end
    /\ group res 3 = cons HASH <$> d_id d
    /\ group res 4 = d_content d
    /\ group res 5 = d_attributes d
    /\ group res 6 = last (d_events d).
Proof. apply exec_print_parts. Qed.

(** ** The element of a line that follows the syntax *)

Lemma split_from_classes cur (cs : list jsstring) :
  Forall (fun c => DOT ∉ c) cs ->
  split_from [DOT] 0 cur (concat (cons DOT <$> cs)) = cur :: cs.
Proof.
  intros Hcs. revert cur.
  induction Hcs as [|c cs Hc _ IH]; intros cur; [done|].
  rewrite fmap_cons, concat_cons. cbn [app].
  rewrite split_from_sep. f_equal.
  rewrite split_from_no_sep by (by apply includes_absent).
  apply IH.
Qed.

Lemma word_or_dash_no_dot (c : jsstring) :
  forallb (word_or "-") c = true -> DOT ∉ c.
Proof.
  intros Hc Hin. apply list_elem_of_In in Hin.
  rewrite forallb_forall in Hc. specialize (Hc DOT Hin). by vm_compute in Hc.
Qed.

Lemma filter_nonempty (cs : list jsstring) :
  Forall (fun c => c ≠ []) cs -> List.filter nonempty cs = cs.
Proof.
  induction 1 as [|c cs Hc _ IH]; [done|]. simpl.
  destruct c; [done|]. simpl. by rewrite IH.
Qed.

Lemma split_from_whole (x : N) cur (s : jsstring) :
  includes s [x] = false -> split_from [x] 0 cur s = [cur ++ s].
Proof.
  intros Hs. rewrite <- (app_nil_r s) at 1.
  by rewrite split_from_no_sep.
Qed.

(** No match starts before the first word character of a line. *)
Lemma exec_from_skip pre line :
  forallb (fun c => negb (is_word c)) pre = true ->
  exec_from 7 REGEX (pre ++ line) = exec_from 7 REGEX line.
Proof.
  induction pre as [|c pre IH]; [done|]. simpl forallb.
  intros [Hc Hpre]%andb_true_iff. apply negb_true_iff in Hc.
  cbn [app exec_from]. rewrite (IH Hpre). unfold REGEX, Plus.
  by rewrite matcher_Group, matcher_Seq, matcher_Group, matcher_Seq,
    matcher_Chr_cons, Hc.
Qed.

Lemma stops_Lit (s t : string) (rest : jsstring) :
  (forall c, Lit t c = true -> Lit s c = true) ->
  stops (Lit s) rest = true -> stops (Lit t) rest = true.
Proof.
  intros Hts. destruct rest as [|c rest]; [done|]. simpl.
  rewrite !negb_true_iff. intros Hs.
  destruct (Lit t c) eqn:Ht; [|done]. by rewrite (Hts c Ht) in Hs.
Qed.

Lemma Lit_sub (s t : string) (c : N) :
  forallb (Lit s) (lit t) = true -> Lit t c = true -> Lit s c = true.
Proof.
  intros Hsub Hc. apply bool_decide_eq_true in Hc.
  rewrite forallb_forall in Hsub. apply Hsub. by apply list_elem_of_In.
Qed.

Section LineElements.
Context {Callback Options : Type}.
Variable decode : jsstring -> jsstring.
Abbreviation Builder := (@HTMLBuilder Callback Options).
Abbreviation DOMElement := (@Element Callback Options).

Lemma add_classes_fresh t acc i a l n (cs : list jsstring) :
  NoDup (acc ++ cs) ->
  Forall (fun c => starts_with_digit c = false) cs ->
  add_classes cs (mkElement t acc i a l n : DOMElement)
  = mkElement t (acc ++ cs) i a l n.
Proof.
  intros Hdup Hcs. revert acc Hdup.
  induction Hcs as [|c cs Hc _ IH]; intros acc Hdup.
  - by rewrite app_nil_r.
  - unfold add_classes in *. cbn [foldl]. rewrite Hc.
    cbn [classList_add].
    rewrite bool_decide_eq_false_2.
    + rewrite IH; [by rewrite <- app_assoc|]. by rewrite <- app_assoc.
    + apply NoDup_app in Hdup as (_ & Hdisj & _). intros Hin.
      apply (Hdisj c Hin). by left.
Qed.

(** A tag made of word characters is a name for the DOM unless it
    starts with a digit. *)
Lemma createElement_word (tag : jsstring) :
  tag ≠ [] -> forallb is_word tag = true ->
  createElement tag
  = if starts_with_digit tag then Throw InvalidCharacterError
    else Normal (new_element tag : DOMElement).
Proof.
  intros Htag Hword. unfold createElement.
  rewrite (valid_name_word tag Hword).
  destruct tag; [done|]. cbn [nonempty andb].
  by destruct (starts_with_digit _).
Qed.

Lemma well_formed_tag (d : Descriptor) :
  well_formed d = true -> d_tag d ≠ [] /\ forallb is_word (d_tag d) = true.
Proof.
  unfold well_formed. rewrite !andb_true_iff.
  intros ((((((Htag & Hword) & _) & _) & _) & _) & _).
  split; [|done]. by destruct (d_tag d).
Qed.

Lemma createElementFromLine_digit (this : Builder) (d : Descriptor) :
  well_formed d = true -> starts_with_digit (d_tag d) = true ->
  _createElementFromLine decode this (print d)
  = Throw InvalidCharacterError.
Proof.
  intros Hwf Hdigit. destruct (well_formed_tag d Hwf) as [Htag Hword].
  destruct (exec_print_parts _ Hwf) as (res & Hexec & H1 & _).
  unfold _createElementFromLine. rewrite Hexec.
  change (default [] (Some res)) with res. rewrite H1.
  destruct (d_tag d) as [|t0 tag] eqn:Hd; [done|]. cbn [truthy].
  by rewrite createElement_word, Hdigit.
Qed.

Lemma element_of_selector (this : Builder)
  (tag : jsstring) (cs : list jsstring) (id content : option jsstring) :
  well_formed (mkDescriptor tag cs id content None []) = true ->
  starts_with_digit tag = false ->
  NoDup cs ->
  Forall (fun c => c ≠ [] /\ starts_with_digit c = false) cs ->
  _createElementFromLine decode this
    (print (mkDescriptor tag cs id content None []))
  = Normal
      (mkElement tag cs (default [] id) [] []
         match truthy content with
         | Some c => [TextNode (decode c)]
         | None => []
         end).
Proof.
  intros Hwf Hdigit Hdup Hcs.
  destruct (well_formed_tag _ Hwf) as [Htag Hword].
  destruct (exec_print_parts _ Hwf)
    as (res & Hexec & H1 & H2 & H3 & H4 & H5 & H6).
  cbn [d_tag d_classes d_id d_content d_attributes d_events] in *.
  unfold _createElementFromLine. rewrite Hexec.
  change (default [] (Some res)) with res.
  rewrite H1, H2, H3, H4, H5, H6.
  destruct tag as [|t0 tag]; [done|]. cbn [truthy last].
  rewrite createElement_word, Hdigit by done.
  cbn [mbind completion_bind]. f_equal.
  assert (when ((fun m => List.filter nonempty (split (lit ".") m))
                  <$> truthy
                        match cs with
                        | [] => None
                        | _ :: _ => Some (concat (cons DOT <$> cs))
                        end)
            add_classes (new_element (t0 :: tag) : DOMElement)
          = mkElement (t0 :: tag) cs [] [] [] []) as ->.
  { destruct cs as [|c cs']; [done|].
    set (cs := c :: cs') in *.
    assert (truthy (Some (concat (cons DOT <$> cs)))
            = Some (concat (cons DOT <$> cs))) as -> by done.
    cbn [fmap option_fmap option_map when].
    change (split (lit ".") (concat (cons DOT <$> cs)))
      with (split_from [DOT] 0 [] (concat (cons DOT <$> cs))).
    rewrite split_from_classes.
    - cbn [List.filter nonempty]. rewrite filter_nonempty.
      + apply (add_classes_fresh _ []); [done|].
        apply (Forall_impl _ _ _ Hcs). by intros x [_ ?].
      + apply (Forall_impl _ _ _ Hcs). by intros x [? _].
    - unfold well_formed in Hwf.
      cbn [d_tag d_classes d_id d_content d_attributes d_events] in Hwf.
      rewrite !andb_true_iff in Hwf.
      destruct Hwf as ((((((_ & _) & Hwd) & _) & _) & _) & _).
      apply Forall_forall. intros x Hx. apply word_or_dash_no_dot.
      rewrite forallb_forall in Hwd. apply Hwd.
      by apply list_elem_of_In. }
  by destruct id as [[|i0 i]|], content as [[|c0 c]|].
Qed.

(** X21. A line made of a tag, classes, an id and a content, each of
    the last three being optional, throws the [InvalidCharacterError]
    of [document.createElement] when the tag starts with a digit, and
    otherwise gives the element with that tag, these classes in their
    order, that id and the decoded content as its only child node; the
    classes are distinct and none is empty or starts with a digit. An
    empty id or content is as an absent one. *)
Theorem createElementFromLine_selector (this : Builder)
  (tag : jsstring) (cs : list jsstring) (id content : option jsstring) :
  well_formed (mkDescriptor tag cs id content None []) = true ->
  NoDup cs ->
  Forall (fun c => c ≠ [] /\ starts_with_digit c = false) cs ->
  _createElementFromLine decode this
    (print (mkDescriptor tag cs id content None []))
  = if starts_with_digit tag then Throw InvalidCharacterError
    else Normal
           (mkElement tag cs (default [] id) [] []
              match truthy content with
              | Some c => [TextNode (decode c)]
              | None => []
              end).
Proof.
  intros Hwf Hdup Hcs. destruct (starts_with_digit tag) eqn:Hdigit.
  - by apply createElementFromLine_digit.
  - by apply element_of_selector.
Qed.

Lemma element_of_attributes (this : Builder)
  (symbol tag attrs : jsstring) :
  well_formed (mkDescriptor tag [] None None (Some attrs) []) = true ->
  starts_with_digit tag = false ->
  attrs ≠ [] ->
  _createElementFromLine decode
    (changeSymbolBetweenAttributes this symbol)
    (print (mkDescriptor tag [] None None (Some attrs) []))
  = set_attributes (split symbol attrs) (new_element tag).
Proof.
  intros Hwf Hdigit Hattrs.
  destruct (well_formed_tag _ Hwf) as [Htag Hword].
  destruct (exec_print_parts _ Hwf)
    as (res & Hexec & H1 & H2 & H3 & H4 & H5 & H6).
  cbn [d_tag d_classes d_id d_content d_attributes d_events] in *.
  unfold _createElementFromLine. rewrite Hexec.
  change (default [] (Some res)) with res.
  rewrite H1, H2, H3, H4, H5, H6.
  destruct tag as [|t0 tag]; [done|]. cbn [truthy last].
  rewrite createElement_word, Hdigit by done.
  cbn [mbind completion_bind].
  destruct attrs as [|a0 attrs]; [done|].
  cbn [truthy fmap option_fmap option_map when SYMBOL_BETWEEN_ATTRIBUTES
         changeSymbolBetweenAttributes].
  by destruct (set_attributes _ _).
Qed.

(** X22. A line made of a tag and of a text between brackets throws
    the [InvalidCharacterError] of [document.createElement] when the
    tag starts with a digit. Otherwise the text, which goes to the
    last [\]] of the line, is cut at the symbol that
    [changeSymbolBetweenAttributes] has set, whatever the symbol is,
    and the pieces are taken as attribute entries in the order of the
    line, on the bare element of the tag: the line ends as that loop
    does, with the [InvalidCharacterError] of the first entry whose
    name [setAttribute] refuses, or with the element that has the
    attributes of all the entries. *)
Theorem createElementFromLine_attributes (this : Builder)
  (symbol tag attrs : jsstring) :
  well_formed (mkDescriptor tag [] None None (Some attrs) []) = true ->
  attrs ≠ [] ->
  _createElementFromLine decode
    (changeSymbolBetweenAttributes this symbol)
    (print (mkDescriptor tag [] None None (Some attrs) []))
  = (if starts_with_digit tag then Throw InvalidCharacterError
     else set_attributes (split symbol attrs) (new_element tag))
  /\ (set_attributes (split symbol attrs) (new_element tag : DOMElement)
      = Throw InvalidCharacterError
      \/ exists element,
          set_attributes (split symbol attrs) (new_element tag : DOMElement)
          = Normal element).
Proof.
  intros Hwf Hattrs. split.
  - destruct (starts_with_digit tag) eqn:Hdigit.
    + by apply createElementFromLine_digit.
    + by apply element_of_attributes.
  - destruct (set_attributes_cases (split symbol attrs)
                (new_element tag : DOMElement)) as [?|(e & ? & _)];
      [by left|right; by exists e].
Qed.

(** X23. Of several [@] groups at the end of a line only the last one
    counts: the line gives the element that it gives with the last
    group alone, so that the names of the groups before it bind
    nothing, and nothing at all is bound when the last group is
    empty. *)
Theorem createElementFromLine_last_events (this : Builder)
  (d : Descriptor) :
  well_formed d = true ->
  _createElementFromLine decode this (print d)
  = _createElementFromLine decode this
      (print
         (mkDescriptor (d_tag d) (d_classes d) (d_id d) (d_content d)
            (d_attributes d) (option_list (last (d_events d))))).
Proof.
  intros Hwf.
  set (d' := mkDescriptor (d_tag d) (d_classes d) (d_id d) (d_content d)
               (d_attributes d) (option_list (last (d_events d)))).
  assert (well_formed d' = true) as Hwf'.
  { revert Hwf. unfold well_formed. subst d'.
    cbn [d_tag d_classes d_id d_content d_attributes d_events].
    rewrite !andb_true_iff.
    intros ((((((? & ?) & ?) & ?) & ?) & ?) & Hevs).
    repeat split; [done..|].
    destruct (last (d_events d)) as [e|] eqn:Hlast; [|done].
    apply last_Some in Hlast as [evs Hevs'].
    rewrite Hevs', forallb_app in Hevs.
    by apply andb_true_iff in Hevs as [_ ?]. }
  destruct (exec_print_parts d Hwf)
    as (res & Hexec & H1 & H2 & H3 & H4 & H5 & H6).
  destruct (exec_print_parts d' Hwf')
    as (res' & Hexec' & H1' & H2' & H3' & H4' & H5' & H6').
  subst d'.
  cbn [d_tag d_classes d_id d_content d_attributes d_events] in *.
  unfold _createElementFromLine. rewrite Hexec, Hexec'.
  change (default [] (Some res)) with res.
  change (default [] (Some res')) with res'.
  rewrite H1, H2, H3, H4, H5, H6, H1', H2', H3', H4', H5', H6'.
  assert (last (option_list (last (d_events d))) = last (d_events d))
    as -> by (by destruct (last (d_events d))).
  destruct (d_tag d) as [|t0 tag]; [|done].
  revert Hwf. unfold well_formed. by destruct d.
Qed.

Lemma element_of_event (this : Builder)
  (tag name : jsstring) :
  well_formed (mkDescriptor tag [] None None None [name]) = true ->
  starts_with_digit tag = false ->
  name ≠ [] -> starts_with_digit name = false ->
  includes name (lit ";") = false ->
  _createElementFromLine decode this
    (print (mkDescriptor tag [] None None None [name]))
  = Normal
      (mkElement tag [] [] []
         match _searchForEvent this name with
         | Some event => [(type event, callback event, options event)]
         | None => []
         end []).
Proof.
  intros Hwf Htagdigit Hname Hdigit Hsep.
  destruct (well_formed_tag _ Hwf) as [Htag Hword].
  destruct (exec_print_parts _ Hwf)
    as (res & Hexec & H1 & H2 & H3 & H4 & H5 & H6).
  cbn [d_tag d_classes d_id d_content d_attributes d_events] in *.
  unfold _createElementFromLine. rewrite Hexec.
  change (default [] (Some res)) with res.
  rewrite H1, H2, H3, H4, H5, H6.
  destruct tag as [|t0 tag]; [done|].
  assert (truthy (last [name]) = Some name) as -> by (by destruct name).
  cbn [truthy]. rewrite createElement_word, Htagdigit by done.
  cbn [mbind completion_bind fmap option_fmap option_map when]. f_equal.
  change (split (lit ";") name) with (split_from [59] 0 [] name).
  change (lit ";") with [59] in Hsep.
  rewrite (split_from_whole 59 [] name Hsep).
  destruct name as [|n0 name]; [done|].
  cbn [app List.filter nonempty add_events foldl]. rewrite Hdigit.
  by destruct (_searchForEvent this (n0 :: name)).
Qed.

(** X24. A line made of a tag and of one event name throws the
    [InvalidCharacterError] of [document.createElement] when the tag
    starts with a digit; otherwise its element gets the listener of
    the binding that [_searchForEvent] finds under that name, its
    type, callback and options, and no listener when the name resolves
    to nothing. *)
Theorem createElementFromLine_event (this : Builder)
  (tag name : jsstring) :
  well_formed (mkDescriptor tag [] None None None [name]) = true ->
  name ≠ [] -> starts_with_digit name = false ->
  includes name (lit ";") = false ->
  _createElementFromLine decode this
    (print (mkDescriptor tag [] None None None [name]))
  = if starts_with_digit tag then Throw InvalidCharacterError
    else Normal
           (mkElement tag [] [] []
              match _searchForEvent this name with
              | Some event => [(type event, callback event, options event)]
              | None => []
              end []).
Proof.
  intros Hwf Hname Hdigit Hsep. destruct (starts_with_digit tag) eqn:Htag.
  - by apply createElementFromLine_digit.
  - by apply element_of_event.
Qed.

Lemma element_after_markers (this : Builder)
  (before line : jsstring) :
  forallb (fun c => negb (is_word c)) before = true ->
  existsb is_word line = true ->
  _createElementFromLine decode this (before ++ line)
  = _createElementFromLine decode this line.
Proof.
  intros Hbefore Hword. unfold _createElementFromLine.
  change (exec REGEX) with (exec_from 7 REGEX).
  rewrite (exec_from_skip before line Hbefore).
  destruct (exec_REGEX_word line Hword) as (res & Hres & Hg).
  change (exec REGEX) with (exec_from 7 REGEX) in Hres.
  rewrite Hres. change (default [] (Some res)) with res. rewrite Hg.
  pose proof (first_word_nonempty line Hword).
  by destruct (first_word line).
Qed.

(** X25. The code units before the first word character of a line,
    the [>] of its level among them, play no part in the element that
    is created from the line. *)
Theorem createElementFromLine_markers (this : Builder)
  (before line : jsstring) :
  forallb (fun c => negb (is_word c)) before = true ->
  existsb is_word line = true ->
  _createElementFromLine decode this (before ++ line)
  = _createElementFromLine decode this line.
Proof. apply element_after_markers. Qed.

(** X26. What follows the tag and does not start with [.], [#], [(],
    [\[] or [@] is ignored, and so is everything after it: the line
    ends as [document.createElement] does on the tag alone, with its
    [InvalidCharacterError] when the tag starts with a digit and
    otherwise with the bare element of the tag. *)
Theorem createElementFromLine_ignores_rest (this : Builder)
  (tag rest : jsstring) :
  tag ≠ [] -> forallb is_word tag = true ->
  stops (fun c => is_word c || Lit ".#([@" c) rest = true ->
  _createElementFromLine decode this (tag ++ rest)
  = if starts_with_digit tag then Throw InvalidCharacterError
    else Normal (new_element tag).
Proof.
  intros Htag Hword Hrest.
  rewrite <- (createElement_word tag Htag Hword).
  destruct (stops_or _ _ _ Hrest) as [Hrest1 Hrest2].
  destruct tag as [|t0 tag]; [done|].
  cbn [forallb] in Hword. apply andb_true_iff in Hword as [Ht0 Hword].
  unfold _createElementFromLine.
  change (exec REGEX) with (exec_from 7 REGEX).
  cbn [app exec_from]. rewrite matcher_Group.
  rewrite matcher_REGEX_at_word; [|done|total_rest].
  rewrite (dropWhile_run is_word tag rest Hword (stops_spec _ _ Hrest1)).
  rewrite (takeWhile_run is_word tag rest Hword (stops_spec _ _ Hrest1)).
  unfold REGEX. cbn [after_tag]. rewrite !matcher_Seq.
  rewrite matcher_classes_absent, matcher_prefixed_absent,
    !matcher_bracketed_absent, matcher_events_absent;
    try (apply (stops_Lit ".#([@"); [|done]; intros c;
         apply Lit_sub; by vm_compute).
  transitivity
    (createElement (t0 :: tag)
       ≫= (fun element : DOMElement => Normal element));
    [reflexivity|].
  by destruct (createElement (t0 :: tag)).
Qed.
End LineElements.

(** ** The templates of [ContextMenu] *)

(** *** Templates written over several lines *)

Lemma trimStart_blank (b s : jsstring) :
  forallb is_whitespace b = true -> trimStart (b ++ s) = trimStart s.
Proof.
  intros Hb. unfold trimStart. apply dropWhile_all.
  induction b as [|c b IH]; [done|]. simpl in *.
  apply andb_true_iff in Hb as [-> Hb]. by apply IH.
Qed.

Lemma trimEnd_blank (s b : jsstring) :
  forallb is_whitespace b = true -> trimEnd (s ++ b) = trimEnd s.
Proof.
  intros Hb. unfold trimEnd. rewrite rev_app_distr. f_equal.
  apply dropWhile_all.
  assert (forallb is_whitespace (rev b) = true) as Hrev.
  { rewrite forallb_forall in *. intros x Hx. apply Hb.
    by apply in_rev. }
  clear Hb. induction (rev b) as [|c r IH]; [done|]. simpl in *.
  apply andb_true_iff in Hrev as [-> Hrev]. by apply IH.
Qed.

Lemma trim_blank (b : jsstring) :
  forallb is_whitespace b = true -> trim b = [].
Proof.
  intros Hb. unfold trim.
  rewrite <- (app_nil_r b), trimStart_blank by done. done.
Qed.

Lemma trimStart_app (a b : jsstring) :
  trimStart a ≠ [] -> trimStart (a ++ b) = trimStart a ++ b.
Proof. apply dropWhile_app. Qed.

Lemma clean_ends (c : char) (a : jsstring) (d : char) :
  is_whitespace c = false -> is_whitespace d = false ->
  clean (c :: a ++ [d]).
Proof.
  intros Hc Hd. split; [|done]. rewrite trim_cons by done. f_equal.
  assert (trimEnd [d] = [d]) as Hend.
  { unfold trimEnd. simpl. by rewrite Hd. }
  rewrite trimEnd_app; by rewrite Hend.
Qed.

Lemma clean_indented (n : nat) (line : jsstring) :
  clean (replicate (S n) GT ++ trim line).
Proof. split; [apply trim_indented|done]. Qed.

Lemma trim_raw (ws text : jsstring) :
  forallb is_whitespace ws = true -> clean text -> trim (ws ++ text) = text.
Proof.
  intros Hws [Htext _]. unfold trim. rewrite trimStart_blank by done.
  apply Htext.
Qed.

Lemma clean_trimStart (text : jsstring) :
  clean text -> trimStart text = text /\ trimEnd text = text.
Proof.
  intros [Htrim Hne]. rewrite trim_unfold in Htrim.
  destruct (trimStart text) as [|c rest] eqn:Hstart.
  { by subst text. }
  pose proof (trimStart_head _ _ _ Hstart) as Hc.
  subst text. split.
  - unfold trimStart in Hstart. cbn [dropWhile] in Hstart.
    by rewrite Hc in Hstart.
  - by rewrite trimEnd_cons, trimEnd_idemp.
Qed.

(** [extracted], line by line. *)
Lemma extracted_text (ws text : jsstring) (rest : list jsstring) :
  forallb is_whitespace ws = true -> clean text ->
  extracted ((ws ++ text) :: rest) = text :: extracted rest.
Proof.
  intros Hws Htext. cbn [extracted]. rewrite trim_raw by done.
  destruct Htext as [_ Hne]. by destruct text.
Qed.

Lemma extracted_blank (b next : jsstring) (rest : list jsstring) :
  forallb is_whitespace b = true ->
  extracted (b :: next :: rest) = next :: extracted rest.
Proof. intros Hb. cbn [extracted]. by rewrite trim_blank. Qed.

Lemma join_lines_cons (y z : jsstring) (Y : list jsstring) :
  join_lines (y :: z :: Y) = y ++ [LF] ++ join_lines (z :: Y).
Proof. done. Qed.

Lemma join_lines_snoc (A : list jsstring) (z : jsstring) :
  join_lines (A ++ [z]) = concat ((fun y => y ++ [LF]) <$> A) ++ z.
Proof.
  induction A as [|y A IH]; [done|].
  rewrite fmap_cons, concat_cons, <- !app_assoc, <- IH.
  destruct A; done.
Qed.

Lemma join_lines_app (A : list jsstring) (z : jsstring) (B : list jsstring) :
  join_lines (A ++ z :: B)
  = concat ((fun y => y ++ [LF]) <$> A) ++ z ++ concat (cons LF <$> B).
Proof.
  revert A z. induction B as [|b B IH]; intros A z.
  - by rewrite join_lines_snoc, app_nil_r.
  - change (A ++ z :: b :: B) with (A ++ [z] ++ b :: B).
    rewrite app_assoc, IH, fmap_app, concat_app, fmap_cons, concat_cons.
    cbn [fmap list_fmap concat]. by rewrite app_nil_r, <- !app_assoc.
Qed.

Lemma blank_before (B : list jsstring) :
  Forall (fun b => forallb is_whitespace b = true) B ->
  forallb is_whitespace (concat ((fun y => y ++ [LF]) <$> B)) = true.
Proof.
  induction 1 as [|b B Hb _ IH]; [done|].
  rewrite fmap_cons, concat_cons, !forallb_app, Hb, IH. done.
Qed.

Lemma blank_after (B : list jsstring) :
  Forall (fun b => forallb is_whitespace b = true) B ->
  forallb is_whitespace (concat (cons LF <$> B)) = true.
Proof.
  induction 1 as [|b B Hb _ IH]; [done|].
  rewrite fmap_cons, concat_cons. cbn [app forallb]. 
  by rewrite forallb_app, Hb, IH.
Qed.

(** The lines of a template that is written over several lines of the
    source: the blank lines at its ends go, and so does the white space
    before its first text and after its last one. *)
Lemma extractLinesFrom_raw (B1 : list jsstring) (ws : jsstring)
  (first : jsstring) (M : list jsstring) (last : jsstring)
  (B2 : list jsstring) :
  Forall (fun b => forallb is_whitespace b = true) B1 ->
  Forall (fun b => forallb is_whitespace b = true) B2 ->
  forallb is_whitespace ws = true ->
  clean first -> trimEnd last ≠ [] ->
  Forall (fun y => LF ∉ y) (first :: M ++ [last]) ->
  _extractLinesFrom (join_lines (B1 ++ (ws ++ first) :: M ++ last :: B2))
  = extracted (first :: M ++ [trimEnd last]).
Proof.
  intros HB1 HB2 Hws Hfirst Hlast Hlf.
  rewrite extractLinesFrom_extracted. f_equal.
  change ((ws ++ first) :: M ++ last :: B2)
    with (((ws ++ first) :: M) ++ last :: B2).
  rewrite app_assoc, join_lines_app, fmap_app, concat_app.
  rewrite fmap_cons, concat_cons, <- !app_assoc.
  unfold trim. rewrite trimStart_blank by (by apply blank_before).
  rewrite trimStart_blank by done.
  destruct (clean_trimStart first Hfirst) as [Hstart _].
  destruct Hfirst as [_ Hne].
  rewrite trimStart_app by (by rewrite Hstart). rewrite Hstart.
  rewrite !app_assoc, trimEnd_blank by (by apply blank_after).
  rewrite trimEnd_app by done. rewrite <- !app_assoc.
  transitivity (split [LF] (join_lines ((first :: M) ++ [trimEnd last]))).
  { f_equal.
    by rewrite join_lines_snoc, fmap_cons, concat_cons, <- !app_assoc. }
  cbn [app]. change (split [LF] ?s) with (split_from [LF] 0 [] s).
  apply (split_from_join [] first (M ++ [trimEnd last])).
  apply Forall_cons in Hlf as [Hf Hlf]. apply Forall_cons. split; [done|].
  apply Forall_app in Hlf as [HM Hl]. apply Forall_app. split; [done|].
  apply Forall_singleton. apply (proj1 (Forall_singleton _ _)) in Hl.
  intros Hin. apply Hl. unfold trimEnd in Hin.
  apply (proj1 (elem_of_rev_iff _ _)) in Hin. apply elem_of_dropWhile in Hin.
  by apply (proj1 (elem_of_rev_iff _ _)) in Hin.
Qed.

(** *** Numbers in names *)

Lemma string_of_uint_digits (d : Decimal.uint) :
  forallb is_digit (lit (NilEmpty.string_of_uint d)) = true.
Proof. induction d; [done|by apply andb_true_iff..]. Qed.

Lemma toString_digits (n : N) :
  forallb is_digit (ContextMenu.toString n) = true.
Proof.
  unfold ContextMenu.toString, NilZero.string_of_uint.
  destruct (N.to_uint n) eqn:Hn; [done|apply string_of_uint_digits..].
Qed.

Lemma toString_nonempty (n : N) : ContextMenu.toString n ≠ [].
Proof.
  unfold ContextMenu.toString, NilZero.string_of_uint.
  by destruct (N.to_uint n).
Qed.

Lemma digit_no_line_feed (s : jsstring) :
  forallb is_digit s = true -> LF ∉ s.
Proof.
  intros Hs Hin. apply list_elem_of_In in Hin.
  rewrite forallb_forall in Hs. by specialize (Hs LF Hin).
Qed.

Lemma digit_clean_end (a : jsstring) (c : char) (s : jsstring) :
  is_whitespace c = false -> forallb is_digit s = true -> s ≠ [] ->
  clean (c :: a ++ s).
Proof.
  intros Hc Hs Hne.
  destruct (exists_last Hne) as (s' & d & ->).
  rewrite app_assoc. apply clean_ends; [done|].
  rewrite forallb_app in Hs. apply andb_true_iff in Hs as [_ Hd].
  simpl in Hd. rewrite andb_true_r in Hd.
  unfold is_digit in Hd. apply andb_true_iff in Hd as [H1 H2].
  apply N.leb_le in H1, H2. unfold is_whitespace.
  repeat (apply orb_false_iff; split);
    try (apply N.eqb_neq; lia);
    apply andb_false_iff;
    first [left; apply N.leb_gt; lia | right; apply N.leb_gt; lia].
Qed.

(** *** The lines of an item *)

Lemma no_line_feed_app (a b : jsstring) :
  LF ∉ a -> LF ∉ b -> LF ∉ a ++ b.
Proof. intros Ha Hb Hin. apply elem_of_app in Hin as [?|?]; auto. Qed.

Ltac no_line_feed :=
  repeat apply no_line_feed_app;
  try done; try (apply (bool_decide_unpack _); by vm_compute).

Lemma trimEnd_raw (ws text : jsstring) :
  clean text -> trimEnd (ws ++ text) = ws ++ text.
Proof.
  intros Htext. destruct (clean_trimStart text Htext) as [_ Hend].
  destruct Htext as [_ Hne]. rewrite trimEnd_app; by rewrite Hend.
Qed.

Lemma extracted_clean (text : jsstring) (rest : list jsstring) :
  clean text -> extracted (text :: rest) = text :: extracted rest.
Proof. apply (extracted_text []). done. Qed.

Lemma join_lines_line_feed (A : list jsstring) (x z : jsstring) :
  join_lines (A ++ [x ++ [LF]; z]) = join_lines (A ++ [x; []; z]).
Proof.
  rewrite (join_lines_app A (x ++ [LF]) [z]), (join_lines_app A x [[]; z]).
  cbn [fmap list_fmap concat app]. by rewrite <- !app_assoc.
Qed.

Lemma simple_template_lines (e : jsstring) (icon : option jsstring)
  (title : jsstring) (shortcut : option jsstring) :
  clean (lit "li@" ++ e) -> LF ∉ e -> LF ∉ title ->
  LF ∉ default [] icon -> LF ∉ default [] shortcut ->
  trim <$> _extractLinesFrom (ContextMenu.simple_template e icon title shortcut)
  = ContextMenu.leaf_lines e icon title shortcut.
Proof.
  intros He Hlfe Hlft Hlfi Hlfs.
  set (l2 := lit ">div.contextmenu-item").
  set (l3 := lit ">>div.contextmenu-container-title").
  set (l5 := lit ">>>span.contextmenu-title(" ++ title ++ lit ")").
  assert (clean l2) as Hl2 by (by split).
  assert (clean l3) as Hl3 by (by split).
  assert (clean l5) as Hl5.
  { exact (clean_ends 62 (lit ">>span.contextmenu-title(" ++ title) 41
             eq_refl eq_refl). }
  assert (forall i, clean (lit ">>>img[src=" ++ i ++ lit "]")) as Hicon.
  { intros i. exact (clean_ends 62 (lit ">>img[src=" ++ i) 93
                       eq_refl eq_refl). }
  assert (forall s, clean (lit ">>span.contextmenu-shortcut(" ++ s ++ lit ")"))
    as Hshortcut.
  { intros s. exact (clean_ends 62 (lit ">span.contextmenu-shortcut(" ++ s) 41
                       eq_refl eq_refl). }
  unfold ContextMenu.simple_template, ContextMenu.leaf_lines.
  change (join_lines ?R)
    with (join_lines
            ([ [];
               ContextMenu.spaces 16 ++ (lit "li@" ++ e);
               ContextMenu.spaces 20 ++ l2;
               ContextMenu.tabs 6 ++ l3;
               ContextMenu.tabs 7 ++ ContextMenu.icon_line icon;
               ContextMenu.tabs 7 ++ l5 ]
               ++ [ (ContextMenu.tabs 6 ++ ContextMenu.shortcut_line shortcut)
                      ++ [LF];
                    ContextMenu.spaces 12 ])).
  rewrite join_lines_line_feed.
  destruct shortcut as [s|]; cbn [ContextMenu.shortcut_line from_option].
  - change (join_lines ?R)
      with (join_lines
              ([[]] ++ (ContextMenu.spaces 16 ++ (lit "li@" ++ e))
                 :: [ ContextMenu.spaces 20 ++ l2;
                      ContextMenu.tabs 6 ++ l3;
                      ContextMenu.tabs 7 ++ ContextMenu.icon_line icon;
                      ContextMenu.tabs 7 ++ l5 ]
                 ++ (ContextMenu.tabs 6
                       ++ (lit ">>span.contextmenu-shortcut(" ++ s ++ lit ")"))
                 :: [[]; ContextMenu.spaces 12])).
    rewrite extractLinesFrom_raw; [|by repeat constructor..|done|done| |].
    + rewrite trimEnd_raw by done. cbn [app].
      rewrite extracted_clean, !extracted_text by done.
      destruct icon as [i|]; cbn [ContextMenu.icon_line from_option].
      * rewrite !extracted_text by done. cbn [extracted fmap list_fmap app].
        by rewrite (proj1 He), (proj1 Hl2), (proj1 Hl3), (proj1 (Hicon i)),
          (proj1 Hl5), (proj1 (Hshortcut s)).
      * rewrite app_nil_r, extracted_blank, extracted_text by done.
        cbn [extracted fmap list_fmap app].
        by rewrite (proj1 He), (proj1 Hl2), (proj1 Hl3), trim_raw,
          (proj1 (Hshortcut s)).
    + rewrite trimEnd_raw by done. done.
    + subst l2 l3 l5. destruct icon;
        cbn [default from_option ContextMenu.icon_line] in *;
        repeat constructor; no_line_feed.
  - change (join_lines ?R)
      with (join_lines
              ([[]] ++ (ContextMenu.spaces 16 ++ (lit "li@" ++ e))
                 :: [ ContextMenu.spaces 20 ++ l2;
                      ContextMenu.tabs 6 ++ l3;
                      ContextMenu.tabs 7 ++ ContextMenu.icon_line icon ]
                 ++ (ContextMenu.tabs 7 ++ l5)
                 :: [ContextMenu.tabs 6; []; ContextMenu.spaces 12])).
    rewrite extractLinesFrom_raw; [|by repeat constructor..|done|done| |].
    + rewrite trimEnd_raw by done. cbn [app].
      rewrite extracted_clean, !extracted_text by done.
      destruct icon as [i|]; cbn [ContextMenu.icon_line from_option].
      * rewrite !extracted_text by done. cbn [extracted fmap list_fmap app].
        by rewrite (proj1 He), (proj1 Hl2), (proj1 Hl3), (proj1 (Hicon i)),
          (proj1 Hl5).
      * rewrite app_nil_r, extracted_blank by done.
        cbn [extracted fmap list_fmap app].
        by rewrite (proj1 He), (proj1 Hl2), (proj1 Hl3), trim_raw.
    + rewrite trimEnd_raw by done. done.
    + subst l2 l3 l5. destruct icon;
        cbn [default from_option ContextMenu.icon_line] in *;
        repeat constructor; no_line_feed.
Qed.

Section MenuLines.
Context {UserCallback Options : Type}.
Variable random : nat -> N.
Abbreviation Item := (@ContextMenu.Item UserCallback).
Abbreviation Menu := (@ContextMenu.Menu UserCallback Options).

Lemma buildItem_leaf (cut : bool) (this : Menu) (item : Item) :
  cut = true \/ ContextMenu.children item = None ->
  ContextMenu._buildItem random cut this item
  = (Normal
       (ContextMenu.simple_template
          (ContextMenu.item_event_name random (ContextMenu.calls this) item)
          (truthy (ContextMenu.icon item))
          (default [] (ContextMenu.title item))
          (truthy (ContextMenu.shortcut item))),
     match ContextMenu.onclick item with
     | Some onclick =>
         ContextMenu.mkMenu
           (mkHTMLBuilder
              (SYMBOL_BETWEEN_ATTRIBUTES (ContextMenu.builder this))
              (EVENTS (ContextMenu.builder this)
                 ++ [mkEvent
                       (Some (ContextMenu.item_event_name random (ContextMenu.calls this) item))
                       (Some (lit "click"))
                       (Some (ContextMenu.ItemClick onclick)) None])
              (parent (ContextMenu.builder this)))
           (S (ContextMenu.calls this)) (ContextMenu.menuid this)
     | None => this
     end).
Proof.
  destruct item as [t s i o sep ch]. unfold ContextMenu.item_event_name.
  cbn [ContextMenu.children ContextMenu.onclick ContextMenu.icon
         ContextMenu.title ContextMenu.shortcut].
  intros Hleaf.
  assert (match cut, ch with
          | false, Some _ => true
          | _, _ => false
          end = false) as Hno.
  { destruct Hleaf as [-> | ->]; [done|by destruct cut]. }
  cbn [ContextMenu._buildItem]. rewrite Hno.
  destruct o as [f|].
  - cbn [ContextMenu._rand ContextMenu.bind ContextMenu.builder
           ContextMenu.calls ContextMenu.menuid].
    change (0 + ?x mod (1000000 - 0)) with (x mod 1000000).
    unfold bindEvent. cbn [name type callback options].
    change (missing (Some (lit "eventitem-" ++ ?x))) with false.
    change (missing (Some (lit "click"))) with false.
    change (startsWith (lit "eventitem-" ++ ?x) (lit "on")) with false.
    cbn [SYMBOL_BETWEEN_ATTRIBUTES EVENTS parent].
    destruct Hleaf as [-> | ->]; [done|by destruct cut].
  - destruct Hleaf as [-> | ->]; [done|by destruct cut].
Qed.

Lemma item_event_name_clean (calls : nat) (item : Item) :
  clean (lit "li@" ++ ContextMenu.item_event_name random calls item)
  /\ LF ∉ ContextMenu.item_event_name random calls item.
Proof.
  unfold ContextMenu.item_event_name.
  destruct (ContextMenu.onclick item) as [f|];
    [|split; [by split|apply not_elem_of_nil]].
  pose proof (toString_digits (random calls mod 1000000)) as Hdigits.
  split.
  - apply (digit_clean_end (lit "i@eventitem-") 108); [done..|].
    apply toString_nonempty.
  - apply no_line_feed_app; [no_line_feed|].
    by apply digit_no_line_feed.
Qed.

Lemma truthy_no_line_feed (x : option jsstring) :
  LF ∉ default [] x -> LF ∉ default [] (truthy x).
Proof. by destruct x as [[|c s]|]. Qed.

Lemma leaf_template_indented (calls : nat) (item : Item) (n : nat) :
  LF ∉ default [] (ContextMenu.title item) ->
  LF ∉ default [] (ContextMenu.icon item) ->
  LF ∉ default [] (ContextMenu.shortcut item) ->
  _extractLinesFrom
    (indentTemplate
       (ContextMenu.simple_template
          (ContextMenu.item_event_name random calls item)
          (truthy (ContextMenu.icon item))
          (default [] (ContextMenu.title item))
          (truthy (ContextMenu.shortcut item)))
       (S n))
  = (fun line => replicate (S n) GT ++ line)
      <$> ContextMenu.leaf_lines
            (ContextMenu.item_event_name random calls item)
            (truthy (ContextMenu.icon item))
            (default [] (ContextMenu.title item))
            (truthy (ContextMenu.shortcut item)).
Proof.
  intros Htitle Hicon Hshortcut.
  destruct (item_event_name_clean calls item) as [Hclean Hlf].
  rewrite extractLinesFrom_indentTemplate.
  rewrite <- simple_template_lines
    by auto using truthy_no_line_feed.
  by rewrite <- list_fmap_compose.
Qed.

(** X27. The template that [_buildItem] returns for an item without
    children, indented, has the lines of the item and no other: the
    [li] with the name of its event, the two [div], the image when
    there is an icon, the title, and the shortcut when there is one,
    each at its level. An icon or a shortcut that is absent or empty
    leaves no line, and the white space of the template none. No line
    feed is in the title, the icon or the shortcut. *)
Theorem buildItem_leaf_lines (cut : bool) (this : Menu) (item : Item)
  (n : nat) :
  cut = true \/ ContextMenu.children item = None ->
  LF ∉ default [] (ContextMenu.title item) ->
  LF ∉ default [] (ContextMenu.icon item) ->
  LF ∉ default [] (ContextMenu.shortcut item) ->
  exists template this',
    ContextMenu._buildItem random cut this item = (Normal template, this')
    /\ _extractLinesFrom (indentTemplate template (S n))
       = (fun line => replicate (S n) GT ++ line)
           <$> ContextMenu.leaf_lines
                 (ContextMenu.item_event_name random
                    (ContextMenu.calls this) item)
                 (truthy (ContextMenu.icon item))
                 (default [] (ContextMenu.title item))
                 (truthy (ContextMenu.shortcut item)).
Proof.
  intros Hleaf Htitle Hicon Hshortcut.
  rewrite (buildItem_leaf cut this item Hleaf).
  eexists _, _. split; [done|]. by apply leaf_template_indented.
Qed.
End MenuLines.

(** *** The lines of the menu *)

Lemma join_lines_concat (L1 L2 : list jsstring) :
  L1 ≠ [] -> L2 ≠ [] ->
  join_lines L1 ++ [LF] ++ join_lines L2 = join_lines (L1 ++ L2).
Proof.
  intros H1 H2. destruct (exists_last H1) as (A & z & ->).
  destruct L2 as [|y L2]; [done|].
  rewrite (join_lines_app (A ++ [z]) y L2), join_lines_snoc.
  pose proof (join_lines_app [] y L2) as Hy.
  cbn [fmap list_fmap concat app] in Hy. rewrite Hy.
  rewrite fmap_app, concat_app. cbn [fmap list_fmap concat app].
  by rewrite <- !app_assoc, ?app_nil_r.
Qed.

Lemma extracted_clean_lines (L : list jsstring) :
  Forall clean L -> extracted L = L.
Proof.
  induction 1 as [|y L Hy _ IH]; [done|].
  by rewrite extracted_clean, IH.
Qed.

(** The lines of the template of [_build]: the two lines of the header
    and the lines that the loop has appended. *)
Lemma menu_template_lines (id : jsstring) (L : list jsstring) :
  clean (lit "div.contextmenu#" ++ id) -> LF ∉ id ->
  L ≠ [] -> Forall clean L -> Forall (fun y => LF ∉ y) L ->
  _extractLinesFrom (ContextMenu.menu_header id ++ join_lines L ++ [LF])
  = (lit "div.contextmenu#" ++ id) :: lit ">ul" :: L.
Proof.
  intros Hid Hlf HL Hclean HLlf.
  destruct (exists_last HL) as (L0 & z & ->).
  apply Forall_app in Hclean as [Hclean0 Hz].
  apply (proj1 (Forall_singleton _ _)) in Hz.
  apply Forall_app in HLlf as [Hlf0 Hlfz].
  apply (proj1 (Forall_singleton _ _)) in Hlfz.
  assert (clean (lit ">ul")) as Hul by (by split).
  unfold ContextMenu.menu_header.
  destruct L0 as [|l1 L0].
  - transitivity
      (_extractLinesFrom
         (join_lines
            ([[]] ++ (ContextMenu.spaces 12 ++ (lit "div.contextmenu#" ++ id))
               :: [ContextMenu.spaces 16 ++ lit ">ul"]
               ++ (ContextMenu.spaces 8 ++ z) :: [[]]))).
    { f_equal. cbn [join_lines app]. by rewrite <- !app_assoc. }
    rewrite extractLinesFrom_raw; [|by repeat constructor..|done|done| |].
    + rewrite trimEnd_raw by done. cbn [app].
      by rewrite extracted_clean, !extracted_text.
    + rewrite trimEnd_raw by done. done.
    + repeat constructor; no_line_feed.
  - apply Forall_cons in Hclean0 as [Hl1 Hclean0].
    apply Forall_cons in Hlf0 as [Hlf1 Hlf0].
    transitivity
      (_extractLinesFrom
         (join_lines
            ([[]] ++ (ContextMenu.spaces 12 ++ (lit "div.contextmenu#" ++ id))
               :: ([ContextMenu.spaces 16 ++ lit ">ul";
                    ContextMenu.spaces 8 ++ l1] ++ L0)
               ++ z :: [[]]))).
    { f_equal.
      change ([[]] ++ ?x :: ([?y; ?w] ++ L0) ++ z :: [[]])
        with (([[]; x; y; w] ++ L0) ++ z :: [[]]).
      rewrite (join_lines_app (_ ++ L0) z [[]]), (join_lines_snoc (l1 :: L0) z).
      rewrite fmap_app, concat_app.
      cbn [join_lines fmap list_fmap concat app].
      by rewrite <- !app_assoc. }
    rewrite extractLinesFrom_raw; [|by repeat constructor..|done|done| |].
    + destruct (clean_trimStart z Hz) as [_ ->]. cbn [app].
      rewrite extracted_clean, !extracted_text by done.
      rewrite extracted_clean_lines; [done|].
      apply Forall_app. split; [done|]. by apply Forall_singleton.
    + destruct (clean_trimStart z Hz) as [_ ->]. by destruct Hz.
    + apply Forall_cons. split; [no_line_feed|]. apply Forall_app.
      split; [|by apply Forall_singleton].
      apply Forall_cons. split; [no_line_feed|].
      apply Forall_cons. split; [no_line_feed|]. done.
Qed.

(** *** The elements of the lines of an item *)

Lemma existsb_reverse {A} (f : A -> bool) (l : list A) :
  existsb f (rev l) = existsb f l.
Proof.
  induction l as [|x l IH]; [done|]. cbn [rev existsb].
  rewrite existsb_app, IH. cbn [existsb]. by rewrite orb_false_r, orb_comm.
Qed.

Lemma includes_trimEnd (x : N) (s : jsstring) :
  includes s [x] = false -> includes (trimEnd s) [x] = false.
Proof.
  rewrite !includes_single. unfold trimEnd.
  assert (forall l : jsstring,
             existsb (N.eqb x) l = false ->
             existsb (N.eqb x) (dropWhile is_whitespace l) = false) as Hdrop.
  { induction l as [|c l IH]; [done|]. cbn [existsb dropWhile].
    intros [Hc Hl]%orb_false_iff.
    destruct (is_whitespace c); [by apply IH|].
    cbn [existsb]. by rewrite Hc, Hl. }
  intros Hs. rewrite existsb_reverse. apply Hdrop.
  by rewrite existsb_reverse.
Qed.

Lemma nonword_markers (n : nat) :
  forallb (fun c => negb (is_word c)) (replicate n GT) = true.
Proof. by induction n. Qed.

Ltac by_print :=
  unfold print;
  cbn [d_tag d_classes d_id d_content d_attributes d_events from_option
         fmap list_fmap concat app];
  rewrite ?app_nil_r; reflexivity.

Section MenuElements.
Context {UserCallback Options : Type}.
Variable decode : jsstring -> jsstring.
Abbreviation Callback := (@ContextMenu.Callback UserCallback).
Abbreviation Builder := (@HTMLBuilder Callback Options).
Abbreviation DOMElement := (@Element Callback Options).

Lemma element_at_level (this : Builder) (n : nat) (line : jsstring) :
  existsb is_word line = true ->
  _createElementFromLine decode this (replicate n GT ++ line)
  = _createElementFromLine decode this line.
Proof. apply element_after_markers, nonword_markers. Qed.

Lemma element_of_span (this : Builder) (class : string)
  (content : jsstring) :
  forallb (word_or "-") (lit class) = true ->
  lit class ≠ [] -> starts_with_digit (lit class) = false ->
  forallb is_dot content = true ->
  _createElementFromLine decode this
    (lit "span." ++ lit class ++ lit "(" ++ content ++ lit ")")
  = Normal (ContextMenu.span decode class content).
Proof.
  intros Hclass Hne Hdigit Hcontent.
  transitivity
    (_createElementFromLine decode this
       (print (mkDescriptor (lit "span") [lit class] None (Some content)
                 None []))).
  { f_equal. unfold print.
    cbn [d_tag d_classes d_id d_content d_attributes d_events from_option
           fmap list_fmap concat app].
    by rewrite !app_nil_r. }
  rewrite element_of_selector.
  - unfold ContextMenu.span, ContextMenu.text_nodes.
    by destruct content.
  - unfold well_formed.
    cbn [d_tag d_classes d_id d_content d_attributes d_events from_option
           forallb].
    by rewrite Hclass, Hcontent.
  - done.
  - apply NoDup_singleton.
  - by apply Forall_singleton.
Qed.

Lemma element_of_image (this : Builder) (src : jsstring) :
  SYMBOL_BETWEEN_ATTRIBUTES this = lit ";" ->
  forallb is_dot src = true ->
  includes src (lit ";") = false ->
  includes src (lit "=") = false ->
  _createElementFromLine decode this (lit "img[src=" ++ src ++ lit "]")
  = Normal (ContextMenu.image src).
Proof.
  intros Hsymbol Hsrc Hsep Heq.
  transitivity
    (_createElementFromLine decode
       (changeSymbolBetweenAttributes this (lit ";"))
       (print (mkDescriptor (lit "img") [] None None
                 (Some (lit "src=" ++ src)) []))).
  { destruct this as [symbol events parent]. simpl in Hsymbol.
    subst symbol. f_equal. by_print. }
  rewrite element_of_attributes; [| |done..].
  - change (split (lit ";") (lit "src=" ++ src))
      with (split_from [59] 0 [] (lit "src=" ++ src)).
    rewrite split_from_whole.
    2:{ change (lit ";") with [59] in Hsep.
        rewrite includes_single in Hsep.
        by rewrite includes_single, existsb_app, Hsep. }
    cbn [app set_attributes]. unfold set_attribute_entry.
    change (lit "src=" ++ src) with (115 :: 114 :: 99 :: 61 :: src).
    cbn [starts_with_digit].
    change (is_digit 115) with false. cbv iota.
    rewrite trim_cons, !trimEnd_cons by done.
    change (115 :: 114 :: 99 :: 61 :: trimEnd src)
      with (lit "src" ++ 61 :: trimEnd src).
    assert (includes (lit "src" ++ 61 :: trimEnd src) (lit "=") = true)
      as ->.
    { change (lit "=") with [61]. rewrite includes_single, existsb_app.
      cbn [existsb]. by rewrite N.eqb_refl, orb_true_r. }
    change (split (lit "=") (lit "src" ++ 61 :: trimEnd src))
      with (split_from [61] 0 [] (lit "src" ++ 61 :: trimEnd src)).
    rewrite split_from_no_sep by done. rewrite split_from_sep.
    rewrite split_from_whole by (by apply includes_trimEnd).
    reflexivity.
  - unfold well_formed.
    cbn [d_tag d_classes d_id d_content d_attributes d_events from_option].
    rewrite forallb_app, Hsrc. done.
Qed.

Lemma element_of_li (this : Builder) (event_name : jsstring) :
  event_name = []
  \/ forallb (word_or ";-") event_name = true
     /\ starts_with_digit event_name = false
     /\ includes event_name (lit ";") = false ->
  _createElementFromLine decode this (lit "li@" ++ event_name)
  = Normal
      (mkElement (lit "li") [] [] []
         (ContextMenu.listeners_of this event_name) []).
Proof.
  intros [->|(Hword & Hdigit & Hsep)]; [by vm_compute|].
  destruct event_name as [|c name]; [by vm_compute|].
  remember (c :: name) as e eqn:He.
  transitivity
    (_createElementFromLine decode this
       (print (mkDescriptor (lit "li") [] None None None [e]))).
  { f_equal. by_print. }
  rewrite element_of_event; [by subst e| |done|by subst e|done..].
  unfold well_formed.
  cbn [d_tag d_classes d_id d_content d_attributes d_events from_option
         forallb].
  by rewrite Hword.
Qed.

Lemma children_step (this : Builder) (n k : nat) (line : jsstring)
  (element : DOMElement) (level : Z) (rest : list jsstring)
  (others : list (DOMElement * Z)) :
  _createElementFromLine decode this line = Normal element ->
  existsb is_word line = true -> _level line = 0%Z ->
  level = (Z.of_nat n + Z.of_nat k)%Z ->
  create_children decode this rest = Normal others ->
  create_children decode this
    ((replicate n GT ++ replicate k GT ++ line) :: rest)
  = Normal ((element, level) :: others).
Proof.
  intros Helement Hword Hlevel -> Hrest. cbn [create_children].
  rewrite !level_indented, Hlevel, Hrest.
  rewrite element_at_level.
  - rewrite element_at_level, Helement by done.
    cbn [mbind completion_bind]. do 3 f_equal. lia.
  - clear -Hword. induction k as [|k IH]; [done|].
    cbn [replicate app existsb]. by rewrite IH, orb_true_r.
Qed.

Lemma leaf_children (this : Builder) (n : nat) (event_name : jsstring)
  (icon : option jsstring) (title : jsstring) (shortcut : option jsstring) :
  SYMBOL_BETWEEN_ATTRIBUTES this = lit ";" ->
  event_name = []
  \/ forallb (word_or ";-") event_name = true
     /\ starts_with_digit event_name = false
     /\ includes event_name (lit ";") = false ->
  forallb is_dot title = true ->
  forallb is_dot (default [] icon) = true ->
  includes (default [] icon) (lit ";") = false ->
  includes (default [] icon) (lit "=") = false ->
  forallb is_dot (default [] shortcut) = true ->
  create_children decode this
    ((fun line => replicate n GT ++ line)
       <$> ContextMenu.leaf_lines event_name icon title shortcut)
  = Normal
      (ContextMenu.leaf_elements decode (Z.of_nat n)
         (ContextMenu.listeners_of this event_name) icon title shortcut).
Proof.
  intros Hsymbol Hname Htitle Hicon Hsep Heq Hshortcut.
  unfold ContextMenu.leaf_lines, ContextMenu.leaf_elements.
  rewrite !fmap_app. cbn [fmap list_fmap app].
  apply (children_step this n 0 (lit "li@" ++ event_name));
    [by apply element_of_li|done|done|lia|].
  apply (children_step this n 1 (lit "div.contextmenu-item"));
    [by vm_compute|done|done|lia|].
  apply (children_step this n 2 (lit "div.contextmenu-container-title"));
    [by vm_compute|done|done|lia|].
  assert (create_children decode this
            ((fun line => replicate n GT ++ line)
               <$> ([lit ">>>span.contextmenu-title(" ++ title ++ lit ")"]
                      ++ from_option
                           (fun s =>
                              [lit ">>span.contextmenu-shortcut(" ++ s
                                 ++ lit ")"])
                           [] shortcut))
          = Normal
              ([(ContextMenu.span decode "contextmenu-title" title,
                 (Z.of_nat n + 3)%Z)]
                 ++ from_option
                      (fun s =>
                         [(ContextMenu.span decode "contextmenu-shortcut" s,
                           (Z.of_nat n + 2)%Z)])
                      [] shortcut)) as Hrest.
  { rewrite fmap_app. cbn [fmap list_fmap app].
    apply (children_step this n 3
             (lit "span." ++ lit "contextmenu-title" ++ lit "("
                ++ title ++ lit ")"));
      [by apply element_of_span|done|done|lia|].
    destruct shortcut as [s|]; [|done]. cbn [from_option fmap list_fmap].
    apply (children_step this n 2
             (lit "span." ++ lit "contextmenu-shortcut" ++ lit "("
                ++ s ++ lit ")"));
      [by apply element_of_span|done|done|lia|done]. }
  rewrite fmap_app in Hrest.
  destruct icon as [i|]; cbn [from_option fmap list_fmap app]; [|done].
  by apply (children_step this n 3 (lit "img[src=" ++ i ++ lit "]"));
    [apply element_of_image|..|lia|].
Qed.
End MenuElements.

(** *** From the template of the menu to its elements *)

Lemma blocks_under (lines : list jsstring) :
  Forall (fun l => _level l ≠ 0%Z) lines -> blocks lines = (lines, []).
Proof.
  induction 1 as [|line lines Hline _ IH]; [done|]. cbn [blocks].
  by rewrite IH, (proj2 (Z.eqb_neq _ _) Hline).
Qed.

Lemma digits_word_or (s : string) (digits : jsstring) :
  forallb is_digit digits = true -> forallb (word_or s) digits = true.
Proof.
  apply forallb_impl. intros c Hc. unfold word_or, is_word. by rewrite Hc.
Qed.

Lemma digits_absent (c : char) (digits : jsstring) :
  is_digit c = false -> forallb is_digit digits = true -> c ∉ digits.
Proof.
  intros Hc Hdigits Hin. apply list_elem_of_In in Hin.
  rewrite forallb_forall in Hdigits. by rewrite (Hdigits c Hin) in Hc.
Qed.

Section MenuGenerate.
Context {UserCallback Options : Type}.
Variable decode : jsstring -> jsstring.
Abbreviation Callback := (@ContextMenu.Callback UserCallback).
Abbreviation Builder := (@HTMLBuilder Callback Options).
Abbreviation DOMElement := (@Element Callback Options).

Lemma create_children_app (this : Builder) (A B : list jsstring)
  (a b : list (DOMElement * Z)) :
  create_children decode this A = Normal a ->
  create_children decode this B = Normal b ->
  create_children decode this (A ++ B) = Normal (a ++ b).
Proof.
  revert a. induction A as [|line A IH]; intros a.
  - by intros [= <-].
  - cbn [create_children app].
    destruct (_createElementFromLine decode this line) as [e| |];
      [|done..].
    cbn [mbind completion_bind].
    destruct (create_children decode this A) as [a'| |]; [|done..].
    intros [= <-] HB. by rewrite (IH a' eq_refl HB).
Qed.

(** [generate] on the template of a menu whose lines under the header
    are [L]: one main line, the [div] of the menu, with the [ul] and
    the elements of [L] under it. *)
Lemma generate_menu (this : Builder) (n : N) (L : list jsstring)
  (elements : list (DOMElement * Z)) (result : DOMElement) :
  L ≠ [] -> Forall clean L -> Forall (fun y => LF ∉ y) L ->
  Forall (fun y => _level y ≠ 0%Z) L ->
  create_children decode this L = Normal elements ->
  reconstruct prepend (S (length elements))
    (mkElement (lit "div") [lit "contextmenu"]
       (lit "contextmenu-" ++ ContextMenu.toString n) [] [] [])
    ((mkElement (lit "ul") [] [] [] [] [], 1%Z) :: elements)
  = Normal result ->
  generate decode this
    (ContextMenu.menu_header (lit "contextmenu-" ++ ContextMenu.toString n)
       ++ join_lines L ++ [LF])
  = (Normal (), parent_appendChild this result).
Proof.
  intros HL Hclean Hlf Hlevels Helements Hresult.
  set (id := lit "contextmenu-" ++ ContextMenu.toString n) in *.
  pose proof (toString_digits n) as Hdigits.
  rewrite generate_blocks_eq, menu_template_lines; [|
    |apply no_line_feed_app; [no_line_feed|by apply digit_no_line_feed]
    |done..].
  2:{ apply (digit_clean_end (lit "iv.contextmenu#contextmenu-") 100);
        [done..|apply toString_nonempty]. }
  cbn [blocks]. rewrite (blocks_under L Hlevels).
  change (_level (lit ">ul") =? 0)%Z with false.
  change (_level (lit "div.contextmenu#" ++ id) =? 0)%Z with true.
  cbn [snd generate_blocks]. unfold build.
  assert (_createElementFromLine decode this (lit "div.contextmenu#" ++ id)
          = Normal
              (mkElement (lit "div") [lit "contextmenu"] id [] [] []))
    as ->.
  { transitivity
      (_createElementFromLine decode this
         (print (mkDescriptor (lit "div") [lit "contextmenu"] (Some id)
                   None None []))).
    { f_equal. by_print. }
    rewrite element_of_selector; [done| |done|apply NoDup_singleton|].
    - unfold well_formed.
      cbn [d_tag d_classes d_id d_content d_attributes d_events
             from_option].
      subst id. by rewrite forallb_app, (digits_word_or "-" _ Hdigits).
    - by apply Forall_singleton. }
  cbn [mbind completion_bind].
  assert (create_children decode this (lit ">ul" :: L)
          = Normal ((mkElement (lit "ul") [] [] [] [] [], 1%Z) :: elements))
    as ->.
  { by apply (children_step decode this 0 1 (lit "ul"));
      [vm_compute|..]. }
  cbn [mbind completion_bind length]. by rewrite Hresult.
Qed.
End MenuGenerate.

(** *** The menu of one item *)

Lemma dot_no_line_feed (s : jsstring) : forallb is_dot s = true -> LF ∉ s.
Proof.
  intros Hs Hin. apply list_elem_of_In in Hin.
  rewrite forallb_forall in Hs. by specialize (Hs LF Hin).
Qed.

Lemma truthy_dot (x : option jsstring) :
  forallb is_dot (default [] x) = true ->
  forallb is_dot (default [] (truthy x)) = true.
Proof. by destruct x as [[|c s]|]. Qed.

Lemma truthy_includes (x : option jsstring) (p : jsstring) :
  includes (default [] x) p = false ->
  includes (default [] (truthy x)) p = false.
Proof. by destruct x as [[|c s]|]. Qed.

Section NewContextMenu.
Context {UserCallback Options : Type}.
Variable decode : jsstring -> jsstring.
Variable random : nat -> N.
Abbreviation Item := (@ContextMenu.Item UserCallback).
Abbreviation Menu := (@ContextMenu.Menu UserCallback Options).
Abbreviation Callback := (@ContextMenu.Callback UserCallback).
Abbreviation Builder := (@HTMLBuilder Callback Options).
Abbreviation DOMElement := (@Element Callback Options).

Lemma reconstruct_leaf_menu (id : jsstring)
  (listeners : list (@Listener Callback Options))
  (icon : option jsstring) (title : jsstring) (shortcut : option jsstring) :
  reconstruct prepend
    (S (length (ContextMenu.leaf_elements decode 2 listeners icon title
                  shortcut)))
    (mkElement (lit "div") [lit "contextmenu"] id [] [] [])
    ((mkElement (lit "ul") [] [] [] [] [], 1%Z)
       :: ContextMenu.leaf_elements decode 2 listeners icon title shortcut)
  = Normal
      (ContextMenu.rendered_menu id
         [ContextMenu.rendered_leaf decode listeners icon title shortcut]).
Proof.
  unfold ContextMenu.leaf_elements, ContextMenu.rendered_leaf.
  generalize (@ContextMenu.span UserCallback Options decode
                "contextmenu-title" title).
  intros title_span.
  destruct icon as [i|], shortcut as [s|]; cbn [from_option];
    try generalize (@ContextMenu.image UserCallback Options i);
    try generalize (@ContextMenu.span UserCallback Options decode
                      "contextmenu-shortcut" s);
    intros; by vm_compute.
Qed.

(** The lines that the loops of [_build] and [_buildItem] append for
    an item without children. *)
Lemma item_lines (calls : nat) (item : Item) (n : nat) :
  LF ∉ default [] (ContextMenu.title item) ->
  LF ∉ default [] (ContextMenu.icon item) ->
  LF ∉ default [] (ContextMenu.shortcut item) ->
  let L :=
    (fun line => replicate (S n) GT ++ line)
      <$> ContextMenu.leaf_lines
            (ContextMenu.item_event_name random calls item)
            (truthy (ContextMenu.icon item))
            (default [] (ContextMenu.title item))
            (truthy (ContextMenu.shortcut item)) in
  indentTemplate
    (ContextMenu.simple_template
       (ContextMenu.item_event_name random calls item)
       (truthy (ContextMenu.icon item))
       (default [] (ContextMenu.title item))
       (truthy (ContextMenu.shortcut item)))
    (S n)
  = join_lines L
  /\ L ≠ [] /\ Forall clean L /\ Forall (fun y => LF ∉ y) L
  /\ Forall (fun y => _level y ≠ 0%Z) L.
Proof.
  intros Htitle Hicon Hshortcut L.
  pose proof (leaf_template_indented random calls item n
                Htitle Hicon Hshortcut) as Hlines.
  fold L in Hlines.
  set (template := ContextMenu.simple_template _ _ _ _) in *.
  pose proof (indented_lines template n) as Hindented.
  rewrite <- extractLinesFrom_indentTemplate, Hlines in Hindented.
  split; [|split; [|split; [|split]]].
  - by rewrite indentTemplate_join, <- extractLinesFrom_indentTemplate,
      Hlines.
  - done.
  - apply (Forall_impl _ _ _ Hindented). by intros y (? & ? & ?).
  - apply (Forall_impl _ _ _ Hindented). by intros y (? & ? & ?).
  - subst L. apply Forall_fmap, Forall_forall. intros line _.
    unfold compose. rewrite (level_indented (S n)).
    pose proof (level_nonneg line). lia.
Qed.

Lemma item_event_name_ok (calls : nat) (item : Item) :
  ContextMenu.item_event_name random calls item = []
  \/ forallb (word_or ";-")
       (ContextMenu.item_event_name random calls item) = true
     /\ starts_with_digit (ContextMenu.item_event_name random calls item)
        = false
     /\ includes (ContextMenu.item_event_name random calls item) (lit ";")
        = false.
Proof.
  unfold ContextMenu.item_event_name.
  destruct (ContextMenu.onclick item) as [f|]; [right|by left].
  pose proof (toString_digits (random calls mod 1000000)) as Hdigits.
  split; [|split; [done|]].
  - by rewrite forallb_app, (digits_word_or ";-" _ Hdigits).
  - apply (includes_absent 59). apply not_elem_of_app. split.
    + apply (bool_decide_unpack _). by vm_compute.
    + by apply digits_absent.
Qed.

Lemma listeners_of_bound (symbol : jsstring) (parent : DOMElement)
  (event_name : jsstring) (callback : Callback) :
  event_name ≠ [] ->
  ContextMenu.listeners_of
    (mkHTMLBuilder symbol
       ([] ++ [mkEvent (Some event_name) (Some (lit "click"))
                 (Some callback) None])
       parent)
    event_name
  = [(Some (lit "click"), Some callback, None)].
Proof.
  destruct event_name as [|c s]; [done|]. intros _.
  unfold ContextMenu.listeners_of, _searchForEvent.
  cbn [EVENTS app search_events name]. by rewrite bool_decide_eq_true_2.
Qed.

(** X28. [new ContextMenu(event, items)] for one item without children
    appends to the body the menu [div.contextmenu] with its id, the
    [ul] in it and the [li] of the item in the [ul]: the [li] has the
    click listener of the item when the item has an [onclick] and no
    listener otherwise, and under it the title, after the image when
    there is an icon, and the shortcut when there is one. The image is
    an [img] whose only attribute is [src], the icon without the white
    space at its end. The registry of the builder is empty afterwards
    and [menuid] is the id. No line terminator is in the title, the
    icon or the shortcut, and the icon has no [;], at which the
    builder would cut it into attribute entries, and no [=]. *)
Theorem new_ContextMenu_leaf (body : DOMElement) (item : Item) :
  ContextMenu.separator item = false ->
  ContextMenu.children item = None ->
  forallb is_dot (default [] (ContextMenu.title item)) = true ->
  forallb is_dot (default [] (ContextMenu.icon item)) = true ->
  includes (default [] (ContextMenu.icon item)) (lit ";") = false ->
  includes (default [] (ContextMenu.icon item)) (lit "=") = false ->
  forallb is_dot (default [] (ContextMenu.shortcut item)) = true ->
  ContextMenu.new_ContextMenu decode random body [item]
  = (Normal (),
     ContextMenu.mkMenu
       (mkHTMLBuilder (lit ";") []
          (appendChild
             (ElementNode
                (ContextMenu.rendered_menu
                   (lit "contextmenu-"
                      ++ ContextMenu.toString (random 0 mod 1000000))
                   [ContextMenu.rendered_leaf decode
                      match ContextMenu.onclick item with
                      | Some onclick =>
                          [(Some (lit "click"),
                            Some (ContextMenu.ItemClick onclick), None)]
                      | None => []
                      end
                      (truthy (ContextMenu.icon item))
                      (default [] (ContextMenu.title item))
                      (truthy (ContextMenu.shortcut item))]))
             body))
       match ContextMenu.onclick item with
       | Some _ => 2
       | None => 1
       end%nat
       (Some
          (lit "contextmenu-"
             ++ ContextMenu.toString (random 0 mod 1000000)))).
Proof.
  intros Hseparator Hchildren Htitle Hicon Hsep Heq Hshortcut.
  unfold ContextMenu.new_ContextMenu, ContextMenu._build, new_HTMLBuilder.
  cbn [ContextMenu._rand ContextMenu.calls ContextMenu.builder
         ContextMenu.menuid ContextMenu.append_items].
  change (0 + ?x mod (1000000 - 0)) with (x mod 1000000).
  rewrite Hseparator, buildItem_leaf by (by right).
  cbn [ContextMenu.calls ContextMenu.builder ContextMenu.menuid
         SYMBOL_BETWEEN_ATTRIBUTES EVENTS parent].
  destruct (item_lines 1 item 1 (dot_no_line_feed _ Htitle)
              (dot_no_line_feed _ Hicon) (dot_no_line_feed _ Hshortcut))
    as (-> & HL & Hclean & Hlf & Hlevels).
  pose proof (item_event_name_ok 1 item) as Hname.
  set (this :=
         match ContextMenu.onclick item with
         | Some onclick => _
         | None => _
         end).
  assert (SYMBOL_BETWEEN_ATTRIBUTES (ContextMenu.builder this) = lit ";")
    as Hsymbol.
  { subst this. by destruct (ContextMenu.onclick item). }
  rewrite (generate_menu decode (ContextMenu.builder this) _ _ _ _
             HL Hclean Hlf Hlevels
             (leaf_children decode _ 2 _ _ _ _ Hsymbol Hname Htitle
                (truthy_dot _ Hicon) (truthy_includes _ _ Hsep)
                (truthy_includes _ _ Heq) (truthy_dot _ Hshortcut))
             (reconstruct_leaf_menu _ _ _ _ _)).
  subst this. unfold ContextMenu.item_event_name.
  destruct (ContextMenu.onclick item) as [onclick|].
  - cbn [ContextMenu.builder ContextMenu.calls clearEvents parent_appendChild
           SYMBOL_BETWEEN_ATTRIBUTES EVENTS parent].
    by rewrite listeners_of_bound.
  - done.
Qed.
End NewContextMenu.

(** *** The menu of two items *)

Lemma lit_inj (s t : string) : lit s = lit t -> s = t.
Proof.
  unfold lit. intros Heq.
  rewrite <- (string_of_list_ascii_of_string s),
    <- (string_of_list_ascii_of_string t).
  f_equal. revert Heq.
  generalize (list_ascii_of_string s) (list_ascii_of_string t).
  induction l as [|x l IH]; intros [|y l']; simpl; try done.
  intros [= Hxy Hl]. f_equal; [|by apply IH].
  by rewrite <- (ascii_N_embedding x), <- (ascii_N_embedding y), Hxy.
Qed.

(** Two numbers are written with the same digits only when they are the
    same number. *)
Lemma toString_inj (m n : N) :
  ContextMenu.toString m = ContextMenu.toString n -> m = n.
Proof.
  unfold ContextMenu.toString. intros Heq%lit_inj.
  assert (forall k, N.to_uint k ≠ Decimal.Nil) as Hnonnil.
  { intros k. rewrite <- (DecimalN.Unsigned.of_to k) at 1.
    rewrite DecimalN.Unsigned.to_of. apply DecimalFacts.unorm_nonnil. }
  apply DecimalN.Unsigned.to_uint_inj.
  pose proof (NilZero.usu _ (Hnonnil m)) as Hm.
  pose proof (NilZero.usu _ (Hnonnil n)) as Hn.
  rewrite Heq, Hn in Hm. by injection Hm.
Qed.

Section TwoItems.
Context {UserCallback Options : Type}.
Variable decode : jsstring -> jsstring.
Variable random : nat -> N.
Abbreviation Item := (@ContextMenu.Item UserCallback).
Abbreviation Menu := (@ContextMenu.Menu UserCallback Options).
Abbreviation Callback := (@ContextMenu.Callback UserCallback).
Abbreviation Builder := (@HTMLBuilder Callback Options).
Abbreviation DOMElement := (@Element Callback Options).

Lemma reconstruct_two_leaves (id : jsstring)
  (la lb : list (@Listener Callback Options))
  (ia ib : option jsstring) (ta tb : jsstring) (sa sb : option jsstring) :
  reconstruct prepend
    (S (length (ContextMenu.leaf_elements decode 2 la ia ta sa
                  ++ ContextMenu.leaf_elements decode 2 lb ib tb sb)))
    (mkElement (lit "div") [lit "contextmenu"] id [] [] [])
    ((mkElement (lit "ul") [] [] [] [] [], 1%Z)
       :: ContextMenu.leaf_elements decode 2 la ia ta sa
       ++ ContextMenu.leaf_elements decode 2 lb ib tb sb)
  = Normal
      (ContextMenu.rendered_menu id
         [ContextMenu.rendered_leaf decode la ia ta sa;
          ContextMenu.rendered_leaf decode lb ib tb sb]).
Proof.
  unfold ContextMenu.leaf_elements, ContextMenu.rendered_leaf.
  generalize (@ContextMenu.span UserCallback Options decode
                "contextmenu-title" ta).
  generalize (@ContextMenu.span UserCallback Options decode
                "contextmenu-title" tb).
  intros tb_span ta_span.
  destruct ia as [ia|], sa as [sa|], ib as [ib|], sb as [sb|];
    cbn [from_option];
    try generalize (@ContextMenu.image UserCallback Options ia);
    try generalize (@ContextMenu.image UserCallback Options ib);
    try generalize (@ContextMenu.span UserCallback Options decode
                      "contextmenu-shortcut" sa);
    try generalize (@ContextMenu.span UserCallback Options decode
                      "contextmenu-shortcut" sb);
    intros; by vm_compute.
Qed.

Lemma listeners_of_first (symbol : jsstring) (parent : DOMElement)
  (key : jsstring) (callback : Callback) (events : list Event) :
  key ≠ [] ->
  ContextMenu.listeners_of
    (mkHTMLBuilder symbol
       (([] ++ [mkEvent (Some key) (Some (lit "click"))
                  (Some callback) None])
          ++ events)
       parent)
    key
  = [(Some (lit "click"), Some callback, None)].
Proof.
  destruct key as [|c s]; [done|]. intros _.
  unfold ContextMenu.listeners_of, _searchForEvent.
  cbn [EVENTS app search_events name].
  by rewrite bool_decide_eq_true_2.
Qed.

Lemma listeners_of_second (symbol : jsstring) (parent : DOMElement)
  (key1 key2 : jsstring) (callback1 callback2 : Callback) :
  key2 ≠ [] ->
  ContextMenu.listeners_of
    (mkHTMLBuilder symbol
       (([] ++ [mkEvent (Some key1) (Some (lit "click"))
                  (Some callback1) None])
          ++ [mkEvent (Some key2) (Some (lit "click"))
                (Some callback2) None])
       parent)
    key2
  = [(Some (lit "click"),
      Some (if bool_decide (key1 = key2) then callback1 else callback2),
      None)].
Proof.
  destruct key2 as [|c s]; [done|]. intros _.
  unfold ContextMenu.listeners_of, _searchForEvent.
  cbn [EVENTS app search_events name].
  destruct (decide (key1 = c :: s)) as [Heq|Hne].
  - rewrite (bool_decide_eq_true_2 (Some key1 = Some (c :: s)))
      by congruence.
    by rewrite (bool_decide_eq_true_2 (key1 = c :: s)).
  - rewrite (bool_decide_eq_false_2 (Some key1 = Some (c :: s)))
      by congruence.
    rewrite (bool_decide_eq_false_2 (key1 = c :: s)) by done.
    by rewrite bool_decide_eq_true_2.
Qed.

(** X29. In the menu of two items without children that both have an
    [onclick], the [li] of the second item gets the callback of the
    first item when [_rand] has returned the same number for both, so
    that a click on the second item runs the [onclick] of the first;
    when the numbers differ, each [li] has the callback of its own
    item. Nothing in [_buildItem] looks for a name that is taken. No
    line terminator is in the titles, the icons or the shortcuts, and
    the icons have no [;] and no [=]; the image of an icon is an [img]
    whose only attribute is [src], the icon without the white space at
    its end. *)
Theorem new_ContextMenu_same_number (body : DOMElement) (a b : Item)
  (onclick_a onclick_b : UserCallback) :
  ContextMenu.separator a = false -> ContextMenu.separator b = false ->
  ContextMenu.children a = None -> ContextMenu.children b = None ->
  ContextMenu.onclick a = Some onclick_a ->
  ContextMenu.onclick b = Some onclick_b ->
  forallb is_dot (default [] (ContextMenu.title a)) = true ->
  forallb is_dot (default [] (ContextMenu.icon a)) = true ->
  includes (default [] (ContextMenu.icon a)) (lit ";") = false ->
  includes (default [] (ContextMenu.icon a)) (lit "=") = false ->
  forallb is_dot (default [] (ContextMenu.shortcut a)) = true ->
  forallb is_dot (default [] (ContextMenu.title b)) = true ->
  forallb is_dot (default [] (ContextMenu.icon b)) = true ->
  includes (default [] (ContextMenu.icon b)) (lit ";") = false ->
  includes (default [] (ContextMenu.icon b)) (lit "=") = false ->
  forallb is_dot (default [] (ContextMenu.shortcut b)) = true ->
  ContextMenu.new_ContextMenu decode random body [a; b]
  = (Normal (),
     ContextMenu.mkMenu
       (mkHTMLBuilder (lit ";") []
          (appendChild
             (ElementNode
                (ContextMenu.rendered_menu
                   (lit "contextmenu-"
                      ++ ContextMenu.toString (random 0 mod 1000000))
                   [ContextMenu.rendered_leaf decode
                      [(Some (lit "click"),
                        Some (ContextMenu.ItemClick onclick_a), None)]
                      (truthy (ContextMenu.icon a))
                      (default [] (ContextMenu.title a))
                      (truthy (ContextMenu.shortcut a));
                    ContextMenu.rendered_leaf decode
                      [(Some (lit "click"),
                        Some
                          (ContextMenu.ItemClick
                             (if random 1 mod 1000000
                                 =? random 2 mod 1000000
                              then onclick_a
                              else onclick_b)),
                        None)]
                      (truthy (ContextMenu.icon b))
                      (default [] (ContextMenu.title b))
                      (truthy (ContextMenu.shortcut b))]))
             body))
       3
       (Some
          (lit "contextmenu-"
             ++ ContextMenu.toString (random 0 mod 1000000)))).
Proof.
  intros Hsep_a Hsep_b Hleaf_a Hleaf_b Ha Hb Hta Hia Hia1 Hia2 Hsa
    Htb Hib Hib1 Hib2 Hsb.
  unfold ContextMenu.new_ContextMenu, ContextMenu._build, new_HTMLBuilder.
  cbn [ContextMenu._rand ContextMenu.calls ContextMenu.builder
         ContextMenu.menuid ContextMenu.append_items].
  change (0 + ?x mod (1000000 - 0)) with (x mod 1000000).
  rewrite Hsep_a, buildItem_leaf by (by right). rewrite Ha.
  rewrite Hsep_b, buildItem_leaf by (by right). rewrite Hb.
  cbn [ContextMenu.calls ContextMenu.builder ContextMenu.menuid
         SYMBOL_BETWEEN_ATTRIBUTES EVENTS parent].
  destruct (item_lines random 1 a 1 (dot_no_line_feed _ Hta)
              (dot_no_line_feed _ Hia) (dot_no_line_feed _ Hsa))
    as (-> & HLa & Hclean_a & Hlf_a & Hlevels_a).
  destruct (item_lines random 2 b 1 (dot_no_line_feed _ Htb)
              (dot_no_line_feed _ Hib) (dot_no_line_feed _ Hsb))
    as (-> & HLb & Hclean_b & Hlf_b & Hlevels_b).
  pose proof (item_event_name_ok random 1 a) as Hname_a.
  pose proof (item_event_name_ok random 2 b) as Hname_b.
  set (La := _ <$> ContextMenu.leaf_lines _ _ _ (truthy (ContextMenu.shortcut a)))
    in *.
  set (Lb := _ <$> ContextMenu.leaf_lines _ _ _ (truthy (ContextMenu.shortcut b)))
    in *.
  set (this := mkHTMLBuilder (lit ";") _ body).
  replace ((ContextMenu.menu_header _ ++ join_lines La ++ [LF])
             ++ join_lines Lb ++ [LF])
    with (ContextMenu.menu_header
            (lit "contextmenu-"
               ++ ContextMenu.toString (random 0 mod 1000000))
            ++ join_lines (La ++ Lb) ++ [LF])
    by (by rewrite <- join_lines_concat, <- !app_assoc).
  rewrite (generate_menu decode this _ (La ++ Lb) _ _
             ltac:(by destruct La)
             ltac:(by apply Forall_app)
             ltac:(by apply Forall_app)
             ltac:(by apply Forall_app)
             (create_children_app decode this La Lb _ _
                (leaf_children decode this 2 _ _ _ _ eq_refl Hname_a Hta
                   (truthy_dot _ Hia) (truthy_includes _ _ Hia1)
                   (truthy_includes _ _ Hia2) (truthy_dot _ Hsa))
                (leaf_children decode this 2 _ _ _ _ eq_refl Hname_b Htb
                   (truthy_dot _ Hib) (truthy_includes _ _ Hib1)
                   (truthy_includes _ _ Hib2) (truthy_dot _ Hsb)))
             (reconstruct_two_leaves _ _ _ _ _ _ _ _ _)).
  subst this. unfold ContextMenu.item_event_name. rewrite Ha, Hb.
  cbn [ContextMenu.builder ContextMenu.calls clearEvents parent_appendChild
         SYMBOL_BETWEEN_ATTRIBUTES EVENTS parent].
  rewrite listeners_of_first, listeners_of_second by done.
  do 9 f_equal.
  destruct (N.eqb_spec (random 1 mod 1000000) (random 2 mod 1000000))
    as [->|Hne].
  - by rewrite bool_decide_eq_true_2.
  - rewrite bool_decide_eq_false_2; [done|].
    intros Heq. by apply app_inv_head, toString_inj in Heq.
Qed.
End TwoItems.

(** *** The lines of an item with children *)

(** The loop of [_extractLinesFrom] passes over the line that follows a
    blank line: a line that is not blank is never the last one that a
    blank line before it makes it pass over. *)
Lemma extracted_app (A : list jsstring) (y : jsstring) (B : list jsstring) :
  trim y ≠ [] ->
  extracted (A ++ y :: B) = extracted (A ++ [y]) ++ extracted B.
Proof.
  intros Hy.
  assert (forall a n r, trim a = [] ->
            extracted (a :: n :: r) = n :: extracted r) as Hblank.
  { intros a n r Ha. cbn [extracted]. by rewrite Ha. }
  assert (forall a r, trim a ≠ [] ->
            extracted (a :: r) = trim a :: extracted r) as Htext.
  { intros a r Ha. cbn [extracted]. by destruct (trim a). }
  enough ((extracted (A ++ y :: B) = extracted (A ++ [y]) ++ extracted B)
          /\ forall a,
              extracted ((a :: A) ++ y :: B)
              = extracted ((a :: A) ++ [y]) ++ extracted B) as [? _]
    by done.
  induction A as [|a' A [IH1 IH2]].
  - split; [by rewrite !app_nil_l, !Htext|]. intros a. cbn [app].
    destruct (decide (trim a = [])) as [Ha|Ha].
    + by rewrite !Hblank.
    + by rewrite !(Htext a), !Htext.
  - split; [apply IH2|]. intros a.
    change ((a :: a' :: A) ++ ?l) with (a :: a' :: (A ++ l)).
    destruct (decide (trim a = [])) as [Ha|Ha].
    + by rewrite !Hblank, IH1.
    + rewrite !(Htext a) by done.
      change (a' :: A ++ ?l) with ((a' :: A) ++ l). by rewrite IH2.
Qed.

Lemma join_lines_prefix (a y : jsstring) (Y : list jsstring) :
  join_lines ((a ++ y) :: Y) = a ++ join_lines (y :: Y).
Proof. destruct Y; [done|]. cbn [join_lines]. by rewrite <- app_assoc. Qed.

Lemma trim_clean_lines (L : list jsstring) : Forall clean L -> trim <$> L = L.
Proof.
  induction 1 as [|y L [Hy _] _ IH]; [done|]. by rewrite fmap_cons, Hy, IH.
Qed.

(** The lines of a template that is written over several lines of the
    source and ends with the indentation of its last line, once lines
    have been appended to it as [_build] and [_buildItem] do. *)
Lemma lines_after_header (B1 : list jsstring) (ws first : jsstring)
  (M : list jsstring) (last ws' : jsstring) (L : list jsstring) :
  Forall (fun b => forallb is_whitespace b = true) B1 ->
  forallb is_whitespace ws = true -> clean first ->
  trim last ≠ [] -> forallb is_whitespace ws' = true -> LF ∉ ws' ->
  Forall (fun y => LF ∉ y) (first :: M ++ [last]) ->
  L ≠ [] -> Forall clean L -> Forall (fun y => LF ∉ y) L ->
  _extractLinesFrom
    (join_lines (B1 ++ (ws ++ first) :: M ++ [last; ws'])
       ++ join_lines L ++ [LF])
  = extracted (first :: M ++ [last]) ++ L.
Proof.
  intros HB1 Hws Hfirst Hlast Hws' Hws'lf Hlf HL Hclean HLlf.
  destruct L as [|l1 tl]; [done|]. clear HL.
  assert ((ws' ++ l1) :: tl ≠ []) as Hne by done.
  destruct (exists_last Hne) as (L' & z & HLz).
  assert (clean (trim z) /\ trimEnd z = z /\ (LF ∉ z)
          /\ Forall (fun y => LF ∉ y) L'
          /\ trim <$> (L' ++ [z]) = l1 :: tl
          /\ Forall (fun y => trim y ≠ []) (L' ++ [z]))
    as (Hz & Hzend & Hzlf & HL'lf & Htrim & Hnonblank).
  { apply Forall_cons in Hclean as [Hl1 Hclean].
    apply Forall_cons in HLlf as [Hl1lf Htllf].
    assert (Forall (fun y => LF ∉ y) (L' ++ [z])) as Hall.
    { rewrite <- HLz. apply Forall_cons. split; [no_line_feed|done]. }
    apply Forall_app in Hall as [HL' Hz].
    apply (proj1 (Forall_singleton _ _)) in Hz.
    assert (Forall (fun y => exists w t,
                        y = w ++ t /\ forallb is_whitespace w = true
                        /\ clean t) (L' ++ [z])) as Hraw.
    { rewrite <- HLz. apply Forall_cons. split; [by exists ws', l1|].
      apply (Forall_impl _ _ _ Hclean). intros y Hy. by exists [], y. }
    assert (trim <$> (L' ++ [z]) = l1 :: tl) as Htrim.
    { rewrite <- HLz, fmap_cons, trim_raw by done.
      by rewrite trim_clean_lines. }
    apply Forall_app in Hraw as [_ Hzraw].
    apply (proj1 (Forall_singleton _ _)) in Hzraw.
    destruct Hzraw as (w & t & -> & Hw & Ht).
    rewrite trim_raw, trimEnd_raw by done.
    repeat split; try done; try apply Ht.
    apply Forall_forall. intros y Hy Hblank.
    assert (trim y ∈ trim <$> (L' ++ [w ++ t])) as Hin
      by (by apply list_elem_of_fmap_2).
    rewrite Htrim, Hblank in Hin.
    assert (Forall clean (l1 :: tl)) as Hall by (by constructor).
    rewrite Forall_forall in Hall. by destruct (Hall [] Hin). }
  transitivity
    (_extractLinesFrom
       (join_lines (B1 ++ (ws ++ first) :: (M ++ last :: L') ++ z :: [[]]))).
  { f_equal.
    replace ((ws ++ first) :: M ++ [last; ws'])
      with (((ws ++ first) :: M ++ [last]) ++ [ws'])
      by (by cbn [app]; rewrite <- app_assoc).
    replace ((ws ++ first) :: (M ++ last :: L') ++ z :: [[]])
      with ((((ws ++ first) :: M ++ [last]) ++ L') ++ z :: [[]])
      by (by cbn [app]; rewrite <- !app_assoc).
    rewrite !app_assoc, join_lines_snoc, join_lines_app.
    rewrite <- !app_assoc, (app_assoc ws'), <- (join_lines_prefix ws' l1 tl).
    rewrite HLz, join_lines_snoc.
    rewrite !fmap_app, !fmap_cons, !concat_app, !concat_cons, !fmap_app,
      !concat_app.
    cbn [fmap list_fmap concat app]. by rewrite <- !app_assoc. }
  rewrite extractLinesFrom_raw; [|done|by repeat constructor|done|done| |].
  - rewrite Hzend.
    replace (first :: (M ++ last :: L') ++ [z])
      with ((first :: M) ++ last :: (L' ++ [z]))
      by (by cbn [app]; rewrite <- app_assoc).
    rewrite extracted_app by done. f_equal.
    by rewrite extracted_no_blank.
  - rewrite Hzend. destruct Hz as [Hz1 Hz2]. intros Hnil.
    by rewrite Hnil in Hz2.
  - apply Forall_cons in Hlf as [Hf Hlf]. apply Forall_cons. split; [done|].
    apply Forall_app in Hlf as [HM Hl].
    rewrite <- !app_assoc. apply Forall_app. split; [done|]. cbn [app].
    apply Forall_cons. split; [by apply (proj1 (Forall_singleton _ _)) in Hl|].
    apply Forall_app. split; [done|]. by apply Forall_singleton.
Qed.

Lemma joined_lines (L : list jsstring) :
  L ≠ [] -> concat ((fun y => y ++ [LF]) <$> L) = join_lines L ++ [LF].
Proof.
  intros HL. destruct (exists_last HL) as (A & z & ->).
  rewrite join_lines_snoc, fmap_app, concat_app.
  cbn [fmap list_fmap concat]. by rewrite app_nil_r, <- !app_assoc.
Qed.

Lemma complex_template_lines (e : jsstring) (icon : option jsstring)
  (title : jsstring) (L : list jsstring) :
  clean (lit "li@" ++ e) -> LF ∉ e -> LF ∉ title -> LF ∉ default [] icon ->
  Forall clean L -> Forall (fun y => LF ∉ y) L ->
  trim <$> _extractLinesFrom
             (ContextMenu.complex_template e icon title
                ++ concat ((fun y => y ++ [LF]) <$> L))
  = ContextMenu.parent_lines e icon title ++ L.
Proof.
  intros He Hlfe Hlft Hlfi Hclean HLlf.
  set (l2 := lit ">div.contextmenu-item").
  set (l3 := lit ">>div.contextmenu-container-title").
  set (l5 := lit ">>>span.contextmenu-title(" ++ title ++ lit ")").
  set (l6 := lit ">>span.contextmenu-arrow(" ++ ContextMenu.arrow_down
               ++ lit ")").
  set (l7 := lit ">div.contextmenu-container-children.contextmenu-hidden").
  set (l8 := lit ">>ul").
  assert (clean l2) as Hl2 by (by split).
  assert (clean l3) as Hl3 by (by split).
  assert (clean l5) as Hl5.
  { exact (clean_ends 62 (lit ">>span.contextmenu-title(" ++ title) 41
             eq_refl eq_refl). }
  assert (clean l6) as Hl6 by (by split).
  assert (clean l7) as Hl7 by (by split).
  assert (clean l8) as Hl8 by (by split).
  assert (forall i, clean (lit ">>>img[src=" ++ i ++ lit "]")) as Hicon.
  { intros i. exact (clean_ends 62 (lit ">>img[src=" ++ i) 93
                       eq_refl eq_refl). }
  set (M := [ ContextMenu.spaces 20 ++ l2;
              ContextMenu.tabs 6 ++ l3;
              ContextMenu.tabs 7 ++ ContextMenu.icon_line icon;
              ContextMenu.tabs 7 ++ l5;
              ContextMenu.tabs 6 ++ l6;
              ContextMenu.tabs 5 ++ l7 ]).
  assert (trim <$> extracted
                     ((lit "li@" ++ e) :: M ++ [ContextMenu.tabs 6 ++ l8])
          = ContextMenu.parent_lines e icon title) as Hhead.
  { subst M. unfold ContextMenu.parent_lines. cbn [app].
    rewrite extracted_clean, !extracted_text by done.
    destruct icon as [i|]; cbn [ContextMenu.icon_line from_option].
    - rewrite !extracted_text by done. cbn [extracted fmap list_fmap app].
      by rewrite (proj1 He), (proj1 Hl2), (proj1 Hl3), (proj1 (Hicon i)),
        (proj1 Hl5), (proj1 Hl6), (proj1 Hl7), (proj1 Hl8).
    - rewrite app_nil_r, extracted_blank, !extracted_text by done.
      cbn [extracted fmap list_fmap app].
      by rewrite (proj1 He), (proj1 Hl2), (proj1 Hl3), trim_raw,
        (proj1 Hl6), (proj1 Hl7), (proj1 Hl8). }
  assert (Forall (fun y => LF ∉ y)
            ((lit "li@" ++ e) :: M ++ [ContextMenu.tabs 6 ++ l8])) as Hlf.
  { subst M l2 l3 l5 l6 l7 l8. destruct icon;
      cbn [default from_option ContextMenu.icon_line] in *;
      repeat constructor; no_line_feed. }
  unfold ContextMenu.complex_template.
  destruct (decide (L = [])) as [->|HL].
  - cbn [fmap list_fmap concat]. rewrite app_nil_r.
    change (join_lines ?R)
      with (join_lines
              ([[]] ++ (ContextMenu.spaces 16 ++ (lit "li@" ++ e))
                 :: M ++ (ContextMenu.tabs 6 ++ l8)
                 :: [ContextMenu.spaces 12])).
    rewrite extractLinesFrom_raw; [|by repeat constructor..|done|done| |done].
    + rewrite trimEnd_raw by done. by rewrite Hhead, app_nil_r.
    + rewrite trimEnd_raw by done. done.
  - rewrite joined_lines by done.
    change (join_lines ?R ++ ?rest)
      with (join_lines
              ([[]] ++ (ContextMenu.spaces 16 ++ (lit "li@" ++ e))
                 :: M ++ [ContextMenu.tabs 6 ++ l8; ContextMenu.spaces 12])
              ++ rest).
    rewrite lines_after_header;
      [|by repeat constructor|done|done| |done|no_line_feed|done..].
    + by rewrite fmap_app, Hhead, trim_clean_lines.
    + by rewrite trim_raw.
Qed.

Section ChildrenLines.
Context {UserCallback Options : Type}.
Variable random : nat -> N.
Abbreviation Item := (@ContextMenu.Item UserCallback).
Abbreviation Menu := (@ContextMenu.Menu UserCallback Options).

(** The loop over the children: every child is built as an item
    without children. *)
Lemma append_children (children : list Item) (this : Menu)
  (template : jsstring) :
  Forall (fun child =>
            (LF ∉ default [] (ContextMenu.title child))
            /\ (LF ∉ default [] (ContextMenu.icon child))
            /\ (LF ∉ default [] (ContextMenu.shortcut child))) children ->
  let L :=
    (fun line => replicate 3 GT ++ line)
      <$> ContextMenu.children_lines random (ContextMenu.calls this)
            children in
  (exists this',
      ContextMenu.append_items (ContextMenu._buildItem random true) 3
        children this template
      = (Normal (template ++ concat ((fun y => y ++ [LF]) <$> L)), this'))
  /\ Forall clean L /\ Forall (fun y => LF ∉ y) L.
Proof.
  intros Hchildren. revert this template.
  induction Hchildren as [|child children (Htitle & Hicon & Hshortcut) _ IH];
    intros this template L.
  { split; [|done]. exists this. subst L. cbn. by rewrite app_nil_r. }
  subst L. cbn [ContextMenu.append_items ContextMenu.children_lines].
  destruct (ContextMenu.separator child).
  - destruct (IH this
                (template
                   ++ indentTemplate (lit "div.contextmenu-separator") 3
                   ++ [LF]))
      as ((this' & ->) & Hclean & Hlf).
    split; [|split].
    + exists this'. f_equal.
      rewrite fmap_cons, fmap_cons, concat_cons, <- !app_assoc.
      by change (indentTemplate (lit "div.contextmenu-separator") 3)
        with (replicate 3 GT ++ lit "div.contextmenu-separator").
    + rewrite fmap_cons. apply Forall_cons. by split.
    + rewrite fmap_cons. apply Forall_cons. split; [|done].
      apply (bool_decide_unpack _). by vm_compute.
  - rewrite buildItem_leaf by (by left). rewrite fmap_app.
    destruct (item_lines random (ContextMenu.calls this) child 2
                Htitle Hicon Hshortcut)
      as (-> & HL & Hclean & Hlf & _).
    set (this1 := match ContextMenu.onclick child with
                  | Some onclick => _
                  | None => this
                  end).
    assert (ContextMenu.calls this1
            = match ContextMenu.onclick child with
              | Some _ => S (ContextMenu.calls this)
              | None => ContextMenu.calls this
              end) as Hcalls.
    { subst this1. by destruct (ContextMenu.onclick child). }
    rewrite <- Hcalls.
    set (La := _ <$> ContextMenu.leaf_lines _ _ _ _) in *.
    destruct (IH this1 (template ++ join_lines La ++ [LF]))
      as ((this' & ->) & Hclean' & Hlf').
    split; [|split].
    + exists this'. f_equal.
      by rewrite fmap_app, concat_app, (joined_lines La), <- !app_assoc.
    + by apply Forall_app.
    + by apply Forall_app.
Qed.

Lemma bind_named (this : Menu) (event_name : jsstring)
  (f : @ContextMenu.Callback UserCallback) :
  missing (Some event_name) = false ->
  startsWith event_name (lit "on") = false ->
  ContextMenu.bind this event_name f
  = (Normal (),
     ContextMenu.mkMenu
       (mkHTMLBuilder
          (SYMBOL_BETWEEN_ATTRIBUTES (ContextMenu.builder this))
          (EVENTS (ContextMenu.builder this)
             ++ [mkEvent (Some event_name) (Some (lit "click"))
                   (Some f) None])
          (parent (ContextMenu.builder this)))
       (ContextMenu.calls this) (ContextMenu.menuid this)).
Proof.
  intros Hname Hon. unfold ContextMenu.bind, bindEvent.
  cbn [name type callback options]. rewrite Hname, Hon.
  by change (missing (Some (lit "click"))) with false.
Qed.

(** X30. The template that [_buildItem] returns for an item with
    children, indented, has the lines of the item, with the event that
    opens the children on its [li], the arrow after the title and the
    [ul] of the children last, and then under that [ul] the lines of
    the children in their order: one line for a separator and, for any
    other child, the lines of an item without children, whatever
    children the child has itself. The [onclick] of the item is not
    bound. No line feed is in a title, an icon or a shortcut. *)
Theorem buildItem_children_lines (this : Menu) (item : Item)
  (children : list Item) (n : nat) :
  ContextMenu.children item = Some children ->
  LF ∉ default [] (ContextMenu.title item) ->
  LF ∉ default [] (ContextMenu.icon item) ->
  Forall (fun child =>
            (LF ∉ default [] (ContextMenu.title child))
            /\ (LF ∉ default [] (ContextMenu.icon child))
            /\ (LF ∉ default [] (ContextMenu.shortcut child))) children ->
  exists template this',
    ContextMenu._buildItem random false this item = (Normal template, this')
    /\ _extractLinesFrom (indentTemplate template (S n))
       = (fun line => replicate (S n) GT ++ line)
           <$> (ContextMenu.parent_lines
                  (lit "openchildren-"
                     ++ ContextMenu.toString
                          (random (ContextMenu.calls this) mod 1000000))
                  (truthy (ContextMenu.icon item))
                  (default [] (ContextMenu.title item))
                  ++ ((fun line => replicate 3 GT ++ line)
                        <$> ContextMenu.children_lines random
                              (S (ContextMenu.calls this)) children)).
Proof.
  destruct item as [t s i o sep ch].
  cbn [ContextMenu.children ContextMenu.title ContextMenu.icon].
  intros -> Htitle Hicon Hchildren.
  cbn [ContextMenu._buildItem ContextMenu._rand ContextMenu.bind
         ContextMenu.builder ContextMenu.calls ContextMenu.menuid].
  change (0 + ?x mod (1000000 - 0)) with (x mod 1000000).
  set (e := lit "openchildren-" ++ ContextMenu.toString _).
  rewrite bind_named by done.
  cbn [ContextMenu.builder ContextMenu.calls ContextMenu.menuid].
  set (this1 := ContextMenu.mkMenu (mkHTMLBuilder _ _ _) _ _).
  destruct (append_children children this1
              (ContextMenu.complex_template e (truthy i) (default [] t))
              Hchildren)
    as ((this' & Happend) & Hclean & Hlf).
  change (ContextMenu.calls this1) with (S (ContextMenu.calls this)) in *.
  rewrite Happend. eexists _, this'. split; [reflexivity|].
  rewrite extractLinesFrom_indentTemplate.
  rewrite <- complex_template_lines;
    [by rewrite <- (list_fmap_compose trim)| |
    |done|by apply truthy_no_line_feed|done..].
  - apply (digit_clean_end (lit "i@openchildren-") 108);
      [done|apply toString_digits|apply toString_nonempty].
  - apply no_line_feed_app; [no_line_feed|].
    apply digit_no_line_feed, toString_digits.
Qed.
End ChildrenLines.

(** * The claims on concrete inputs *)

Local Open Scope string_scope.

(** C1, a template the claim fails on: [a], at level 2 under [div] with
    no line at level 1 before it, is attached to [div] first, and [b], at
    level 1, is then prepended before it. *)
Lemma generate_order_counterexample :
  _extractLinesFrom (template_of ["div"; ">>a"; ">b"])
  = [lit "div"; lit ">>a"; lit ">b"]
  /\ generate no_entities builder0 (template_of ["div"; ">>a"; ">b"])
     = (Normal (),
        parent_appendChild builder0
          (plain "div" [ElementNode (plain "b" []); ElementNode (plain "a" [])]))
  /\ children
       (plain "div" [ElementNode (plain "b" []); ElementNode (plain "a" [])])
     = [plain "b" []; plain "a" []]
  /\ reconstruct prepend_line 2 (LineNode 0 [])
       (line_leaves [(plain "a" [], 2%Z); (plain "b" [], 1%Z)])
     = Normal (LineNode 0 [LineNode 2 []; LineNode 1 []])
  /\ ~ in_document_order (LineNode 0 [LineNode 2 []; LineNode 1 []]).
Proof.
  repeat split; try by vm_compute.
  intros [Hsorted _]. simpl in Hsorted.
  apply StronglySorted_cons in Hsorted as [Hlt _].
  apply Forall_cons in Hlt as [Hlt _]. lia.
Qed.

Lemma reconstruct_document_order_witness :
  exists t,
    reconstruct prepend_line 3 (LineNode 0 [])
      (line_leaves
         [(plain "li" [], 1%Z); (plain "li" [], 2%Z); (plain "li" [], 1%Z)])
    = Normal t
    /\ reconstruct prepend 3 (plain "ul" [])
         [(plain "li" [], 1%Z); (plain "li" [], 2%Z); (plain "li" [], 1%Z)]
       = Normal
           (materialize
              (element_of_line (plain "ul" [])
                 [(plain "li" [], 1%Z); (plain "li" [], 2%Z);
                  (plain "li" [], 1%Z)])
              t)
    /\ line t = 0%nat /\ in_document_order t
    /\ lines_of t ≡ₚ seq 0 4.
Proof.
  apply (reconstruct_document_order (plain "ul" [])
           [(plain "li" [], 1%Z); (plain "li" [], 2%Z); (plain "li" [], 1%Z)]).
  reflexivity.
Defined.

Lemma generate_nested_list_witness :
  generate no_entities builder0
    (lit "ul" ++ [LF] ++ lit ">li(A)" ++ [LF] ++ lit ">>li(B)" ++ [LF]
       ++ lit ">li(C)")%list
  = (Normal (),
     parent_appendChild builder0
       (plain "ul"
          [ElementNode (with_text "li" "A" [with_text "li" "B" []]);
           ElementNode (with_text "li" "C" [])])).
Proof.
  apply (generate_nested_list no_entities builder0).
  - reflexivity.
  - intros s _. reflexivity.
Defined.

(** C3, a call the claim fails on: a binding made before [generate] is
    in the registry, and found, after it has returned. *)
Lemma generate_keeps_binding_counterexample :
  (generate no_entities (bindEvent builder0 (binding "click" "click")).2
     (lit "div")).1
  = Normal ()
  /\ EVENTS
       (generate no_entities (bindEvent builder0 (binding "click" "click")).2
          (lit "div")).2
     = [binding "click" "click"]
  /\ EVENTS
       (generate no_entities (bindEvent builder0 (binding "click" "click")).2
          (lit "div")).2
     ≠ []
  /\ _searchForEvent
       (generate no_entities (bindEvent builder0 (binding "click" "click")).2
          (lit "div")).2
       (lit "click")
     = Some (binding "click" "click").
Proof. by vm_compute. Qed.

(** C4, templates on which the code does not do what the claim says.
    Two blank lines in a row: the second one stays among the lines, is
    taken for a main line and makes [generate] throw, once the first main
    element is in the parent. A blank line before an indented line: the
    indented line is not trimmed, counts as a main line and becomes a
    sibling of [div]. Without their blank lines both templates give
    [div] with [span] in it. *)
Lemma generate_blank_lines :
  _extractLinesFrom (template_of ["div"; ""; ""; ">span"])
  = [lit "div"; []; lit ">span"]
  /\ generate no_entities builder0 (template_of ["div"; ""; ""; ">span"])
     = (Throw (parse_error []), parent_appendChild builder0 (plain "div" []))
  /\ _extractLinesFrom (template_of ["div"; ""; " >span"])
     = [lit "div"; lit " >span"]
  /\ generate no_entities builder0 (template_of ["div"; ""; " >span"])
     = (Normal (),
        parent_appendChild (parent_appendChild builder0 (plain "div" []))
          (plain "span" []))
  /\ generate no_entities builder0 (template_of ["div"; ">span"])
     = (Normal (),
        parent_appendChild builder0
          (plain "div" [ElementNode (plain "span" [])]))
  /\ generate no_entities builder0 (template_of ["div"; " >span"])
     = (Normal (),
        parent_appendChild builder0
          (plain "div" [ElementNode (plain "span" [])])).
Proof. by vm_compute. Qed.

(** C5, an entry on which the code does not do what the claim says: the
    value of [a=b=c] is [b]. *)
Lemma createElementFromLine_attribute_counterexample :
  _createElementFromLine no_entities builder0 (lit "div[a=b=c]")
  = Normal (mkElement (lit "div") [] [] [(lit "a", lit "b")] [] [])
  /\ attributes (mkElement (lit "div") [] [] [(lit "a", lit "b")] [] []
                 : @Element nat unit)
     ≠ [(lit "a", lit "b=c")].
Proof. split; [by vm_compute|done]. Qed.

(** The same on the line that [ContextMenu._buildItem] writes for an
    icon whose address has a query string: the [src] stops before the
    second [=]. *)
Lemma createElementFromLine_icon_query :
  _createElementFromLine no_entities builder0 (lit "img[src=a.png?v=1&w=2]")
  = Normal (mkElement (lit "img") [] [] [(lit "src", lit "a.png?v")] [] []).
Proof. by vm_compute. Qed.

Lemma set_attribute_entry_value_witness :
  set_attribute_entry (plain "div" []) (lit "a=b=c")
  = setAttribute (lit "a") (lit "b") (plain "div" []).
Proof.
  apply (proj2 (proj2 (set_attribute_entry_value (plain "div" [])
                         (lit "a=b=c") (lit "a") (lit "b")
                         eq_refl eq_refl eq_refl))
           (lit "c")).
  reflexivity.
Defined.


Lemma bindEvent_validation_witness :
  (exists message,
      bindEvent builder0 (binding_without_callback "click" "click")
      = (Throw (Error message), builder0))
  /\ EVENTS (bindEvent builder0 (binding_without_callback "click" "click")).2
     = EVENTS builder0.
Proof.
  apply (bindEvent_validation builder0
           (binding_without_callback "click" "click")).
  right. right. reflexivity.
Defined.

Lemma bindEvent_strips_on_witness :
  _searchForEvent (bindEvent builder0 (binding "onsubmit" "submit")).2
    (lit "submit")
  = Some (binding "submit" "submit").
Proof.
  destruct (bindEvent_strips_on builder0 (binding "onsubmit" "submit")
              (lit "submit"))
    as (Hbind & _ & Hfound).
  - reflexivity.
  - reflexivity.
  - exists 0%nat. reflexivity.
  - rewrite Hbind. apply Hfound. constructor.
Defined.

(** * The further properties on concrete inputs *)

Lemma bindEvent_by_value_witness :
  (bindEvent_object (mkSharedRegistry [binding "onclick" "click"] []) 0).1
  = (bindEvent builder0 (binding "onclick" "click")).1
  /\ events_of
       (bindEvent_object (mkSharedRegistry [binding "onclick" "click"] []) 0).2
     = EVENTS (bindEvent builder0 (binding "onclick" "click")).2.
Proof.
  apply (bindEvent_by_value
           (mkSharedRegistry [binding "onclick" "click"] []) builder0 0
           (binding "onclick" "click")).
  - reflexivity.
  - apply (bool_decide_unpack _). by vm_compute.
  - reflexivity.
Defined.

Lemma bindEvent_object_twice_witness :
  let this := mkSharedRegistry [binding "ononclick" "click"] [] in
  let once := (bindEvent_object this 0).2 in
  let twice := (bindEvent_object once 0).2 in
  (bindEvent_object this 0).1 = Normal ()
  /\ (bindEvent_object once 0).1 = Normal ()
  /\ events_of once = [binding "onclick" "click"]
  /\ search_events (lit "onclick") (events_of once)
     = Some (binding "onclick" "click")
  /\ events_of twice = [binding "click" "click"; binding "click" "click"]
  /\ search_events (lit "onclick") (events_of twice) = None.
Proof.
  apply (bindEvent_object_twice
           (mkSharedRegistry [binding "ononclick" "click"] []) 0
           (binding "ononclick" "click") (lit "click")).
  - reflexivity.
  - apply (bool_decide_unpack _). by vm_compute.
  - reflexivity.
  - reflexivity.
  - exists 0%nat. reflexivity.
  - reflexivity.
Defined.

Lemma createElementFromLine_listeners_witness :
  Forall (fun l => exists event : @Event nat unit,
              event ∈ EVENTS builder0
              /\ l = (type event, callback event, options event))
    (listeners (plain "li" []))
  /\ (EVENTS builder0 = [] -> listeners (plain "li" []) = []).
Proof.
  apply (createElementFromLine_listeners no_entities builder0
           (lit "li@click") (plain "li" [])).
  by vm_compute.
Defined.

Lemma extractLinesFrom_no_blank_witness :
  _extractLinesFrom (template_of ["div"; "  >span  "; ">p"])
  = trim <$> split [LF] (trim (template_of ["div"; "  >span  "; ">p"])).
Proof.
  apply (extractLinesFrom_no_blank
           (template_of ["div"; "  >span  "; ">p"])).
  apply (bool_decide_unpack _). by vm_compute.
Defined.

Lemma indentTemplate_levels_witness :
  _level <$> _extractLinesFrom
               (indentTemplate (template_of ["div"; ">span"; ">>a"]) 2)
  = (fun line => (Z.of_nat 2 + _level line)%Z)
      <$> _extractLinesFrom (template_of ["div"; ">span"; ">>a"]).
Proof.
  apply (proj2 (proj2 (indentTemplate_levels
                         (template_of ["div"; ">span"; ">>a"]) 1))).
  apply (bool_decide_unpack _). by vm_compute.
Defined.

(** A line that [_extractLinesFrom] leaves untrimmed, after a blank
    line, goes up by more than the indentation. *)
Lemma indentTemplate_untrimmed_line :
  _level <$> _extractLinesFrom (template_of ["div"; ""; " >span"])
  = [0; 0]%Z
  /\ _level <$> _extractLinesFrom
                  (indentTemplate (template_of ["div"; ""; " >span"]) 1)
     = [1; 2]%Z.
Proof. by vm_compute. Qed.

Lemma getIndexOfDeepestElement_spec_witness :
  exists d x,
    _getIndexOfDeepestElement
      [(0%nat, 1%Z); (1%nat, 2%Z); (2%nat, 2%Z); (3%nat, 1%Z)]
    = Some d
    /\ [(0%nat, 1%Z); (1%nat, 2%Z); (2%nat, 2%Z); (3%nat, 1%Z)] !! d
       = Some x
    /\ Forall (fun c => (c.2 <= x.2)%Z)
         [(0%nat, 1%Z); (1%nat, 2%Z); (2%nat, 2%Z); (3%nat, 1%Z)]
    /\ forall j c,
        (d < j)%nat ->
        [(0%nat, 1%Z); (1%nat, 2%Z); (2%nat, 2%Z); (3%nat, 1%Z)] !! j
        = Some c ->
        (c.2 < x.2)%Z.
Proof.
  apply (getIndexOfDeepestElement_spec
           [(0%nat, 1%Z); (1%nat, 2%Z); (2%nat, 2%Z); (3%nat, 1%Z)]).
  apply (bool_decide_unpack _). by vm_compute.
Defined.

Lemma reconstruct_flat_witness :
  reconstruct prepend 2 (with_text "ul" "list" [])
    [(plain "li" [], 1%Z); (plain "p" [], 1%Z)]
  = Normal (with_text "ul" "list" [plain "li" []; plain "p" []]).
Proof.
  etransitivity.
  - apply (reconstruct_flat (with_text "ul" "list" [])
             [(plain "li" [], 1%Z); (plain "p" [], 1%Z)]).
    repeat constructor.
  - reflexivity.
Defined.

Lemma reconstruct_nearest_parent_witness :
  exists t,
    reconstruct prepend_line 3 (LineNode 0 [])
      (line_leaves
         [(plain "a" [], 2%Z); (plain "b" [], 1%Z); (plain "c" [], 2%Z)])
    = Normal t
    /\ reconstruct prepend 3 (plain "div" [])
         [(plain "a" [], 2%Z); (plain "b" [], 1%Z); (plain "c" [], 2%Z)]
       = Normal
           (materialize
              (element_of_line (plain "div" [])
                 [(plain "a" [], 2%Z); (plain "b" [], 1%Z);
                  (plain "c" [], 2%Z)])
              t)
    /\ line t = 0%nat
    /\ lines_of t ≡ₚ seq 0 4
    /\ attached_to_nearest [2%Z; 1%Z; 2%Z] t
    /\ (forall j j' k,
          nearest_parent [2%Z; 1%Z; 2%Z] j k ->
          nearest_parent [2%Z; 1%Z; 2%Z] j' k -> j = j').
Proof.
  apply (reconstruct_nearest_parent (plain "div" [])
           [(plain "a" [], 2%Z); (plain "b" [], 1%Z); (plain "c" [], 2%Z)]).
  repeat constructor; simpl; lia.
Defined.

Lemma generate_one_element_per_main_line_witness :
  exists elements : list (@Element nat unit),
    (generate no_entities builder0 (template_of ["ul"; ">li"; "p.note"])).2
    = mkHTMLBuilder (lit ";") []
        (with_childNodes body
           (childNodes body ++ (ElementNode <$> elements)))%list
    /\ tagName <$> elements
       = first_word
           <$> (main_lines 0
                  (_extractLinesFrom (template_of ["ul"; ">li"; "p.note"]))).*1.
Proof.
  apply (generate_one_element_per_main_line no_entities builder0
           (template_of ["ul"; ">li"; "p.note"])).
  by vm_compute.
Defined.

Lemma generate_without_main_line_witness :
  generate no_entities builder0 (template_of [">li"; ">>span"; ">()"])
  = (Normal (), builder0).
Proof.
  apply (generate_without_main_line no_entities builder0
           (template_of [">li"; ">>span"; ">()"])).
  apply (bool_decide_unpack _). by vm_compute.
Defined.

Lemma exec_REGEX_print_witness :
  exists res,
    exec REGEX (print full_line) = Some res
    /\ group res 1 = Some (lit "li")
    /\ group res 2 = Some (lit ".a.b")
    /\ group res 3 = Some (lit "#x")
    /\ group res 4 = Some (lit "t(1)")
    /\ group res 5 = Some (lit "k=v")
    /\ group res 6 = Some (lit "d").
Proof. apply (exec_REGEX_print full_line). reflexivity. Defined.

Lemma createElementFromLine_selector_witness :
  _createElementFromLine no_entities builder0 (lit "div.a.b#x(hi)")
  = Normal
      (mkElement (lit "div") [lit "a"; lit "b"] (lit "x") [] []
         [TextNode (lit "hi")]).
Proof.
  apply (createElementFromLine_selector no_entities builder0 (lit "div")
           [lit "a"; lit "b"] (Some (lit "x")) (Some (lit "hi"))).
  - reflexivity.
  - apply (bool_decide_unpack _). by vm_compute.
  - apply (bool_decide_unpack _). by vm_compute.
Defined.

Lemma createElementFromLine_attributes_witness :
  _createElementFromLine no_entities
    (changeSymbolBetweenAttributes builder0 (lit "/"))
    (lit "a[href=x/title=y]")
  = set_attributes [lit "href=x"; lit "title=y"] (new_element (lit "a"))
  /\ (set_attributes [lit "href=x"; lit "title=y"]
        (new_element (lit "a") : @Element nat unit)
      = Throw InvalidCharacterError
      \/ exists element,
          set_attributes [lit "href=x"; lit "title=y"]
            (new_element (lit "a") : @Element nat unit)
          = Normal element).
Proof.
  apply (createElementFromLine_attributes no_entities builder0 (lit "/")
           (lit "a") (lit "href=x/title=y")).
  - reflexivity.
  - discriminate.
Defined.

(** The element of that line. *)
Lemma createElementFromLine_attributes_example :
  _createElementFromLine no_entities
    (changeSymbolBetweenAttributes builder0 (lit "/"))
    (lit "a[href=x/title=y]")
  = Normal
      (mkElement (lit "a") [] []
         [(lit "href", lit "x"); (lit "title", lit "y")] [] []).
Proof. by vm_compute. Qed.

Lemma createElementFromLine_last_events_witness :
  _createElementFromLine no_entities builder0 (lit "li@a@b")
  = _createElementFromLine no_entities builder0 (lit "li@b").
Proof.
  apply (createElementFromLine_last_events no_entities builder0
           (mkDescriptor (lit "li") [] None None None [lit "a"; lit "b"])).
  reflexivity.
Defined.

Lemma createElementFromLine_event_witness :
  _createElementFromLine no_entities
    (bindEvent builder0 (binding "onclick" "click")).2 (lit "li@click")
  = Normal
      (mkElement (lit "li") [] [] [] [(Some (lit "click"), Some 0%nat, None)]
         []).
Proof.
  apply (createElementFromLine_event no_entities
           (bindEvent builder0 (binding "onclick" "click")).2
           (lit "li") (lit "click")).
  - reflexivity.
  - discriminate.
  - reflexivity.
  - reflexivity.
Defined.

Lemma createElementFromLine_markers_witness :
  _createElementFromLine no_entities builder0 (lit ">>li(A)")
  = _createElementFromLine no_entities builder0 (lit "li(A)").
Proof.
  apply (createElementFromLine_markers no_entities builder0 (lit ">>")
           (lit "li(A)")).
  - reflexivity.
  - reflexivity.
Defined.

Lemma createElementFromLine_ignores_rest_witness :
  _createElementFromLine no_entities builder0 (lit "div class=x")
  = Normal (new_element (lit "div")).
Proof.
  apply (createElementFromLine_ignores_rest no_entities builder0 (lit "div")
           (lit " class=x")).
  - discriminate.
  - reflexivity.
  - reflexivity.
Defined.

(** ** The menu on concrete items *)

Lemma buildItem_leaf_lines_witness :
  exists template this',
    ContextMenu._buildItem always_seven false menu0 copy_item
    = (Normal template, this')
    /\ _extractLinesFrom (indentTemplate template 2)
       = [ lit ">>li@eventitem-7";
           lit ">>>div.contextmenu-item";
           lit ">>>>div.contextmenu-container-title";
           lit ">>>>>span.contextmenu-title(Copy)";
           lit ">>>>span.contextmenu-shortcut(Ctrl+C)" ].
Proof.
  apply (buildItem_leaf_lines always_seven false menu0 copy_item 1).
  - by right.
  - apply (bool_decide_unpack _). by vm_compute.
  - apply (bool_decide_unpack _). by vm_compute.
  - apply (bool_decide_unpack _). by vm_compute.
Defined.

Lemma new_ContextMenu_leaf_witness :
  ContextMenu.new_ContextMenu no_entities always_seven menu_body [paste_item]
  = (Normal (),
     ContextMenu.mkMenu
       (mkHTMLBuilder (lit ";") []
          (appendChild
             (ElementNode
                (ContextMenu.rendered_menu (lit "contextmenu-7")
                   [ContextMenu.rendered_leaf no_entities
                      [(Some (lit "click"), Some (ContextMenu.ItemClick 2%nat),
                        None)]
                      (Some (lit "paste.png")) (lit "Paste") None]))
             menu_body))
       2 (Some (lit "contextmenu-7"))).
Proof.
  apply (new_ContextMenu_leaf no_entities always_seven menu_body paste_item).
  - reflexivity.
  - reflexivity.
  - reflexivity.
  - reflexivity.
  - reflexivity.
  - reflexivity.
  - reflexivity.
Defined.

(** An icon that ends with [;]: the builder cuts the text between the
    brackets at the [;], the piece after it is an attribute entry
    without a name, which [setAttribute] refuses, and [new ContextMenu]
    throws. *)
Lemma new_ContextMenu_icon_separator :
  (ContextMenu.new_ContextMenu no_entities always_seven menu_body
     [ContextMenu.mkItem (Some (lit "Paste")) None (Some (lit "paste.png;"))
        (Some 2%nat) false None]).1
  = Throw InvalidCharacterError.
Proof. by vm_compute. Qed.

Lemma new_ContextMenu_same_number_witness :
  ContextMenu.new_ContextMenu no_entities always_seven menu_body
    [copy_item; paste_item]
  = (Normal (),
     ContextMenu.mkMenu
       (mkHTMLBuilder (lit ";") []
          (appendChild
             (ElementNode
                (ContextMenu.rendered_menu (lit "contextmenu-7")
                   [ContextMenu.rendered_leaf no_entities
                      [(Some (lit "click"), Some (ContextMenu.ItemClick 1%nat),
                        None)]
                      None (lit "Copy") (Some (lit "Ctrl+C"));
                    ContextMenu.rendered_leaf no_entities
                      [(Some (lit "click"), Some (ContextMenu.ItemClick 1%nat),
                        None)]
                      (Some (lit "paste.png")) (lit "Paste") None]))
             menu_body))
       3 (Some (lit "contextmenu-7"))).
Proof.
  apply (new_ContextMenu_same_number no_entities always_seven menu_body
           copy_item paste_item 1%nat 2%nat).
  - reflexivity.
  - reflexivity.
  - reflexivity.
  - reflexivity.
  - reflexivity.
  - reflexivity.
  - reflexivity.
  - reflexivity.
  - reflexivity.
  - reflexivity.
  - reflexivity.
  - reflexivity.
  - reflexivity.
  - reflexivity.
  - reflexivity.
  - reflexivity.
Defined.

Lemma buildItem_children_lines_witness :
  exists template this',
    ContextMenu._buildItem always_seven false menu0 edit_item
    = (Normal template, this')
    /\ _extractLinesFrom (indentTemplate template 2)
       = [ lit ">>li@openchildren-7";
           lit ">>>div.contextmenu-item";
           lit ">>>>div.contextmenu-container-title";
           lit ">>>>>span.contextmenu-title(Edit)";
           (lit ">>>>span.contextmenu-arrow(" ++ ContextMenu.arrow_down
              ++ lit ")")%list;
           lit ">>>div.contextmenu-container-children.contextmenu-hidden";
           lit ">>>>ul";
           lit ">>>>>li@eventitem-7";
           lit ">>>>>>div.contextmenu-item";
           lit ">>>>>>>div.contextmenu-container-title";
           lit ">>>>>>>>span.contextmenu-title(Copy)";
           lit ">>>>>>>span.contextmenu-shortcut(Ctrl+C)";
           lit ">>>>>div.contextmenu-separator";
           lit ">>>>>li@eventitem-7";
           lit ">>>>>>div.contextmenu-item";
           lit ">>>>>>>div.contextmenu-container-title";
           lit ">>>>>>>>img[src=paste.png]";
           lit ">>>>>>>>span.contextmenu-title(Paste)" ].
Proof.
  apply (buildItem_children_lines always_seven menu0 edit_item
           [copy_item; separator_item; paste_item] 1).
  - reflexivity.
  - apply (bool_decide_unpack _). by vm_compute.
  - apply (bool_decide_unpack _). by vm_compute.
  - repeat constructor; apply (bool_decide_unpack _); by vm_compute.
Defined.
